(** * Dashboard asset builder: the field parsers, the aggregator and the writers

    A shallow embedding of [scripts/build_dashboard_assets.py].

    Conventions of the embedding:
    - text is a list of characters; a character is a code point below 256
      (the notebook payloads are reduced to code points below 128 by
      [normalize_text] before any parser sees them);
    - a Python [int] is a [Z]; a Python [float] is a binary64 value of
      [SpecFloat] ([prec = 53], [emax = 1024]);
    - a call that may raise returns an [outcome]: a value or the exception;
    - a regular expression is a value of [regex], run by a backtracking
      matcher with the priorities of Python's [re] (leftmost start, greedy
      repetition longest first, lazy repetition shortest first);
    - a [dict] whose order is visible in the output is an association list,
      a [dict] used only for lookup is a [gmap]. *)

From Stdlib Require Import ZArith List Ascii String Bool Lia Permutation Sorted.
From Stdlib Require Import Decimal DecimalString.
From Stdlib Require Import Floats.SpecFloat.
From stdpp Require Import base list gmap strings.
Import ListNotations.

Set Warnings "-register-all".
Open Scope Z_scope.

(** ** Text *)

Abbreviation text := (list ascii).

Definition T (s : string) : text := list_ascii_of_string s.

Definition code (c : ascii) : N := N_of_ascii c.

Definition chr (n : N) : ascii := ascii_of_N n.

Definition char_eqb (a b : ascii) : bool := N.eqb (code a) (code b).

Definition text_eqb (a b : text) : bool :=
  bool_decide (a = b).

(** [str.isdecimal] / the class [\d] of [re]: below 256 only 0-9. *)
Definition is_digit (c : ascii) : bool :=
  (N.leb 48 (code c) && N.leb (code c) 57)%bool.

(** [str.isspace] / the class [\s] of [re]: tab, line feed, vertical tab,
    form feed, carriage return, the four separators 28-31, space, and in
    the upper half next-line (133) and no-break space (160). *)
Definition is_space (c : ascii) : bool :=
  let n := code c in
  ((N.leb 9 n && N.leb n 13) || (N.leb 28 n && N.leb n 32)
   || N.eqb n 133 || N.eqb n 160)%bool.

Definition is_upper_az (c : ascii) : bool := (N.leb 65 (code c) && N.leb (code c) 90)%bool.
Definition is_lower_az (c : ascii) : bool := (N.leb 97 (code c) && N.leb (code c) 122)%bool.

(** Letters of the upper half that have a lower/upper partner below 256:
    192-222 without the multiplication sign 215, and 224-254 without the
    division sign 247. *)
Definition is_upper_latin1 (c : ascii) : bool :=
  (N.leb 192 (code c) && N.leb (code c) 222 && negb (N.eqb (code c) 215))%bool.

(** [str.lower] on one character. *)
Definition lower_char (c : ascii) : ascii :=
  if (is_upper_az c || is_upper_latin1 c)%bool then chr (code c + 32) else c.

Definition lower (s : text) : text := map lower_char s.

(** [str.upper] on one character of the range a-z / A-Z; the only text the
    program upper-cases is a unit captured by [[KMGT]?i?B], made of these
    letters. *)
Definition upper_char (c : ascii) : ascii :=
  if is_lower_az c then chr (code c - 32) else c.

Definition upper (s : text) : text := map upper_char s.

(** The text from its first character outside the class [p]. *)
Fixpoint skip_while (p : ascii -> bool) (s : text) : text :=
  match s with
  | c :: s' => if p c then skip_while p s' else s
  | [] => []
  end.

Definition lstrip (s : text) : text := skip_while is_space s.

Definition rstrip (s : text) : text := rev (lstrip (rev s)).

(** [str.strip()] *)
Definition strip (s : text) : text := rstrip (lstrip s).

Fixpoint starts_with (w s : text) : bool :=
  match w, s with
  | [], _ => true
  | a :: w', b :: s' => (char_eqb a b && starts_with w' s')%bool
  | _ :: _, [] => false
  end.

(** [needle in s] *)
Fixpoint contains (needle s : text) : bool :=
  (starts_with needle s ||
   match s with
   | [] => false
   | _ :: s' => contains needle s'
   end)%bool.

(** [s.replace(old, new)] for a non-empty [old]: occurrences are replaced
    left to right without overlap; [skip] counts the characters of the
    occurrence just replaced that are still to be passed over. *)
Fixpoint replace_from (old new : text) (skip : nat) (s : text) : text :=
  match s with
  | [] => []
  | c :: s' =>
      match skip with
      | S k => replace_from old new k s'
      | O =>
          if starts_with old s
          then new ++ replace_from old new (length old - 1) s'
          else c :: replace_from old new 0 s'
      end
  end.

Definition replace (old new s : text) : text := replace_from old new 0 s.

(** [sep.join(parts)] *)
Fixpoint str_join (sep : text) (parts : list text) : text :=
  match parts with
  | [] => []
  | [p] => p
  | p :: ps => p ++ sep ++ str_join sep ps
  end.

(** [text.split()]: the maximal runs of non-whitespace characters. *)
Fixpoint split_ws_from (cur : text) (s : text) : list text :=
  match s with
  | [] => match cur with [] => [] | _ => [rev cur] end
  | c :: s' =>
      if is_space c
      then match cur with
           | [] => split_ws_from [] s'
           | _ => rev cur :: split_ws_from [] s'
           end
      else split_ws_from (c :: cur) s'
  end.

Definition split_ws (s : text) : list text := split_ws_from [] s.

(** The line boundaries of [str.splitlines]: line feed, carriage return
    (with a following line feed taken together), vertical tab, form feed,
    the separators 28-30 and next-line (133). *)
Definition is_linebreak (c : ascii) : bool :=
  let n := code c in
  ((N.leb 10 n && N.leb n 13) || (N.leb 28 n && N.leb n 30) || N.eqb n 133)%bool.

Fixpoint splitlines_from (cur : text) (s : text) : list text :=
  match s with
  | [] => match cur with [] => [] | _ => [rev cur] end
  | c :: s' =>
      if is_linebreak c
      then match s' with
           | c' :: s'' =>
               if (N.eqb (code c) 13 && N.eqb (code c') 10)%bool
               then rev cur :: splitlines_from [] s''
               else rev cur :: splitlines_from [] s'
           | [] => [rev cur]
           end
      else splitlines_from (c :: cur) s'
  end.

(** [text.splitlines()] *)
Definition splitlines (s : text) : list text := splitlines_from [] s.

(** ** Exceptions

    The exception classes the program can meet ([binascii.Error] is
    [BinasciiError]).  [Unmodelled] is no Python exception: it is the
    answer of the small library instance at the end of the definitions for
    text it does not cover. *)

Inductive exn : Set :=
| ValueError
| SyntaxError
| TypeError
| OverflowError
| IndexError
| KeyError
| ZeroDivisionError
| RecursionError
| MemoryError
| FileNotFoundError
| BinasciiError
| Unmodelled.

Inductive outcome (A : Type) : Type :=
| Ok (a : A)
| Raise (e : exn).

Arguments Ok {A} a.
Arguments Raise {A} e.

Definition bind {A B : Type} (c : outcome A) (k : A -> outcome B) : outcome B :=
  match c with
  | Ok a => k a
  | Raise e => Raise e
  end.

Notation "'let*' x ':=' c 'in' k" := (bind c (fun x => k))
  (at level 10, x binder, c at level 100, k at level 200).

Definition returns {A : Type} (c : outcome A) : bool :=
  match c with Ok _ => true | Raise _ => false end.

(** [for x in xs: acc = step(acc, x)], stopping at the first exception. *)
Fixpoint for_each {A S : Type} (step : S -> A -> outcome S) (xs : list A) (acc : S)
  : outcome S :=
  match xs with
  | [] => Ok acc
  | x :: xs' => let* acc' := step acc x in for_each step xs' acc'
  end.

(** ** Regular expressions

    The constructs the program's patterns use.  Repetition is only ever
    applied to a single-character class there, which keeps the matcher
    structurally recursive. *)

Inductive regex : Type :=
| RLit (w : text)                         (* the characters of [w] *)
| RSet (p : ascii -> bool)                (* one character of a class *)
| RStar (p : ascii -> bool)               (* [p*] *)
| RPlus (p : ascii -> bool)               (* [p+] *)
| RStarLazy (p : ascii -> bool)           (* [p*?] *)
| RPlusLazy (p : ascii -> bool)           (* [p+?] *)
| ROpt (r : list regex)                   (* [(?:r)?] *)
| RGroup (r : list regex)                 (* [(r)] *)
| RBol                                    (* [^] *)
| REol                                    (* [$] *)
| RLookahead (alts : list (list regex)).  (* [(?=a|b)] *)

(** A match: the captured groups in order, and the text left after it. *)
Definition mres : Type := list text * text.

Definition cont : Type := text -> nat -> list text -> option mres.

Definition accept : cont := fun s _ cs => Some (cs, s).

Definition or_else {A : Type} (a b : option A) : option A :=
  match a with Some x => Some x | None => b end.

(** Greedy repetition of a class: the longest run first, then shorter. *)
Fixpoint rep_greedy (p : ascii -> bool) (k : text -> nat -> option mres)
  (s : text) (i : nat) : option mres :=
  match s with
  | c :: s' =>
      if p c then or_else (rep_greedy p k s' (S i)) (k s i) else k s i
  | [] => k [] i
  end.

(** Lazy repetition of a class: the shortest run first, then longer. *)
Fixpoint rep_lazy (p : ascii -> bool) (k : text -> nat -> option mres)
  (s : text) (i : nat) : option mres :=
  or_else (k s i)
    match s with
    | c :: s' => if p c then rep_lazy p k s' (S i) else None
    | [] => None
    end.

Definition is_some {A : Type} (o : option A) : bool :=
  match o with Some _ => true | None => false end.

Fixpoint rmatch (r : regex) (k : cont) (s : text) (i : nat) (cs : list text)
  {struct r} : option mres :=
  let rseq :=
    fix rseq (rs : list regex) (k : cont) {struct rs} : cont :=
      match rs with
      | [] => k
      | r' :: rs' => rmatch r' (rseq rs' k)
      end in
  match r with
  | RLit w =>
      if starts_with w s then k (skipn (length w) s) (i + length w)%nat cs else None
  | RSet p =>
      match s with
      | c :: s' => if p c then k s' (S i) cs else None
      | [] => None
      end
  | RStar p => rep_greedy p (fun s' i' => k s' i' cs) s i
  | RPlus p =>
      match s with
      | c :: s' => if p c then rep_greedy p (fun s'' i' => k s'' i' cs) s' (S i) else None
      | [] => None
      end
  | RStarLazy p => rep_lazy p (fun s' i' => k s' i' cs) s i
  | RPlusLazy p =>
      match s with
      | c :: s' => if p c then rep_lazy p (fun s'' i' => k s'' i' cs) s' (S i) else None
      | [] => None
      end
  | ROpt rs => or_else (rseq rs k s i cs) (k s i cs)
  | RGroup rs =>
      rseq rs (fun s' i' cs' => k s' i' (cs' ++ [firstn (i' - i) s])) s i cs
  | RBol => if Nat.eqb i 0 then k s i cs else None
  | REol =>
      match s with
      | [] => k s i cs
      | [c] => if N.eqb (code c) 10 then k s i cs else None
      | _ => None
      end
  | RLookahead alts =>
      if existsb (fun alt => is_some (rseq alt accept s i cs)) alts
      then k s i cs else None
  end.

Fixpoint match_seq (rs : list regex) (k : cont) {struct rs} : cont :=
  match rs with
  | [] => k
  | r :: rs' => rmatch r (match_seq rs' k)
  end.

(** [re.match(pattern, s)]: the match anchored at the start of [s]. *)
Definition re_match (pattern : list regex) (s : text) : option mres :=
  match_seq pattern accept s 0%nat [].

(** The leftmost match at or after the current position; with it the number
    of characters skipped before it. *)
Fixpoint search_from (pattern : list regex) (s : text) (i : nat)
  : option (nat * mres) :=
  match match_seq pattern accept s i [] with
  | Some m => Some (i, m)
  | None =>
      match s with
      | _ :: s' => search_from pattern s' (S i)
      | [] => None
      end
  end.

(** [re.search(pattern, s)]: the groups of the leftmost match. *)
Definition re_search (pattern : list regex) (s : text) : option (list text) :=
  match search_from pattern s 0 with
  | Some (_, (cs, _)) => Some cs
  | None => None
  end.

(** [m.group(n)] for [n >= 1]. *)
Definition group (n : nat) (cs : list text) : text := nth (n - 1) cs [].

(** [re.findall(pattern, s)] for a pattern with groups: the groups of the
    successive non-overlapping matches.  A match that consumes nothing
    makes the scan advance by one character. *)
Fixpoint findall_from (fuel : nat) (pattern : list regex) (s : text) (i : nat)
  : list (list text) :=
  match fuel with
  | O => []
  | S fuel' =>
      match search_from pattern s i with
      | None => []
      | Some (j, (cs, rest)) =>
          cs ::
          (if (length rest <? length (skipn (j - i) s))%nat
           then findall_from fuel' pattern rest (i + (length s - length rest))%nat
           else match rest with
                | [] => []
                | _ :: rest' => findall_from fuel' pattern rest' (S j)
                end)
      end
  end.

Definition re_findall (pattern : list regex) (s : text) : list (list text) :=
  findall_from (S (length s)) pattern s 0.

(** [re.sub] with the empty replacement: every non-overlapping match is
    deleted. *)
Fixpoint delete_matches_from (fuel : nat) (pattern : list regex) (s : text) (i : nat)
  : text :=
  match fuel with
  | O => s
  | S fuel' =>
      match s with
      | [] => []
      | c :: s' =>
          match match_seq pattern accept s i [] with
          | Some (_, rest) =>
              if (length rest <? length s)%nat
              then delete_matches_from fuel' pattern rest (i + (length s - length rest))%nat
              else c :: delete_matches_from fuel' pattern s' (S i)
          | None => c :: delete_matches_from fuel' pattern s' (S i)
          end
      end
  end.

Definition re_delete (pattern : list regex) (s : text) : text :=
  delete_matches_from (S (length s)) pattern s 0.

(** Character classes of the patterns. *)
Definition any_char : ascii -> bool := fun _ => true.                      (* [.] with re.S *)
Definition is_char (x : string) (c : ascii) : bool := existsb (char_eqb c) (T x).
Definition not_char (x : string) (c : ascii) : bool := negb (is_char x c).
Definition not_space (c : ascii) : bool := negb (is_space c).             (* [\S] *)
Definition num_char (c : ascii) : bool := (is_digit c || is_char ",." c)%bool.   (* [[\d,\.]] *)
Definition int_char (c : ascii) : bool := (is_digit c || is_char "," c)%bool.    (* [[\d,]] *)
Definition dec_char (c : ascii) : bool := (is_digit c || is_char "." c)%bool.    (* [[\d\.]] *)
Definition word_char (c : ascii) : bool :=                                (* [[A-Za-z0-9_]] *)
  (is_upper_az c || is_lower_az c || is_digit c || is_char "_" c)%bool.

(** [re.I] on a class of letters: a character matches when it equals one of
    the letters up to case. *)
Definition ci_char (x : string) (c : ascii) : bool :=
  existsb (fun a => char_eqb (lower_char c) (lower_char a)) (T x).

(** ** Numbers *)

Definition prec : Z := 53.
Definition emax : Z := 1024.

Inductive pynum : Type :=
| NInt (z : Z)
| NFloat (f : spec_float).

(** The binary64 value nearest to [n / d] (ties to even) for positive [n]
    and [d], with sign [neg]; an infinity when the quotient is out of
    range. *)
Definition ratio_to_float (neg : bool) (n d : Z) : spec_float :=
  if n =? 0 then S754_zero neg
  else
    let '(q, e, l) := SFdiv_core_binary prec emax n 0 d 0 in
    binary_round_aux prec emax neg q e l.

(** An [int] used as a [float] operand. *)
Definition int_to_float (z : Z) : spec_float :=
  ratio_to_float (z <? 0) (Z.abs z) 1.

Definition float_mul (x y : spec_float) : spec_float := SFmul prec emax x y.

(** [x < y] on floats; false when either is a NaN. *)
Definition float_ltb (x y : spec_float) : bool := SFltb x y.

(** [a / b] on two ints: the correctly rounded quotient. *)
Definition int_truediv (a b : Z) : outcome spec_float :=
  if b =? 0 then Raise ZeroDivisionError
  else if a =? 0 then Ok (S754_zero (b <? 0))
  else
    match ratio_to_float (xorb (a <? 0) (b <? 0)) (Z.abs a) (Z.abs b) with
    | S754_infinity _ => Raise OverflowError
    | f => Ok f
    end.

(** Round half to even of [n / d] for [d > 0] and [n >= 0]. *)
Definition div_half_even (n d : Z) : Z :=
  let q := n / d in
  let r := n mod d in
  match 2 * r ?= d with
  | Lt => q
  | Gt => q + 1
  | Eq => if Z.even q then q else q + 1
  end.

(** [round(x, 2)]: the exact value of [x] is rounded to two decimals (half
    to even) and the result converted back to the nearest float. *)
Definition float_round2 (x : spec_float) : spec_float :=
  match x with
  | S754_finite s m e =>
      let h :=
        if 0 <=? e
        then Zpos m * 2 ^ e * 100
        else div_half_even (Zpos m * 100) (2 ^ (- e)) in
      ratio_to_float s h 100
  | _ => x
  end.

Definition digit_value (c : ascii) : Z := Z.of_N (code c) - 48.

Definition digits_to_Z (ds : text) : Z :=
  fold_left (fun acc c => acc * 10 + digit_value c) ds 0.

(** A leading sign. *)
Definition take_sign (s : text) : bool * text :=
  match s with
  | c :: s' =>
      if char_eqb c "-" then (true, s')
      else if char_eqb c "+" then (false, s')
      else (false, s)
  | [] => (false, [])
  end.

(** The rest of a digit part after its first digit: [(["_"] digit)*]. *)
Fixpoint digitpart_tail (s : text) : text * text :=
  match s with
  | c :: s' =>
      if is_digit c
      then let '(ds, r) := digitpart_tail s' in (c :: ds, r)
      else if char_eqb c "_"
           then match s' with
                | d :: s'' =>
                    if is_digit d
                    then let '(ds, r) := digitpart_tail s'' in (d :: ds, r)
                    else ([], s)
                | [] => ([], s)
                end
           else ([], s)
  | [] => ([], [])
  end.

(** [digitpart ::= digit (["_"] digit)*]: its digits and the text after. *)
Definition digitpart (s : text) : option (text * text) :=
  match s with
  | c :: s' =>
      if is_digit c
      then let '(ds, r) := digitpart_tail s' in Some (c :: ds, r)
      else None
  | [] => None
  end.

(** The whitespace [int] and [float] pass over around a number: that of
    [str.isspace] without the four separators 28-31. *)
Definition is_num_space (c : ascii) : bool :=
  let n := code c in
  ((N.leb 9 n && N.leb n 13) || N.eqb n 32 || N.eqb n 133 || N.eqb n 160)%bool.

Definition num_strip (s : text) : text :=
  rev (skip_while is_num_space (rev (skip_while is_num_space s))).

(** The interpreter's default limit on the number of digits [int] reads
    from a string ([sys.get_int_max_str_digits]); the program does not
    change it. *)
Definition MAX_STR_DIGITS : nat := 4300.

(** [int(s)] in base 10: surrounding whitespace, a sign, a digit part of at
    most [MAX_STR_DIGITS] digits, leading zeros counted and underscores
    not. *)
Definition pyint (s : text) : outcome Z :=
  let '(neg, body) := take_sign (num_strip s) in
  match digitpart body with
  | Some (ds, []) =>
      if (MAX_STR_DIGITS <? length ds)%nat then Raise ValueError
      else Ok (if neg then - digits_to_Z ds else digits_to_Z ds)
  | _ => Raise ValueError
  end.

(** The float nearest to [m * 10 ^ e] for [m >= 0]; magnitudes far out of
    the binary64 range are settled without computing the power. *)
Definition decimal_to_float (neg : bool) (m e : Z) : spec_float :=
  if m =? 0 then S754_zero neg
  else if (0 <? e) && (1100 <? 3 * e + Z.log2 m) then S754_infinity neg
  else if (e <? 0) && (Z.log2 m + 1 + 3 * e <? - 1100) then S754_zero neg
  else if 0 <=? e then ratio_to_float neg (m * 10 ^ e) 1
  else ratio_to_float neg m (10 ^ (- e)).

(** [number ::= [digitpart] "." digitpart | digitpart ["."]]: the digits
    before and after the point, and the text after. *)
Definition float_number (s : text) : option (text * text * text) :=
  match digitpart s with
  | Some (ip, r) =>
      match r with
      | c :: r' =>
          if char_eqb c "."
          then match digitpart r' with
               | Some (fp, r'') => Some (ip, fp, r'')
               | None => Some (ip, [], r')
               end
          else Some (ip, [], r)
      | [] => Some (ip, [], [])
      end
  | None =>
      match s with
      | c :: r' =>
          if char_eqb c "."
          then match digitpart r' with
               | Some (fp, r'') => Some ([], fp, r'')
               | None => None
               end
          else None
      | [] => None
      end
  end.

(** [exponent ::= ("e" | "E") [sign] digitpart], when present. *)
Definition float_exponent (s : text) : option (Z * text) :=
  match s with
  | [] => Some (0, [])
  | c :: r =>
      if ci_char "e" c
      then let '(neg, r1) := take_sign r in
           match digitpart r1 with
           | Some (ds, r2) => Some (if neg then - digits_to_Z ds else digits_to_Z ds, r2)
           | None => None
           end
      else None
  end.

(** [float(s)]: surrounding whitespace, a sign, then [inf], [infinity],
    [nan] in any case or a decimal number with an optional exponent. *)
Definition pyfloat (s : text) : outcome spec_float :=
  let '(neg, body) := take_sign (num_strip s) in
  let word := lower body in
  if (text_eqb word (T "inf") || text_eqb word (T "infinity"))%bool
  then Ok (S754_infinity neg)
  else if text_eqb word (T "nan") then Ok S754_nan
  else
    match float_number body with
    | Some (ip, fp, r) =>
        match float_exponent r with
        | Some (ex, []) =>
            Ok (decimal_to_float neg (digits_to_Z (ip ++ fp)) (ex - Z.of_nat (length fp)))
        | _ => Raise ValueError
        end
    | None => Raise ValueError
    end.

(** ** The scalar parsers *)

(** [try: ... except ValueError: return None] *)
Definition catch_value_error {A : Type} (c : outcome A) : outcome (option A) :=
  match c with
  | Ok a => Ok (Some a)
  | Raise ValueError => Ok None
  | Raise e => Raise e
  end.

Definition parse_number (value : text) : outcome (option pynum) :=
  let value := replace (T ",") [] (strip value) in
  match value with
  | [] => Ok None
  | _ =>
      catch_value_error
        (if contains (T ".") value
         then let* f := pyfloat value in Ok (NFloat f)
         else let* z := pyint value in Ok (NInt z))
  end.

(** [^([\d.]+)\s*([KMGT]?i?B)$] with [re.I] *)
Definition size_re : list regex :=
  [ RBol; RGroup [RPlus dec_char]; RStar is_space;
    RGroup [ROpt [RSet (ci_char "KMGT")]; ROpt [RSet (ci_char "i")]; RSet (ci_char "B")];
    REol ].

Definition factor_map : gmap text Z :=
  list_to_map
    [ (T "B", 1); (T "KIB", 1024); (T "MIB", 1024 ^ 2); (T "GIB", 1024 ^ 3);
      (T "KB", 1000); (T "MB", 1000 ^ 2); (T "GB", 1000 ^ 3) ].

Definition parse_size_to_bytes (value : text) : outcome (option spec_float) :=
  let clean := replace (T ",") [] (strip value) in
  match re_match size_re clean with
  | None => Ok None
  | Some (cs, _) =>
      let* amount := pyfloat (group 1 cs) in
      let unit := upper (group 2 cs) in
      match factor_map !! unit with
      | None => Ok None
      | Some factor => Ok (Some (float_mul amount (int_to_float factor)))
      end
  end.

Definition parse_int (value : text) : outcome Z :=
  pyint (strip (replace (T ",") [] value)).

Definition parse_float (value : text) : outcome spec_float :=
  pyfloat (strip (replace (T ",") [] value)).

(** One scalar field: the first group of the leftmost match converted by
    [conv], or [None] when the pattern does not occur. *)
Definition scalar_field {A : Type} (pattern : list regex) (conv : text -> outcome A)
  (txt : text) : outcome (option A) :=
  match re_search pattern txt with
  | Some cs => let* v := conv (group 1 cs) in Ok (Some v)
  | None => Ok None
  end.

(** [<label>\s*:\s*(<class>+)] *)
Definition labelled (label : string) (cls : ascii -> bool) : list regex :=
  [RLit (T label); RStar is_space; RLit (T ":"); RStar is_space; RGroup [RPlus cls]].

(** [<label>:\s*(<class>+)] *)
Definition labelled_tight (label : string) (cls : ascii -> bool) : list regex :=
  [RLit (T (label ++ ":")); RStar is_space; RGroup [RPlus cls]].

(** [Shape:\s*([\d,]+)\s*rows.*?([\d,]+)\s*columns] with [re.S] *)
Definition shape_re : list regex :=
  [ RLit (T "Shape:"); RStar is_space; RGroup [RPlus int_char]; RStar is_space;
    RLit (T "rows"); RStarLazy any_char; RGroup [RPlus int_char]; RStar is_space;
    RLit (T "columns") ].

Definition parse_shape (txt : text) : outcome (option Z * option Z) :=
  match re_search shape_re txt with
  | None => Ok (None, None)
  | Some cs =>
      let* rows := parse_int (group 1 cs) in
      let* cols := parse_int (group 2 cs) in
      Ok (Some rows, Some cols)
  end.

(** [Numerical features \((\d+)\)] and [Categorical features \((\d+)\)] *)
Definition feature_count_re (kind : string) : list regex :=
  [RLit (T (kind ++ " features (")); RGroup [RPlus is_digit]; RLit (T ")")].

Definition parse_feature_counts (txt : text) : outcome (option Z * option Z) :=
  let* numeric := scalar_field (feature_count_re "Numerical") pyint txt in
  let* categorical := scalar_field (feature_count_re "Categorical") pyint txt in
  Ok (numeric, categorical).

Record target_stats : Type := {
  mean_saleprice : option spec_float;
  median_saleprice : option spec_float;
  saleprice_skew : option spec_float;
  saleprice_kurtosis : option spec_float
}.

Definition parse_target_stats (txt : text) : outcome target_stats :=
  let* mean := scalar_field (labelled "Mean" num_char) parse_float txt in
  let* median := scalar_field (labelled "Median" num_char) parse_float txt in
  let* skew := scalar_field (labelled "Skewness" num_char) parse_float txt in
  let* kurt := scalar_field (labelled "Kurtosis" num_char) parse_float txt in
  Ok {| mean_saleprice := mean; median_saleprice := median;
        saleprice_skew := skew; saleprice_kurtosis := kurt |}.

Record iqr_bounds : Type := {
  q1 : option spec_float;
  q3 : option spec_float;
  iqr_value : option spec_float;
  iqr_lower_bound : option spec_float;
  iqr_upper_bound : option spec_float
}.

Definition parse_iqr_bounds (txt : text) : outcome iqr_bounds :=
  let* a := scalar_field (labelled "Q1" num_char) parse_float txt in
  let* b := scalar_field (labelled "Q3" num_char) parse_float txt in
  let* c := scalar_field (labelled "IQR" num_char) parse_float txt in
  let* d := scalar_field (labelled_tight "Lower bound" num_char) parse_float txt in
  let* e := scalar_field (labelled_tight "Upper bound" num_char) parse_float txt in
  Ok {| q1 := a; q3 := b; iqr_value := c; iqr_lower_bound := d; iqr_upper_bound := e |}.

Record iqr_row_counts : Type := {
  rows_before_iqr : option Z;
  rows_after_iqr : option Z;
  rows_removed_iqr : option Z;
  rows_removed_pct_iqr : option spec_float
}.

Definition parse_iqr_row_counts (txt : text) : outcome iqr_row_counts :=
  let* a := scalar_field (labelled "Rows before IQR filtering" int_char) parse_int txt in
  let* b := scalar_field (labelled "Rows after IQR filtering" int_char) parse_int txt in
  let* c := scalar_field (labelled "Rows removed as outliers" int_char) parse_int txt in
  let* d := scalar_field (labelled_tight "% removed" dec_char) parse_float txt in
  Ok {| rows_before_iqr := a; rows_after_iqr := b; rows_removed_iqr := c;
        rows_removed_pct_iqr := d |}.

(** ** The table parsers *)

Definition not_newline (c : ascii) : bool := negb (N.eqb (code c) 10).   (* [.] *)

Record corr_row : Type := {
  corr_feature : text;
  correlation : spec_float
}.

(** [^(.+?)\s+(-?\d+(?:\.\d+)?)$] *)
Definition correlation_re : list regex :=
  [ RBol; RGroup [RPlusLazy not_newline]; RPlus is_space;
    RGroup [ROpt [RLit (T "-")]; RPlus is_digit; ROpt [RLit (T "."); RPlus is_digit]];
    REol ].

Definition correlation_line (rows : list corr_row) (raw : text) : outcome (list corr_row) :=
  let line := rstrip raw in
  match line with
  | [] => Ok rows
  | _ =>
      if contains (T "Correlation with SalePrice") line then Ok rows
      else
        match re_match correlation_re (strip line) with
        | Some (cs, _) =>
            let* c := parse_float (group 2 cs) in
            Ok (rows ++ [{| corr_feature := strip (group 1 cs); correlation := c |}])
        | None => Ok rows
        end
  end.

Definition parse_correlation_table (txt : text) : outcome (list corr_row) :=
  for_each correlation_line (splitlines txt) [].

Record neighborhood_row : Type := {
  neighborhood : text;
  nb_mean_saleprice : spec_float;
  nb_median_saleprice : spec_float;
  nb_count : Z
}.

(** [^(\S+)\s+([\d,]+\.\d+)\s+([\d,]+\.\d+)\s+(\d+)$] *)
Definition neighborhood_re : list regex :=
  [ RBol; RGroup [RPlus not_space]; RPlus is_space;
    RGroup [RPlus int_char; RLit (T "."); RPlus is_digit]; RPlus is_space;
    RGroup [RPlus int_char; RLit (T "."); RPlus is_digit]; RPlus is_space;
    RGroup [RPlus is_digit]; REol ].

Definition neighborhood_line (rows : list neighborhood_row) (raw : text)
  : outcome (list neighborhood_row) :=
  let line := strip raw in
  match line with
  | [] => Ok rows
  | _ =>
      if (starts_with (T "mean") line || starts_with (T "Neighborhood") line)%bool
      then Ok rows
      else
        match re_match neighborhood_re line with
        | Some (cs, _) =>
            let* mean := parse_float (group 2 cs) in
            let* median := parse_float (group 3 cs) in
            let* n := pyint (group 4 cs) in
            Ok (rows ++ [{| neighborhood := group 1 cs; nb_mean_saleprice := mean;
                            nb_median_saleprice := median; nb_count := n |}])
        | None => Ok rows
        end
  end.

Definition parse_neighborhood_table (txt : text) : outcome (list neighborhood_row) :=
  for_each neighborhood_line (splitlines txt) [].

Record missing_row : Type := {
  missing_feature : text;
  missing_count : Z;
  missing_pct : option spec_float
}.

(** [^([A-Za-z0-9_]+)\s+(\d+)$] *)
Definition missing_re : list regex :=
  [RBol; RGroup [RPlus word_char]; RPlus is_space; RGroup [RPlus is_digit]; REol].

(** [if rows_after_iqr and rows_after_iqr > 0] *)
Definition usable_denominator (rows_after : option Z) : option Z :=
  match rows_after with
  | Some n => if (negb (n =? 0) && (0 <? n))%bool then Some n else None
  | None => None
  end.

Definition missing_line (rows_after : option Z) (rows : list missing_row) (raw : text)
  : outcome (list missing_row) :=
  let line := strip raw in
  match line with
  | [] => Ok rows
  | _ =>
      if starts_with (T "dtype:") line then Ok rows
      else
        match re_match missing_re line with
        | Some (cs, _) =>
            let* count := pyint (group 2 cs) in
            let* pct :=
              match usable_denominator rows_after with
              | Some n =>
                  let* ratio := int_truediv count n in
                  Ok (Some (float_round2 (float_mul ratio (int_to_float 100))))
              | None => Ok None
              end in
            Ok (rows ++ [{| missing_feature := group 1 cs; missing_count := count;
                            missing_pct := pct |}])
        | None => Ok rows
        end
  end.

Definition parse_missing_table (txt : text) (rows_after : option Z)
  : outcome (list missing_row) :=
  for_each (missing_line rows_after) (splitlines txt) [].

(** ** The notebook document

    The part of an executed notebook the program reads: the ordered cells,
    each with its outputs; an output has an optional type, an optional
    stream text and an optional bundle of representations by MIME type.  A
    text payload is a string or a list of strings, the two forms [as_text]
    tells apart. *)

Abbreviation bytes := (list Byte.byte).

Inductive payload : Type :=
| PStr (s : text)
| PLines (items : list text).

Record output : Type := {
  output_type : option text;
  stream_text : option payload;
  data : option (gmap text payload)
}.

Record cell : Type := { outputs : list output }.

Record notebook : Type := { cells : list cell }.

Definition NON_ASCII (c : ascii) : bool := N.leb 128 (code c).

Definition normalize_text (s : text) : text :=
  List.filter (fun c => negb (NON_ASCII c)) s.

Definition as_text (value : payload) : text :=
  match value with
  | PLines items => concat items
  | PStr s => s
  end.

(** [nb["cells"][index]] for an index that is not negative. *)
Definition get_cell (nb : notebook) (index : nat) : outcome cell :=
  match cells nb !! index with
  | Some c => Ok c
  | None => Raise IndexError
  end.

Definition get_stream_text (c : cell) : text :=
  normalize_text
    (concat
       (omap (fun o =>
                if bool_decide (output_type o = Some (T "stream"))
                then Some (as_text (default (PStr []) (stream_text o)))
                else None)
             (outputs c))).

(** The first output whose bundle has the given MIME type. *)
Fixpoint first_payload (mime : text) (outs : list output) : option payload :=
  match outs with
  | [] => None
  | o :: outs' =>
      match data o with
      | Some d =>
          match d !! mime with
          | Some p => Some p
          | None => first_payload mime outs'
          end
      | None => first_payload mime outs'
      end
  end.

Definition get_first_text_plain (c : cell) : text :=
  match first_payload (T "text/plain") (outputs c) with
  | Some p => normalize_text (as_text p)
  | None => []
  end.

(** *** Base64 *)

Definition b64_value (c : ascii) : option N :=
  let n := code c in
  if is_upper_az c then Some (n - 65)%N
  else if is_lower_az c then Some (n - 97 + 26)%N
  else if is_digit c then Some (n - 48 + 52)%N
  else if N.eqb n 43 then Some 62%N
  else if N.eqb n 47 then Some 63%N
  else None.

Definition byte_of_N (n : N) : Byte.byte :=
  default Byte.x00 (Byte.of_N (n mod 256)).

(** [binascii.a2b_base64] in its default mode: characters outside the
    alphabet are passed over, a pad sequence that completes a quad ends the
    data, and data that stops inside a quad is an error. *)
Fixpoint a2b_base64 (s : text) (quad_pos : nat) (leftchar : N) (pads : nat)
  (out : bytes) : outcome bytes :=
  match s with
  | [] => match quad_pos with O => Ok out | _ => Raise BinasciiError end
  | c :: s' =>
      if N.eqb (code c) 61
      then
        if (2 <=? quad_pos)%nat
        then if (4 <=? quad_pos + S pads)%nat then Ok out
             else a2b_base64 s' quad_pos leftchar (S pads) out
        else a2b_base64 s' quad_pos leftchar pads out
      else
        match b64_value c with
        | None => a2b_base64 s' quad_pos leftchar pads out
        | Some v =>
            match quad_pos with
            | 0%nat => a2b_base64 s' 1 v 0 out
            | 1%nat =>
                a2b_base64 s' 2 (N.land v 15) 0
                  (out ++ [byte_of_N (N.lor (N.shiftl leftchar 2) (N.shiftr v 4))])
            | 2%nat =>
                a2b_base64 s' 3 (N.land v 3) 0
                  (out ++ [byte_of_N (N.lor (N.shiftl leftchar 4) (N.shiftr v 2))])
            | _ =>
                a2b_base64 s' 0 0 0
                  (out ++ [byte_of_N (N.lor (N.shiftl leftchar 6) v)])
            end
        end
  end.

(** [base64.b64decode(s)] on a string: only ASCII is accepted. *)
Definition b64decode (s : text) : outcome bytes :=
  if existsb NON_ASCII s then Raise ValueError
  else a2b_base64 s 0 0 0 [].

Definition extract_png_from_cell (c : cell) : outcome (option bytes) :=
  match first_payload (T "image/png") (outputs c) with
  | Some p =>
      let encoded := replace [chr 10] [] (as_text p) in
      let* image := b64decode encoded in
      Ok (Some image)
  | None => Ok None
  end.

(** ** Library functions taken as an interface

    The program calls four library functions whose full behaviour is a
    large table or algorithm of its own: [float.__repr__] (through
    [json.dumps]), [html.unescape], [ast.literal_eval] with the iteration
    and [str] of the value it returns.  The pipeline is written over this
    interface.

    The value of a literal may be a set.  The order in which a set of
    strings comes out on iteration, and with it the [str] of a value that
    holds one, follows the hashes of the strings, which every process
    seeds anew when it starts (unless [PYTHONHASHSEED] fixes the seed).
    [hash_seed] is the seed of a process: iteration and [str] take it as
    an argument, and so does every function of the program that reaches
    them. *)

Class PyLib : Type := {
  float_repr : spec_float -> text;
  html_unescape : text -> text;
  pyval : Type;
  hash_seed : Type;
  literal_eval : text -> outcome pyval;
  py_iter : hash_seed -> pyval -> outcome (list pyval);
  py_str : hash_seed -> pyval -> text
}.

(** [except (ValueError, SyntaxError)] around [ast.literal_eval]. *)
Definition parse_driver_list `{PyLib} (seed : hash_seed) (txt : text) : outcome (list text) :=
  let stripped := strip txt in
  match stripped with
  | [] => Ok []
  | _ =>
      match literal_eval stripped with
      | Raise ValueError => Ok []
      | Raise SyntaxError => Ok []
      | Raise e => Raise e
      | Ok parsed =>
          let* items := py_iter seed parsed in
          Ok (map (py_str seed) items)
      end
  end.

(** ** Driver details *)

Record driver_detail : Type := {
  driver_feature : text;
  driver_correlation : option spec_float
}.

(** [{row["feature"]: row["correlation"] for row in top_correlations}] *)
Definition corr_by_feature (top_correlations : list corr_row) : gmap text spec_float :=
  fold_left (fun m row => <[corr_feature row := correlation row]> m) top_correlations ∅.

Definition top_driver_details (top_drivers : list text) (top_correlations : list corr_row)
  : list driver_detail :=
  let by_feature := corr_by_feature top_correlations in
  fold_left
    (fun details feature =>
       details ++ [{| driver_feature := feature;
                      driver_correlation := by_feature !! feature |}])
    top_drivers [].

(** ** The aggregated record and its serialization *)

Inductive json : Type :=
| JNull
| JBool (b : bool)
| JInt (z : Z)
| JFloat (f : spec_float)
| JStr (s : text)
| JList (items : list json)
| JDict (entries : list (text * json)).

(** [d[key] = value] on an insertion-ordered dict: an existing key keeps its
    place. *)
Fixpoint dict_set {V : Type} (d : list (text * V)) (key : text) (value : V)
  : list (text * V) :=
  match d with
  | [] => [(key, value)]
  | (k, v) :: d' =>
      if text_eqb k key then (k, value) :: d' else (k, v) :: dict_set d' key value
  end.

Definition opt_json {A : Type} (f : A -> json) (o : option A) : json :=
  match o with Some a => f a | None => JNull end.

Definition num_json (n : pynum) : json :=
  match n with NInt z => JInt z | NFloat f => JFloat f end.

Definition hex_digit (n : N) : ascii :=
  if N.ltb n 10 then chr (48 + n) else chr (87 + n).

(** One character of a JSON string under [ensure_ascii]. *)
Definition json_escape_char (c : ascii) : text :=
  let n := code c in
  if N.eqb n 34 then T "\" ++ [c]
  else if N.eqb n 92 then T "\\"
  else if N.eqb n 10 then T "\n"
  else if N.eqb n 13 then T "\r"
  else if N.eqb n 9 then T "\t"
  else if N.eqb n 8 then T "\b"
  else if N.eqb n 12 then T "\f"
  else if (N.leb 32 n && N.leb n 126)%bool then [c]
  else T "\u00" ++ [hex_digit (N.div n 16); hex_digit (N.modulo n 16)].

Definition dq : text := [chr 34].

Definition json_string (s : text) : text :=
  dq ++ concat (map json_escape_char s) ++ dq.

Definition int_repr (z : Z) : text := T (NilZero.string_of_int (Z.to_int z)).

Definition json_float `{PyLib} (f : spec_float) : text :=
  match f with
  | S754_nan => T "NaN"
  | S754_infinity false => T "Infinity"
  | S754_infinity true => T "-Infinity"
  | _ => float_repr f
  end.

(** A line break followed by the indentation of a nesting level. *)
Definition newline_indent (level : nat) : text :=
  chr 10 :: repeat (chr 32) (2 * level).

(** [json.dumps(value, indent=2)] at a nesting level. *)
Fixpoint json_encode `{PyLib} (level : nat) (value : json) {struct value} : text :=
  match value with
  | JNull => T "null"
  | JBool true => T "true"
  | JBool false => T "false"
  | JInt z => int_repr z
  | JFloat f => json_float f
  | JStr s => json_string s
  | JList items =>
      match items with
      | [] => T "[]"
      | _ =>
          T "[" ++ newline_indent (S level)
          ++ str_join (T "," ++ newline_indent (S level))
               (map (json_encode (S level)) items)
          ++ newline_indent level ++ T "]"
      end
  | JDict entries =>
      match entries with
      | [] => T "{}"
      | _ =>
          T "{" ++ newline_indent (S level)
          ++ str_join (T "," ++ newline_indent (S level))
               (map (fun kv => let '(k, v) := kv in
                               json_string k ++ T ": " ++ json_encode (S level) v)
                    entries)
          ++ newline_indent level ++ T "}"
      end
  end.

Definition json_dumps `{PyLib} (value : json) : text := json_encode 0 value.

(** ** The profile report *)

(** [<[^>]+>] *)
Definition tag_re : list regex :=
  [RLit (T "<"); RPlus (not_char ">"); RLit (T ">")].

Definition strip_tags `{PyLib} (txt : text) : text :=
  let txt := re_delete tag_re txt in
  let txt := html_unescape txt in
  let txt := replace [chr 160] (T " ") txt in
  str_join (T " ") (split_ws txt).

(** [<tr><th>(.*?)<td[^>]*>(.*?)(?=<tr>|$)] with [re.S] *)
Definition table_row_re : list regex :=
  [ RLit (T "<tr><th>"); RGroup [RStarLazy any_char]; RLit (T "<td");
    RStar (not_char ">"); RLit (T ">"); RGroup [RStarLazy any_char];
    RLookahead [[RLit (T "<tr>")]; [REol]] ].

Definition parse_table_rows_from_block `{PyLib} (block : text) : gmap text text :=
  fold_left
    (fun rows cs =>
       let key :=
         replace (T "(%)") (T "pct")
           (replace (T " ") (T "_") (lower (strip_tags (group 1 cs)))) in
       <[key := strip_tags (group 2 cs)]> rows)
    (re_findall table_row_re block) ∅.

Record alert : Type := {
  alert_feature : text;
  alert_message : text;
  alert_type : text
}.

(** [<tr><td><a href=#pp_var_[^>]+><code>(.*?)</code></a>\s*(.*?)<td><span class=Qbadge [^Q]+Q>(.*?)</span>]
    with [re.S], where Q stands for the double quote character. *)
Definition alert_row_re : list regex :=
  [ RLit (T "<tr><td><a href=#pp_var_"); RPlus (not_char ">"); RLit (T "><code>");
    RGroup [RStarLazy any_char]; RLit (T "</code></a>"); RStar is_space;
    RGroup [RStarLazy any_char]; RLit (T "<td><span class=" ++ dq ++ T "badge ");
    RPlus (fun c => negb (char_eqb c (chr 34))); RLit (dq ++ T ">");
    RGroup [RStarLazy any_char]; RLit (T "</span>") ].

Definition parse_alert_rows `{PyLib} (alert_block : text) : list alert :=
  map (fun cs => {| alert_feature := strip_tags (group 1 cs);
                    alert_message := strip_tags (group 2 cs);
                    alert_type := strip_tags (group 3 cs) |})
      (re_findall alert_row_re alert_block).

Record missing_alert : Type := {
  ma_feature : text;
  ma_missing_count : Z;
  ma_missing_pct : spec_float;
  ma_message : text
}.

Record zero_alert : Type := {
  za_feature : text;
  za_zero_count : Z;
  za_zero_pct : spec_float;
  za_message : text
}.

Record imbalance_alert : Type := {
  ia_feature : text;
  ia_dominant_pct : spec_float;
  ia_message : text
}.

(** [has\s+([\d,]+)\s+\(([\d\.]+)%\)\s+<what>] *)
Definition count_pct_re (what : string) : list regex :=
  [ RLit (T "has"); RPlus is_space; RGroup [RPlus int_char]; RPlus is_space;
    RLit (T "("); RGroup [RPlus dec_char]; RLit (T "%)"); RPlus is_space;
    RLit (T what) ].

(** [\(([\d\.]+)%\)] *)
Definition pct_re : list regex :=
  [RLit (T "("); RGroup [RPlus dec_char]; RLit (T "%)")].

Definition parse_missing_alert (a : alert) : outcome (option missing_alert) :=
  if negb (text_eqb (alert_type a) (T "Missing")) then Ok None
  else
    match re_search (count_pct_re "missing values") (alert_message a) with
    | None => Ok None
    | Some cs =>
        let* n := parse_int (group 1 cs) in
        let* p := parse_float (group 2 cs) in
        Ok (Some {| ma_feature := alert_feature a; ma_missing_count := n;
                    ma_missing_pct := p; ma_message := alert_message a |})
    end.

Definition parse_zero_alert (a : alert) : outcome (option zero_alert) :=
  if negb (text_eqb (alert_type a) (T "Zeros")) then Ok None
  else
    match re_search (count_pct_re "zeros") (alert_message a) with
    | None => Ok None
    | Some cs =>
        let* n := parse_int (group 1 cs) in
        let* p := parse_float (group 2 cs) in
        Ok (Some {| za_feature := alert_feature a; za_zero_count := n;
                    za_zero_pct := p; za_message := alert_message a |})
    end.

Definition parse_imbalance_alert (a : alert) : outcome (option imbalance_alert) :=
  if negb (text_eqb (alert_type a) (T "Imbalance")) then Ok None
  else
    match re_search pct_re (alert_message a) with
    | None => Ok None
    | Some cs =>
        let* p := parse_float (group 1 cs) in
        Ok (Some {| ia_feature := alert_feature a; ia_dominant_pct := p;
                    ia_message := alert_message a |})
    end.

(** [[row for row in (parse(a) for a in alert_rows) if row]] *)
Definition collect_alerts {R : Type} (parse : alert -> outcome (option R))
  (alert_rows : list alert) : outcome (list R) :=
  for_each
    (fun rows a =>
       let* r := parse a in
       Ok (match r with Some row => rows ++ [row] | None => rows end))
    alert_rows [].

(** [rows.sort(key=..., reverse=True)]: the stable descending order.  On
    keys without NaN every stable sort returns this list; a row is placed
    after the rows with a strictly greater key and before the others. *)
Fixpoint insert_desc {R : Type} (key : R -> spec_float) (x : R) (l : list R) : list R :=
  match l with
  | [] => [x]
  | y :: l' =>
      if float_ltb (key x) (key y) then y :: insert_desc key x l' else x :: y :: l'
  end.

Definition sort_desc {R : Type} (key : R -> spec_float) (l : list R) : list R :=
  fold_right (insert_desc key) [] l.

Definition TOP_ALERTS : nat := 15.

(** The rows of one category, sorted; the report keeps the slice [[:15]]. *)
Definition ranked_alerts {R : Type} (parse : alert -> outcome (option R))
  (key : R -> spec_float) (alert_rows : list alert) : outcome (list R) :=
  let* rows := collect_alerts parse alert_rows in
  Ok (sort_desc key rows).

Definition top_missing_alerts (alert_rows : list alert) : outcome (list missing_alert) :=
  let* sorted := ranked_alerts parse_missing_alert ma_missing_pct alert_rows in
  Ok (firstn TOP_ALERTS sorted).

Definition top_zero_alerts (alert_rows : list alert) : outcome (list zero_alert) :=
  let* sorted := ranked_alerts parse_zero_alert za_zero_pct alert_rows in
  Ok (firstn TOP_ALERTS sorted).

Definition top_imbalance_alerts (alert_rows : list alert) : outcome (list imbalance_alert) :=
  let* sorted := ranked_alerts parse_imbalance_alert ia_dominant_pct alert_rows in
  Ok (firstn TOP_ALERTS sorted).

Definition not_dq (c : ascii) : bool := negb (char_eqb c (chr 34)).

(** [<meta content=Q([^Q]+)Q name=date>], Q the double quote character. *)
Definition meta_date_re : list regex :=
  [RLit (T "<meta content=" ++ dq); RGroup [RPlus not_dq]; RLit (dq ++ T " name=date>")].

(** [<heading><table class=Qtable table-stripedQ><tbody>(.*?)</table>]
    with [re.S] *)
Definition table_block_re (heading : string) : list regex :=
  [ RLit (T heading ++ T "<table class=" ++ dq ++ T "table table-striped" ++ dq
          ++ T "><tbody>");
    RGroup [RStarLazy any_char]; RLit (T "</table>") ].

(** [Alerts <span class=Qbadge text-bg-secondary align-text-topQ>(\d+)</span>] *)
Definition alert_count_re : list regex :=
  [ RLit (T "Alerts <span class=" ++ dq ++ T "badge text-bg-secondary align-text-top"
          ++ dq ++ T ">");
    RGroup [RPlus is_digit]; RLit (T "</span>") ].

(** [<p class=Qh4 item-headerQ>Alerts</p>(.*?)</table></div></div></div><div class=Qtab-pane fadeQ aria-labelledby=tab-pane-overview-reproduction]
    with [re.S] *)
Definition alert_table_re : list regex :=
  [ RLit (T "<p class=" ++ dq ++ T "h4 item-header" ++ dq ++ T ">Alerts</p>");
    RGroup [RStarLazy any_char];
    RLit (T "</table></div></div></div><div class=" ++ dq ++ T "tab-pane fade" ++ dq
          ++ T " aria-labelledby=tab-pane-overview-reproduction") ].

(** [Counter(...)] turned into a dict: the counts in order of first
    occurrence. *)
Fixpoint counter_add (d : list (text * Z)) (key : text) : list (text * Z) :=
  match d with
  | [] => [(key, 1)]
  | (k, n) :: d' =>
      if text_eqb k key then (k, n + 1) :: d' else (k, n) :: counter_add d' key
  end.

Definition alert_json (a : alert) : json :=
  JDict [ (T "feature", JStr (alert_feature a));
          (T "message", JStr (alert_message a));
          (T "type", JStr (alert_type a)) ].

Definition missing_alert_json (r : missing_alert) : json :=
  JDict [ (T "feature", JStr (ma_feature r));
          (T "missing_count", JInt (ma_missing_count r));
          (T "missing_pct", JFloat (ma_missing_pct r));
          (T "message", JStr (ma_message r)) ].

Definition zero_alert_json (r : zero_alert) : json :=
  JDict [ (T "feature", JStr (za_feature r));
          (T "zero_count", JInt (za_zero_count r));
          (T "zero_pct", JFloat (za_zero_pct r));
          (T "message", JStr (za_message r)) ].

Definition imbalance_alert_json (r : imbalance_alert) : json :=
  JDict [ (T "feature", JStr (ia_feature r));
          (T "dominant_pct", JFloat (ia_dominant_pct r));
          (T "message", JStr (ia_message r)) ].

Record profile_report : Type := {
  source_file : text;
  report : json
}.

(** [d.get(key, "")], the default being the empty string. *)
Definition get_or_empty (d : gmap text text) (key : string) : text :=
  default [] (d !! T key).

Definition parse_profile_report `{PyLib} (name : text) (html : text)
  : outcome profile_report :=
  let report_date := option_map (group 1) (re_search meta_date_re html) in
  let stats_raw :=
    match re_search (table_block_re "Dataset statistics") html with
    | Some cs => parse_table_rows_from_block (group 1 cs)
    | None => ∅
    end in
  let var_types_raw :=
    match re_search (table_block_re "Variable types") html with
    | Some cs => parse_table_rows_from_block (group 1 cs)
    | None => ∅
    end in
  let* alert_count :=
    match re_search alert_count_re html with
    | Some cs => pyint (group 1 cs)
    | None => Ok 0
    end in
  let alert_rows :=
    match re_search alert_table_re html with
    | Some cs => parse_alert_rows (group 1 cs)
    | None => []
    end in
  let alert_type_counts := fold_left counter_add (map alert_type alert_rows) [] in
  let* top_missing := top_missing_alerts alert_rows in
  let* top_zero := top_zero_alerts alert_rows in
  let* top_imbalance := top_imbalance_alerts alert_rows in
  let* n_variables := parse_number (get_or_empty stats_raw "number_of_variables") in
  let* n_observations := parse_number (get_or_empty stats_raw "number_of_observations") in
  let* missing_cells := parse_number (get_or_empty stats_raw "missing_cells") in
  let* missing_cells_pct :=
    parse_number (replace (T "%") [] (get_or_empty stats_raw "missing_cells_pct")) in
  let* total_bytes := parse_size_to_bytes (get_or_empty stats_raw "total_size_in_memory") in
  let* record_bytes :=
    parse_size_to_bytes (get_or_empty stats_raw "average_record_size_in_memory") in
  let* numeric := parse_number (get_or_empty var_types_raw "numeric") in
  let* categorical := parse_number (get_or_empty var_types_raw "categorical") in
  let* boolean := parse_number (get_or_empty var_types_raw "boolean") in
  Ok {| source_file := name;
        report :=
          JDict
            [ (T "meta",
               JDict [ (T "source_file", JStr name);
                       (T "report_generated_at", opt_json JStr report_date) ]);
              (T "dataset_statistics",
               JDict
                 [ (T "number_of_variables", opt_json num_json n_variables);
                   (T "number_of_observations", opt_json num_json n_observations);
                   (T "missing_cells", opt_json num_json missing_cells);
                   (T "missing_cells_pct", opt_json num_json missing_cells_pct);
                   (T "total_memory_size_text",
                    opt_json JStr (stats_raw !! T "total_size_in_memory"));
                   (T "total_memory_size_bytes", opt_json JFloat total_bytes);
                   (T "average_record_size_text",
                    opt_json JStr (stats_raw !! T "average_record_size_in_memory"));
                   (T "average_record_size_bytes", opt_json JFloat record_bytes) ]);
              (T "variable_types",
               JDict [ (T "numeric", opt_json num_json numeric);
                       (T "categorical", opt_json num_json categorical);
                       (T "boolean", opt_json num_json boolean) ]);
              (T "alert_count", JInt alert_count);
              (T "alert_type_counts",
               JDict (map (fun kv => (fst kv, JInt (snd kv))) alert_type_counts));
              (T "top_missing_alerts", JList (map missing_alert_json top_missing));
              (T "top_zero_alerts", JList (map zero_alert_json top_zero));
              (T "top_imbalance_alerts", JList (map imbalance_alert_json top_imbalance));
              (T "alerts", JList (map alert_json alert_rows)) ] |}.

(** ** The aggregator *)

Definition NOTEBOOK_NAME : text := T "House-Price.ipynb".

Definition corr_row_json (r : corr_row) : json :=
  JDict [ (T "feature", JStr (corr_feature r));
          (T "correlation", JFloat (correlation r)) ].

Definition driver_detail_json (d : driver_detail) : json :=
  JDict [ (T "feature", JStr (driver_feature d));
          (T "correlation", opt_json JFloat (driver_correlation d)) ].

Definition neighborhood_row_json (r : neighborhood_row) : json :=
  JDict [ (T "neighborhood", JStr (neighborhood r));
          (T "mean_saleprice", JFloat (nb_mean_saleprice r));
          (T "median_saleprice", JFloat (nb_median_saleprice r));
          (T "count", JInt (nb_count r)) ].

Definition missing_row_json (r : missing_row) : json :=
  JDict [ (T "feature", JStr (missing_feature r));
          (T "missing_count", JInt (missing_count r));
          (T "missing_pct", opt_json JFloat (missing_pct r)) ].

Definition managerial_summary : json :=
  JDict
    [ (T "top_drivers_plain_english",
       JList
         [ JStr (T "Quality, living area, and utility space are the strongest value levers.");
           JStr (T "Log transform stabilizes SalePrice distribution for modeling.");
           JStr (T "Neighborhood premium effects are strong and interpretable.") ]);
      (T "risks",
       JList
         [ JStr (T "High missing-rate fields often indicate absence of amenity, not random missingness.");
           JStr (T "Rare category segments can overfit if not regularized.");
           JStr (T "Untrimmed outliers can skew linear relationships.") ]);
      (T "next_steps",
       JList
         [ JStr (T "Engineer total space and age-based features.");
           JStr (T "Encode none/absence categories explicitly for categorical fields.");
           JStr (T "Benchmark regularized linear models, then compare with tree ensembles.") ]) ].

(** [seed] is the hash seed of the process; [now] is the reading of the
    clock, [datetime.now(timezone.utc).isoformat()]. *)
Definition build_metrics `{PyLib} (nb : notebook) (chart_files : list (text * text))
  (profile : option profile_report) (seed : hash_seed) (now : text) : outcome json :=
  let* c7 := get_cell nb 7 in
  let shape_text := get_stream_text c7 in
  let* c11 := get_cell nb 11 in
  let feature_count_text := get_stream_text c11 in
  let* c13 := get_cell nb 13 in
  let target_text := get_stream_text c13 in
  let* c21 := get_cell nb 21 in
  let iqr_bounds_text := get_stream_text c21 in
  let* c23 := get_cell nb 23 in
  let iqr_rows_text := get_stream_text c23 in
  let* c33 := get_cell nb 33 in
  let top_corr_text := get_first_text_plain c33 in
  let* c35 := get_cell nb 35 in
  let top_driver_text := get_first_text_plain c35 in
  let* c46 := get_cell nb 46 in
  let top_neigh_text := get_first_text_plain c46 in
  let* c47 := get_cell nb 47 in
  let top_neigh_single_text := get_first_text_plain c47 in
  let* c27 := get_cell nb 27 in
  let missing_text := get_first_text_plain c27 in
  let* shape := parse_shape shape_text in
  let* counts := parse_feature_counts feature_count_text in
  let* target := parse_target_stats target_text in
  let* bounds := parse_iqr_bounds iqr_bounds_text in
  let* iqr_rows := parse_iqr_row_counts iqr_rows_text in
  let* top_correlations := parse_correlation_table top_corr_text in
  let* top_drivers := parse_driver_list seed top_driver_text in
  let* top_neighborhoods := parse_neighborhood_table top_neigh_text in
  let* top_neighborhood_single := parse_neighborhood_table top_neigh_single_text in
  let* missing_features := parse_missing_table missing_text (rows_after_iqr iqr_rows) in
  let details := top_driver_details top_drivers top_correlations in
  let top_neighborhood := head top_neighborhood_single in
  let summary :=
    JDict
      [ (T "total_rows", opt_json JInt (fst shape));
        (T "total_columns", opt_json JInt (snd shape));
        (T "numeric_features", opt_json JInt (fst counts));
        (T "categorical_features", opt_json JInt (snd counts));
        (T "mean_saleprice", opt_json JFloat (mean_saleprice target));
        (T "median_saleprice", opt_json JFloat (median_saleprice target));
        (T "saleprice_skew", opt_json JFloat (saleprice_skew target));
        (T "saleprice_kurtosis", opt_json JFloat (saleprice_kurtosis target));
        (T "q1", opt_json JFloat (q1 bounds));
        (T "q3", opt_json JFloat (q3 bounds));
        (T "iqr_value", opt_json JFloat (iqr_value bounds));
        (T "iqr_lower_bound", opt_json JFloat (iqr_lower_bound bounds));
        (T "iqr_upper_bound", opt_json JFloat (iqr_upper_bound bounds));
        (T "rows_before_iqr", opt_json JInt (rows_before_iqr iqr_rows));
        (T "rows_after_iqr", opt_json JInt (rows_after_iqr iqr_rows));
        (T "rows_removed_iqr", opt_json JInt (rows_removed_iqr iqr_rows));
        (T "rows_removed_pct_iqr", opt_json JFloat (rows_removed_pct_iqr iqr_rows)) ] in
  Ok (JDict
        [ (T "meta",
           JDict
             [ (T "generated_at_utc", JStr now);
               (T "source_notebook", JStr NOTEBOOK_NAME);
               (T "source_note",
                JStr (T "Values and chart outputs extracted from executed notebook cells."));
               (T "source_profile",
                opt_json (fun p => JStr (source_file p)) profile) ]);
          (T "summary", summary);
          (T "top_correlations", JList (map corr_row_json top_correlations));
          (T "top_drivers", JList (map driver_detail_json details));
          (T "top_neighborhoods", JList (map neighborhood_row_json top_neighborhoods));
          (T "top_neighborhood", opt_json neighborhood_row_json top_neighborhood);
          (T "top_missing_features", JList (map missing_row_json missing_features));
          (T "profile_overview", opt_json report profile);
          (T "managerial_summary", managerial_summary);
          (T "chart_files", JDict (map (fun kv => (fst kv, JStr (snd kv))) chart_files)) ]).

(** ** Files and the run

    The files of the [web] tree by their path under the project root, and
    the lines printed.  An action may change both before it raises. *)

Record world : Type := {
  files : gmap text bytes;
  console : list text
}.

Definition io (A : Type) : Type := world -> world * outcome A.

Definition io_ret {A : Type} (a : A) : io A := fun w => (w, Ok a).

Definition io_bind {A B : Type} (c : io A) (k : A -> io B) : io B :=
  fun w =>
    match c w with
    | (w', Ok a) => k a w'
    | (w', Raise e) => (w', Raise e)
    end.

Definition lift {A : Type} (c : outcome A) : io A := fun w => (w, c).

Notation "'let!' x ':=' c 'in' k" := (io_bind c (fun x => k))
  (at level 10, x binder, c at level 100, k at level 200).

Fixpoint io_for_each {A S : Type} (step : S -> A -> io S) (xs : list A) (acc : S)
  : io S :=
  match xs with
  | [] => io_ret acc
  | x :: xs' => let! acc' := step acc x in io_for_each step xs' acc'
  end.

(** The UTF-8 bytes of a text of code points below 256. *)
Definition utf8_encode (s : text) : bytes :=
  flat_map
    (fun c =>
       let n := code c in
       if N.ltb n 128 then [byte_of_N n]
       else [byte_of_N (192 + N.div n 64); byte_of_N (128 + N.modulo n 64)])
    s.

(** [path.write_bytes(content)] and [open(path, "w")]. *)
Definition write_bytes (path : text) (content : bytes) : io unit :=
  fun w => ({| files := <[path := content]> (files w); console := console w |}, Ok tt).

Definition open_w (path : text) : io unit := write_bytes path [].

(** [file.write(s)] on a file opened for writing. *)
Definition file_write (path : text) (s : text) : io unit :=
  fun w =>
    ({| files := <[path := default [] (files w !! path) ++ utf8_encode s]> (files w);
        console := console w |}, Ok tt).

Definition print (line : text) : io unit :=
  fun w => ({| files := files w; console := console w ++ [line] |}, Ok tt).

Definition CHARTS_DIR : text := T "web/assets/charts".
Definition DATA_DIR : text := T "web/assets/data".
Definition JS_DIR : text := T "web/assets/js".

Definition path_join (dir name : text) : text := dir ++ T "/" ++ name.

Definition CHART_CELL_MAP : list (nat * text) :=
  [ (15, T "saleprice_distribution.png");
    (17, T "qq_raw_vs_log.png");
    (18, T "saleprice_log_distribution.png");
    (25, T "saleprice_iqr_boxplots.png");
    (29, T "missingness_heatmap_top20.png");
    (31, T "correlation_heatmap_full.png");
    (37, T "top3_scatter_raw.png");
    (39, T "top3_scatter_log.png");
    (41, T "overallqual_vs_saleprice.png");
    (43, T "overallqual_vs_log_saleprice.png");
    (48, T "top15_neighborhood_mean.png") ]%nat.

Definition export_chart (nb : notebook) (chart_files : list (text * text))
  (entry : nat * text) : io (list (text * text)) :=
  let '(cell_index, filename) := entry in
  let! c := lift (get_cell nb cell_index) in
  let! image := lift (extract_png_from_cell c) in
  match image with
  | None => io_ret chart_files
  | Some image_bytes =>
      let! _ := write_bytes (path_join CHARTS_DIR filename) image_bytes in
      io_ret (dict_set chart_files (replace (T ".png") [] filename)
                (T "assets/charts/" ++ filename))
  end.

(** [mockup] is the content of [image.png] under the project root when that
    file exists. *)
Definition export_charts (nb : notebook) (mockup : option bytes)
  : io (list (text * text)) :=
  let! chart_files := io_for_each (export_chart nb) CHART_CELL_MAP [] in
  match mockup with
  | Some content =>
      let! _ := write_bytes (path_join CHARTS_DIR (T "dashboard_mockup.png")) content in
      io_ret (dict_set chart_files (T "dashboard_mockup")
                (T "assets/charts/dashboard_mockup.png"))
  | None => io_ret chart_files
  end.

Definition JSON_PATH : text := path_join DATA_DIR (T "metrics.json").
Definition JS_PATH : text := path_join JS_DIR (T "metrics.js").

Definition JS_PREFIX : text := T "window.dashboardMetrics = ".
Definition JS_SUFFIX : text := T ";" ++ [chr 10].

Definition write_metrics `{PyLib} (metrics : json) : io unit :=
  let! _ := open_w JSON_PATH in
  let! _ := file_write JSON_PATH (json_dumps metrics) in
  let! _ := open_w JS_PATH in
  let! _ := file_write JS_PATH JS_PREFIX in
  let! _ := file_write JS_PATH (json_dumps metrics) in
  file_write JS_PATH JS_SUFFIX.

(** The files the run reads: the parsed notebook when it exists, the text
    of each candidate profile report when it exists, the supplementary
    image when it exists. *)
Record inputs : Type := {
  notebook_file : option notebook;
  profile_ames : option text;
  profile_compact : option text;
  mockup_image : option bytes
}.

Definition find_profile_path (inp : inputs) : option (text * text) :=
  match profile_ames inp with
  | Some html => Some (T "ames_house_prices_profile.html", html)
  | None =>
      match profile_compact inp with
      | Some html => Some (T "house_profile_compact.html", html)
      | None => None
      end
  end.

(** The lines printed at the end of a run. *)
Definition summary_lines (profile_name : option text) : list text :=
  [ T "Dashboard assets generated from notebook/profile outputs:";
    T "- Charts: " ++ CHARTS_DIR;
    T "- Data:   " ++ JSON_PATH;
    T "- JS:     " ++ JS_PATH;
    match profile_name with
    | Some name => T "- Profile parsed: " ++ name
    | None => T "- Profile parsed: not found"
    end ].

Definition print_summary (profile_name : option text) : io unit :=
  io_for_each (fun _ line => print line) (summary_lines profile_name) tt.

Definition main `{PyLib} (inp : inputs) (seed : hash_seed) (now : text) : io unit :=
  match notebook_file inp with
  | None => lift (Raise FileNotFoundError)
  | Some nb =>
      let! chart_files := export_charts nb (mockup_image inp) in
      let profile_path := find_profile_path inp in
      let! profile :=
        lift match profile_path with
             | Some (name, html) =>
                 let* r := parse_profile_report name html in Ok (Some r)
             | None => Ok None
             end in
      let! metrics := lift (build_metrics nb chart_files profile seed now) in
      let! _ := write_metrics metrics in
      print_summary (option_map fst profile_path)
  end.

(** ** A small instance of the library interface

    Enough of the library to run the pipeline on concrete inputs.

    [float_repr_shortest] follows [float.__repr__]: the shortest decimal
    digits that convert back to the same float, printed in fixed notation
    for a decimal point position between -3 and 16 and in exponent
    notation otherwise. *)

Definition decimal_length (n : Z) : Z := Z.of_nat (length (int_repr n)).

(** [floor (log10 (n / d))] for positive [n] and [d]. *)
Definition floor_log10 (n d : Z) : Z :=
  let g := decimal_length n - decimal_length d in
  let reaches :=
    if 0 <=? g then d * 10 ^ g <=? n else d <=? n * 10 ^ (- g) in
  if reaches then g else g - 1.

(** [n / d] divided by [10 ^ k], as a fraction. *)
Definition scale_by_power10 (n d k : Z) : Z * Z :=
  if 0 <=? k then (n, d * 10 ^ k) else (n * 10 ^ (- k), d).

Definition same_float (x y : spec_float) : bool :=
  match x, y with
  | S754_finite _ m1 e1, S754_finite _ m2 e2 => (Pos.eqb m1 m2 && (e1 =? e2))%bool
  | S754_infinity _, S754_infinity _ => true
  | S754_zero _, S754_zero _ => true
  | _, _ => false
  end.

(** The [count]-digit decimals next to [n / d]: the nearest one if it
    converts back to [x], else the other neighbour if that one does. *)
Definition digits_of_length (x : spec_float) (n d p : Z) (count : Z) : option (Z * Z) :=
  let k := p - (count - 1) in
  let '(sn, sd) := scale_by_power10 n d k in
  let lo := sn / sd in
  let near := div_half_even sn sd in
  let far := if near =? lo then lo + 1 else lo in
  if same_float (decimal_to_float false near k) x then Some (near, k)
  else if same_float (decimal_to_float false far k) x then Some (far, k)
  else None.

Fixpoint shortest_digits (x : spec_float) (n d p : Z) (counts : list Z) : Z * Z :=
  match counts with
  | [] => (0, 0)
  | [c] =>
      let k := p - (c - 1) in
      let '(sn, sd) := scale_by_power10 n d k in (div_half_even sn sd, k)
  | c :: counts' =>
      match digits_of_length x n d p c with
      | Some r => r
      | None => shortest_digits x n d p counts'
      end
  end.

(** Trailing zeros moved from the digits to the exponent. *)
Fixpoint strip_zeros (fuel : nat) (digits k : Z) : Z * Z :=
  match fuel with
  | O => (digits, k)
  | S fuel' =>
      if ((digits mod 10 =? 0) && (0 <? digits))%bool
      then strip_zeros fuel' (digits / 10) (k + 1)
      else (digits, k)
  end.

Definition zeros (n : Z) : text := repeat (chr 48) (Z.to_nat n).

Definition exponent_repr (e : Z) : text :=
  let body := int_repr (Z.abs e) in
  (if e <? 0 then T "-" else T "+")
  ++ (if (length body <? 2)%nat then T "0" ++ body else body).

Definition format_repr (ds : text) (decpt : Z) : text :=
  let nd := Z.of_nat (length ds) in
  if ((decpt <=? -4) || (16 <? decpt))%bool
  then
    firstn 1 ds
    ++ (if 1 <? nd then T "." ++ skipn 1 ds else [])
    ++ T "e" ++ exponent_repr (decpt - 1)
  else if decpt <=? 0 then T "0." ++ zeros (- decpt) ++ ds
  else if nd <=? decpt then ds ++ zeros (decpt - nd) ++ T ".0"
  else firstn (Z.to_nat decpt) ds ++ T "." ++ skipn (Z.to_nat decpt) ds.

Definition float_repr_shortest (x : spec_float) : text :=
  match x with
  | S754_nan => T "nan"
  | S754_infinity s => if s then T "-inf" else T "inf"
  | S754_zero s => if s then T "-0.0" else T "0.0"
  | S754_finite s m e =>
      let '(n, d) := if 0 <=? e then (Zpos m * 2 ^ e, 1) else (Zpos m, 2 ^ (- e)) in
      let p := floor_log10 n d in
      let '(digits, k) :=
        shortest_digits x n d p [1; 2; 3; 4; 5; 6; 7; 8; 9; 10; 11; 12; 13; 14; 15; 16; 17] in
      let '(digits, k) := strip_zeros 20 digits k in
      let ds := int_repr digits in
      (if s then T "-" else []) ++ format_repr ds (k + Z.of_nat (length ds))
  end.

(** [html.unescape] for text whose character references are among
    [&amp;], [&lt;], [&gt;], [&quot;] and [&#39;]; other text is left as it
    is, which is right when it has no other reference. *)
Definition html_unescape_basic (s : text) : text :=
  replace (T "&amp;") (T "&")
    (replace (T "&#39;") (T "'")
       (replace (T "&quot;") dq
          (replace (T "&gt;") (T ">") (replace (T "&lt;") (T "<") s)))).

(** The literals read: [None], [True], [False], decimal integers with an
    optional sign, quoted strings of printable ASCII without a backslash,
    and lists or tuples of these; and, as the whole text only, a set of one
    string or of two different strings, kept in the order written.  A lone
    name is answered as [ast.literal_eval] does ([SyntaxError] for a
    keyword, [ValueError] otherwise); any other text is [Unmodelled]. *)
Inductive lit : Type :=
| LNone
| LBool (b : bool)
| LInt (z : Z)
| LStr (s : text)
| LList (items : list lit)
| LTuple (items : list lit)
| LSet (items : list text).

(** What the seed of a process decides in this instance: whether the two
    strings of a set come out in the order written or in the other one.
    Both happen: [{'OverallQual', 'GrLivArea'}] comes out as written with
    [PYTHONHASHSEED=1] and reversed with [PYTHONHASHSEED=0].  A run
    evaluates one literal, so one set. *)
Inductive set_order : Type :=
| AsWritten
| Reversed.

Definition is_blank (c : ascii) : bool := (N.eqb (code c) 32 || N.eqb (code c) 9)%bool.

Definition is_blank_or_newline (c : ascii) : bool :=
  (is_blank c || N.eqb (code c) 10 || N.eqb (code c) 13)%bool.

Fixpoint take_while (p : ascii -> bool) (s : text) : text :=
  match s with
  | c :: s' => if p c then c :: take_while p s' else []
  | [] => []
  end.

Definition is_quote (c : ascii) : bool := (N.eqb (code c) 34 || N.eqb (code c) 39)%bool.

Definition is_printable (c : ascii) : bool := (N.leb 32 (code c) && N.leb (code c) 126)%bool.

(** The body of a string literal up to its closing quote. *)
Fixpoint read_quoted (q : ascii) (s : text) : option (text * text) :=
  match s with
  | [] => None
  | c :: s' =>
      if char_eqb c q then Some ([], s')
      else if (N.eqb (code c) 92 || negb (is_printable c))%bool then None
      else match read_quoted q s' with
           | Some (body, rest) => Some (c :: body, rest)
           | None => None
           end
  end.

Definition is_name_char (c : ascii) : bool := word_char c.

Definition is_name (s : text) : bool :=
  match s with
  | c :: _ => (negb (is_digit c) && forallb is_name_char s)%bool
  | [] => false
  end.

Definition KEYWORDS : list text :=
  map T [ "and"; "as"; "assert"; "async"; "await"; "break"; "class"; "continue";
          "def"; "del"; "elif"; "else"; "except"; "finally"; "for"; "from";
          "global"; "if"; "import"; "in"; "is"; "lambda"; "nonlocal"; "not";
          "or"; "pass"; "raise"; "return"; "try"; "while"; "with"; "yield" ]%string.

(** A decimal integer literal: no leading zero unless every digit is zero. *)
Definition read_int (s : text) : option (Z * text) :=
  let ds := take_while is_digit s in
  match ds with
  | [] => None
  | d :: _ =>
      if (negb (char_eqb d "0") || forallb (fun c => char_eqb c "0") ds)%bool
      then Some (digits_to_Z ds, skipn (length ds) s)
      else None
  end.

(** The items of a bracketed sequence up to [close], and whether a comma
    was met. *)
Fixpoint read_items (value : text -> option (lit * text)) (fuel : nat) (close : ascii)
  (s : text) : option (list lit * bool * text) :=
  match fuel with
  | O => None
  | S fuel' =>
      match skip_while is_blank_or_newline s with
      | [] => None
      | c :: s' =>
          if char_eqb c close then Some ([], false, s')
          else
            match value (c :: s') with
            | None => None
            | Some (v, r) =>
                match skip_while is_blank_or_newline r with
                | c2 :: r' =>
                    if char_eqb c2 close then Some ([v], false, r')
                    else if char_eqb c2 ","
                         then match read_items value fuel' close r' with
                              | Some (vs, _, rest) => Some (v :: vs, true, rest)
                              | None => None
                              end
                         else None
                | [] => None
                end
            end
      end
  end.

Fixpoint read_value (fuel : nat) (s : text) : option (lit * text) :=
  match fuel with
  | O => None
  | S fuel' =>
      match skip_while is_blank s with
      | [] => None
      | c :: s' =>
          if char_eqb c "["
          then match read_items (read_value fuel') fuel' "]" s' with
               | Some (items, _, rest) => Some (LList items, rest)
               | None => None
               end
          else if char_eqb c "("
          then match read_items (read_value fuel') fuel' ")" s' with
               | Some ([v], false, rest) => Some (v, rest)
               | Some (items, _, rest) => Some (LTuple items, rest)
               | None => None
               end
          else if is_quote c
          then match read_quoted c s' with
               | Some (body, rest) => Some (LStr body, rest)
               | None => None
               end
          else if (char_eqb c "-" || char_eqb c "+")%bool
          then match read_int (skip_while is_blank s') with
               | Some (z, rest) => Some (LInt (if char_eqb c "-" then - z else z), rest)
               | None => None
               end
          else if is_digit c
          then match read_int (c :: s') with
               | Some (z, rest) => Some (LInt z, rest)
               | None => None
               end
          else
            let name := take_while is_name_char (c :: s') in
            let rest := skipn (length name) (c :: s') in
            if text_eqb name (T "None") then Some (LNone, rest)
            else if text_eqb name (T "True") then Some (LBool true, rest)
            else if text_eqb name (T "False") then Some (LBool false, rest)
            else None
      end
  end.

(** The set a braced display of one string or of two different strings
    builds. *)
Definition set_of_items (items : list lit) : option lit :=
  match items with
  | [LStr a] => Some (LSet [a])
  | [LStr a; LStr b] => if text_eqb a b then None else Some (LSet [a; b])
  | _ => None
  end.

Definition literal_eval_small (s : text) : outcome lit :=
  let s := skip_while is_blank s in
  if starts_with (T "{") s
  then
    match read_items (read_value (length s)) (length s) "}" (skipn 1 s) with
    | Some (items, _, rest) =>
        match skip_while is_blank rest, set_of_items items with
        | [], Some v => Ok v
        | _, _ => Raise Unmodelled
        end
    | None => Raise Unmodelled
    end
  else
    match read_value (S (length s)) s with
    | Some (v, rest) =>
        match skip_while is_blank rest with
        | [] => Ok v
        | _ => Raise Unmodelled
        end
    | None =>
        if is_name s
        then if existsb (text_eqb s) KEYWORDS then Raise SyntaxError else Raise ValueError
        else Raise Unmodelled
    end.

(** The strings of a set in the order they come out. *)
Definition set_items (seed : set_order) (items : list text) : list text :=
  match seed with
  | AsWritten => items
  | Reversed => rev items
  end.

(** [iter(value)] *)
Definition lit_iter (seed : set_order) (v : lit) : outcome (list lit) :=
  match v with
  | LStr s => Ok (map (fun c => LStr [c]) s)
  | LList items => Ok items
  | LTuple items => Ok items
  | LSet items => Ok (map LStr (set_items seed items))
  | _ => Raise TypeError
  end.

(** [repr] of a string of printable ASCII without a backslash. *)
Definition str_repr (s : text) : text :=
  if (contains (T "'") s && negb (contains dq s))%bool
  then dq ++ s ++ dq
  else T "'" ++ replace (T "'") (T "\'") s ++ T "'".

Fixpoint lit_repr (seed : set_order) (v : lit) : text :=
  match v with
  | LNone => T "None"
  | LBool true => T "True"
  | LBool false => T "False"
  | LInt z => int_repr z
  | LStr s => str_repr s
  | LList items => T "[" ++ str_join (T ", ") (map (lit_repr seed) items) ++ T "]"
  | LTuple items =>
      match items with
      | [x] => T "(" ++ lit_repr seed x ++ T ",)"
      | _ => T "(" ++ str_join (T ", ") (map (lit_repr seed) items) ++ T ")"
      end
  | LSet items => T "{" ++ str_join (T ", ") (map str_repr (set_items seed items)) ++ T "}"
  end.

(** [str(value)] *)
Definition lit_str (seed : set_order) (v : lit) : text :=
  match v with
  | LStr s => s
  | _ => lit_repr seed v
  end.

Definition small_lib : PyLib := {|
  float_repr := float_repr_shortest;
  html_unescape := html_unescape_basic;
  pyval := lit;
  hash_seed := set_order;
  literal_eval := literal_eval_small;
  py_iter := lit_iter;
  py_str := lit_str
|}.

(** * Vocabulary of the statements *)

(** The text without the occurrences of one character. *)
Definition remove_char (c : ascii) (s : text) : text :=
  List.filter (fun x => negb (char_eqb c x)) s.

(** A numeric string: digits, thousands separators and decimal points,
    the characters the scalar patterns capture. *)
Definition numeric_text (s : text) : Prop := forallb num_char s = true.

(** The correlation of the last row of the table carrying a name. *)
Definition last_correlation (name : text) (table : list corr_row) : option spec_float :=
  fold_left
    (fun found row => if text_eqb (corr_feature row) name then Some (correlation row) else found)
    table None.

(** The exceptions a chart export can end with. *)
Definition chart_failure (e : exn) : Prop :=
  e = IndexError \/ e = BinasciiError \/ e = ValueError.

(** Every image payload of the notebook decodes. *)
Definition images_decode (nb : notebook) : Prop :=
  Forall (fun c => returns (extract_png_from_cell c) = true) (cells nb).

(** A notebook of sixteen cells whose last cell, at position 15, carries an
    image payload of a single base64 character. *)
Definition undecodable_notebook : notebook :=
  {| cells :=
       repeat {| outputs := [] |} 15
       ++ [ {| outputs :=
                 [ {| output_type := Some (T "display_data");
                      stream_text := None;
                      data := Some {[ T "image/png" := PStr (T "A") ]} |} ] |} ] |}.

Definition only_notebook (nb : notebook) : inputs :=
  {| notebook_file := Some nb; profile_ames := None; profile_compact := None;
     mockup_image := None |}.

Definition empty_world : world := {| files := ∅; console := [] |}.

(** What one line of the missing-value table contributes, whatever the
    denominator: the feature name and the count of a line that matches. *)
Definition missing_entry (raw : text) : option (text * Z) :=
  let line := strip raw in
  match line with
  | [] => None
  | _ =>
      if starts_with (T "dtype:") line then None
      else
        match re_match missing_re line with
        | Some (cs, _) => Some (group 1 cs, digits_to_Z (group 2 cs))
        | None => None
        end
  end.

(** The denominator is present and strictly positive. *)
Definition positive_denominator (rows_after : option Z) : Prop :=
  exists n, rows_after = Some n /\ 0 < n.

Definition is_nan (f : spec_float) : bool :=
  match f with S754_nan => true | _ => false end.

(** [a >= b] on floats. *)
Definition float_geb (a b : spec_float) : bool := SFleb b a.

(** Descending by key: every row is at least every later row. *)
Definition sorted_desc {R : Type} (key : R -> spec_float) (l : list R) : Prop :=
  StronglySorted (fun a b => float_geb (key a) (key b) = true) l.

(** The rows whose key equals [k], in their order in the list. *)
Definition with_key {R : Type} (key : R -> spec_float) (k : spec_float) (l : list R)
  : list R :=
  List.filter (fun r => SFeqb k (key r)) l.

(** [top] ranks [rows]: it is the first [TOP_ALERTS] rows of a rearrangement
    of [rows] that is descending by key and keeps rows of equal key in
    their original order. *)
Definition ranks {R : Type} (key : R -> spec_float) (rows top : list R) : Prop :=
  exists sorted,
    top = firstn TOP_ALERTS sorted
    /\ Permutation sorted rows
    /\ sorted_desc key sorted
    /\ forall k, with_key key k sorted = with_key key k rows.

(** An amount: a non-empty text of digits and points. *)
Definition amount_text (amount : text) : Prop :=
  amount <> [] /\ forallb dec_char amount = true.

(** A unit word: a non-empty text without whitespace or comma. *)
Definition unit_word (u : text) : Prop :=
  u <> [] /\ forallb (fun c => negb (is_space c) && negb (char_eqb "," c))%bool u = true.

(** The unit table as pairs of a unit, written in capitals, and its
    multiplier. *)
Definition UNIT_TABLE : list (text * Z) :=
  [ (T "B", 1); (T "KIB", 1024); (T "MIB", 1024 ^ 2); (T "GIB", 1024 ^ 3);
    (T "KB", 1000); (T "MB", 1000 ^ 2); (T "GB", 1000 ^ 3) ].

(** The words the unit pattern [[KMGT]?i?B] matches, written in capitals. *)
Definition UNIT_WORDS : list text :=
  map T ["B"; "KB"; "MB"; "GB"; "TB"; "IB"; "KIB"; "MIB"; "GIB"; "TIB"]%string.

(** A word that is one of them up to the case of its letters. *)
Definition unit_shape (u : text) : bool := existsb (text_eqb (upper u)) UNIT_WORDS.

(** A float that is exactly the integer [z]. *)
Definition float_is_int (f : spec_float) (z : Z) : Prop :=
  match f with
  | S754_zero _ => z = 0
  | S754_finite neg m e =>
      if 0 <=? e then z = (if neg then - (Zpos m * 2 ^ e) else Zpos m * 2 ^ e)
      else Zpos m = (if neg then - z else z) * 2 ^ (- e)
  | _ => False
  end.

(** The text each scalar pattern starts with, per parser; a block is
    unlabelled for a parser when none of them occurs in it. *)
Definition TARGET_LABELS : list string := ["Mean"; "Median"; "Skewness"; "Kurtosis"]%string.

Definition BOUND_LABELS : list string :=
  ["Q1"; "Q3"; "IQR"; "Lower bound:"; "Upper bound:"]%string.

Definition ROW_COUNT_LABELS : list string :=
  ["Rows before IQR filtering"; "Rows after IQR filtering"; "Rows removed as outliers";
   "% removed:"]%string.

Definition SHAPE_LABELS : list string := ["Shape:"]%string.

Definition unlabelled (labels : list string) (txt : text) : Prop :=
  Forall (fun label => contains (T label) txt = false) labels.

(** What identifies a row of the missing-value table besides its percentage. *)
Definition row_key (r : missing_row) : text * Z := (missing_feature r, missing_count r).

(** A position in the order: the class (negative infinity, negative,
    zero, positive, positive infinity), then exponent and mantissa. *)
Definition rank (f : spec_float) : Z * Z * Z :=
  match f with
  | S754_nan => (0, 0, 0)
  | S754_infinity true => (-2, 0, 0)
  | S754_infinity false => (2, 0, 0)
  | S754_zero _ => (0, 0, 0)
  | S754_finite true m e => (-1, - e, Zneg m)
  | S754_finite false m e => (1, e, Zpos m)
  end.

Definition lex_compare (x y : Z * Z * Z) : comparison :=
  let '(a1, b1, c1) := x in
  let '(a2, b2, c2) := y in
  match a1 ?= a2 with
  | Eq => match b1 ?= b2 with Eq => c1 ?= c2 | r => r end
  | r => r
  end.

(** The pattern of the unit with the end of the text after it. *)
Definition unit_tail : list regex :=
  [ RGroup [ROpt [RSet (ci_char "KMGT")]; ROpt [RSet (ci_char "i")]; RSet (ci_char "B")];
    REol ].

(** What follows the first item of a joined list. *)
Definition join_tail (sep : text) (rest : list text) : text :=
  match rest with
  | [] => []
  | _ => sep ++ str_join sep rest
  end.









(** ** Vocabulary of the further properties *)

(** The text of a sign: a minus or nothing. *)
Definition sign_text (neg : bool) : text := if neg then T "-" else [].

(** The files a run may write: the chart images, the copied image and the
    two metrics files. *)
Definition OUTPUT_PATHS : list text :=
  map (fun entry => path_join CHARTS_DIR (snd entry)) CHART_CELL_MAP
  ++ [path_join CHARTS_DIR (T "dashboard_mockup.png"); JSON_PATH; JS_PATH].

(** An action that prints nothing and leaves every file outside [paths] as
    it was. *)
Definition quiet (paths : list text) {A : Type} (c : io A) : Prop :=
  forall w,
    (forall path, ~ In path paths -> files (fst (c w)) !! path = files w !! path)
    /\ console (fst (c w)) = console w.

(** An action that leaves every file outside [paths] as it was and prints
    [lines], at its end: nothing is printed when it fails. *)
Definition prints_at_end (paths : list text) (lines : list text) {A : Type} (c : io A)
  : Prop :=
  forall w,
    (forall path, ~ In path paths -> files (fst (c w)) !! path = files w !! path)
    /\ match snd (c w) with
       | Ok _ => console (fst (c w)) = console w ++ lines
       | Raise _ => console (fst (c w)) = console w
       end.

(** [d.get(key)] on an insertion-ordered dict. *)
Fixpoint dict_get {V : Type} (d : list (text * V)) (key : text) : option V :=
  match d with
  | [] => None
  | (k, v) :: d' => if text_eqb k key then Some v else dict_get d' key
  end.

(** The file a chart of the table is written to, and the key and the value
    it is listed under. *)
Definition chart_path (filename : text) : text := path_join CHARTS_DIR filename.

Definition chart_key (filename : text) : text := replace (T ".png") [] filename.

Definition chart_url (filename : text) : text := T "assets/charts/" ++ filename.

(** What the export has done for one file name whose cell gave [image]:
    with an image the file holds it and the name is listed; without one the
    file is as it was in [w] and the key as it was in [listed]. *)
Definition exported (w w' : world) (listed chart_files : list (text * text))
  (filename : text) (image : option bytes) : Prop :=
  match image with
  | Some content =>
      files w' !! chart_path filename = Some content
      /\ dict_get chart_files (chart_key filename) = Some (chart_url filename)
  | None =>
      files w' !! chart_path filename = files w !! chart_path filename
      /\ dict_get chart_files (chart_key filename) = dict_get listed (chart_key filename)
  end.

(** A notebook of 49 cells whose cell 15 shows an image of three bytes. *)
Definition one_chart_notebook : notebook :=
  {| cells :=
       repeat {| outputs := [] |} 15
       ++ [ {| outputs :=
                 [ {| output_type := Some (T "display_data");
                      stream_text := None;
                      data := Some {[ T "image/png" := PStr (T "QUJD") ]} |} ] |} ]
       ++ repeat {| outputs := [] |} 33 |}.

(** [value[key]] on a record that is a dict. *)
Definition json_field (key : string) (value : json) : option json :=
  match value with
  | JDict entries => dict_get entries (T key)
  | _ => None
  end.

(** The input files of a run with a notebook. *)
Definition run_inputs (nb : notebook) (ames compact : option text) (mockup : option bytes)
  : inputs :=
  {| notebook_file := Some nb; profile_ames := ames; profile_compact := compact;
     mockup_image := mockup |}.

(** The name of the profile report a run parses: the first candidate that
    exists. *)
Definition parsed_profile_name (ames compact : option text) : option text :=
  match ames, compact with
  | Some _, _ => Some (T "ames_house_prices_profile.html")
  | None, Some _ => Some (T "house_profile_compact.html")
  | None, None => None
  end.

(** The literal text a pattern starts with. *)
Definition anchor (pattern : list regex) : text :=
  match pattern with
  | RLit w :: _ => w
  | _ => []
  end.

(** The five patterns a profile report is searched for. *)
Definition PROFILE_PATTERNS : list (list regex) :=
  [ meta_date_re; table_block_re "Dataset statistics"; table_block_re "Variable types";
    alert_count_re; alert_table_re ].

(** The overview of a report in which nothing was found. *)
Definition EMPTY_OVERVIEW (name : text) : json :=
  JDict
    [ (T "meta",
       JDict [ (T "source_file", JStr name); (T "report_generated_at", JNull) ]);
      (T "dataset_statistics",
       JDict
         [ (T "number_of_variables", JNull);
           (T "number_of_observations", JNull);
           (T "missing_cells", JNull);
           (T "missing_cells_pct", JNull);
           (T "total_memory_size_text", JNull);
           (T "total_memory_size_bytes", JNull);
           (T "average_record_size_text", JNull);
           (T "average_record_size_bytes", JNull) ]);
      (T "variable_types",
       JDict [ (T "numeric", JNull); (T "categorical", JNull); (T "boolean", JNull) ]);
      (T "alert_count", JInt 0);
      (T "alert_type_counts", JDict []);
      (T "top_missing_alerts", JList []);
      (T "top_zero_alerts", JList []);
      (T "top_imbalance_alerts", JList []);
      (T "alerts", JList []) ].

(** An output is a stream output; an output carries a representation of a
    MIME type. *)
Definition is_stream (o : output) : bool :=
  bool_decide (output_type o = Some (T "stream")).

Definition carries (mime : string) (o : output) : bool :=
  match data o with
  | Some d => bool_decide (is_Some (d !! T mime))
  | None => false
  end.

Definition ascii_only (s : text) : Prop := forallb (fun c => negb (NON_ASCII c)) s = true.

(** A word: a non-empty text without whitespace. *)
Definition is_word (w : text) : Prop := w <> [] /\ forallb not_space w = true.

(** The floats of a record. *)
Fixpoint json_floats (value : json) : list spec_float :=
  match value with
  | JFloat f => [f]
  | JList items => flat_map json_floats items
  | JDict entries => flat_map (fun kv => let '(_, v) := kv in json_floats v) entries
  | _ => []
  end.

(** A character of a text file in ASCII: printable, or the line feed. *)
Definition plain_char (c : ascii) : bool :=
  (N.eqb (code c) 10 || (N.leb 32 (code c) && N.leb (code c) 126))%bool.

Definition plain_text (s : text) : Prop := forallb plain_char s = true.

(** Bytes of the ASCII range. *)
Definition ascii_bytes (content : bytes) : Prop :=
  Forall (fun b => (Byte.to_N b < 128)%N) content.

(** [t] is the decimal writing of a number with the digits [ip] before the
    point and [fp] after it: [ip.fp], [ip.], [.fp] or [ip]. *)
Definition decimal_writing (t ip fp : text) : Prop :=
  forallb is_digit ip = true /\ forallb is_digit fp = true
  /\ (ip <> [] \/ fp <> [])
  /\ (t = ip ++ "."%char :: fp \/ (fp = [] /\ t = ip)).

(** The alerts of one category, in their order. *)
Definition of_category (category : string) (alert_rows : list alert) : list alert :=
  List.filter (fun a => text_eqb (alert_type a) (T category)) alert_rows.

(** How often a label occurs in a list of labels. *)
Definition occurrences (label : text) (labels : list text) : Z :=
  Z.of_nat (length (List.filter (text_eqb label) labels)).

Definition total (counts : list (text * Z)) : Z := fold_right Z.add 0 (map snd counts).

(** A character of a lookup key: no whitespace and no capital letter. *)
Definition key_char (c : ascii) : bool := (negb (is_space c) && negb (is_upper_az c))%bool.

(** In [prefix ++ w ++ tail] the text [w] occurs first right after
    [prefix]: it starts at no position inside [prefix]. *)
Definition first_occurrence (w prefix tail : text) : Prop :=
  forall skipped s',
    prefix = skipped ++ s' -> s' <> [] -> starts_with w (s' ++ w ++ tail) = false.

(** * Facts about text *)

Lemma code_inj (a b : ascii) : code a = code b -> a = b.
Proof.
  unfold code. intros E.
  rewrite <- (ascii_N_embedding a), <- (ascii_N_embedding b). now rewrite E.
Qed.

Lemma char_eqb_eq (a b : ascii) : char_eqb a b = true <-> a = b.
Proof.
  unfold char_eqb. rewrite N.eqb_eq. split; [apply code_inj | now intros ->].
Qed.

Lemma char_eqb_refl (a : ascii) : char_eqb a a = true.
Proof. now apply char_eqb_eq. Qed.

Lemma char_eqb_neq (a b : ascii) : char_eqb a b = false <-> a <> b.
Proof.
  rewrite <- char_eqb_eq. destruct (char_eqb a b); split; congruence.
Qed.

Lemma text_eqb_eq (a b : text) : text_eqb a b = true <-> a = b.
Proof. unfold text_eqb. apply bool_decide_eq_true. Qed.

Lemma replace_char_empty (c : ascii) (s : text) :
  replace [c] [] s = remove_char c s.
Proof.
  unfold replace, remove_char.
  induction s as [| x s IH]; [reflexivity |].
  cbn [replace_from starts_with List.filter length].
  destruct (char_eqb c x) eqn:E; cbn; [apply IH | now rewrite IH].
Qed.

Lemma skip_while_none (p : ascii -> bool) (s : text) :
  match s with c :: _ => p c = false | [] => True end -> skip_while p s = s.
Proof. destruct s as [| c s]; cbn; [easy |]. now intros ->. Qed.

Lemma strip_id (s : text) :
  forallb (fun c => negb (is_space c)) s = true -> strip s = s.
Proof.
  intros H. unfold strip, rstrip, lstrip.
  rewrite (skip_while_none is_space s).
  2:{ destruct s as [| c s]; [easy |]. cbn in H. apply andb_true_iff in H as [H _].
      now apply negb_true_iff in H. }
  rewrite skip_while_none; [apply rev_involutive |].
  destruct (rev s) as [| c r] eqn:E; [easy |].
  assert (In c s) as Hin by (apply in_rev; rewrite E; now left).
  rewrite forallb_forall in H. apply H in Hin. now apply negb_true_iff in Hin.
Qed.

Lemma num_char_not_space (c : ascii) : num_char c = true -> is_space c = false.
Proof.
  destruct c as [[] [] [] [] [] [] [] []]; vm_compute; congruence.
Qed.

Lemma numeric_text_strip (s : text) : numeric_text s -> strip s = s.
Proof.
  intros H. apply strip_id. unfold numeric_text in H.
  rewrite forallb_forall in *. intros c Hc.
  apply negb_true_iff, num_char_not_space. now apply H.
Qed.

(** The three scalar parsers as functions of the text without commas. *)
Lemma parse_float_commas (s : text) :
  parse_float s = pyfloat (strip (remove_char "," s)).
Proof. unfold parse_float. now rewrite <- replace_char_empty. Qed.

Lemma parse_int_commas (s : text) :
  parse_int s = pyint (strip (remove_char "," s)).
Proof. unfold parse_int. now rewrite <- replace_char_empty. Qed.

Lemma parse_number_commas (s : text) :
  numeric_text s ->
  parse_number s =
    match remove_char "," s with
    | [] => Ok None
    | v =>
        catch_value_error
          (if contains (T ".") v
           then let* f := pyfloat v in Ok (NFloat f)
           else let* z := pyint v in Ok (NInt z))
    end.
Proof.
  intros H. unfold parse_number.
  rewrite (numeric_text_strip s H).
  change (T ",") with [","%char]. rewrite replace_char_empty.
  now destruct (remove_char "," s).
Qed.

(** C9. Inserting or removing thousands separators in a numeric string
    does not change what the scalar number parsers return: two texts with
    the same characters apart from commas parse to the same value with
    [parse_float] and [parse_int], and, when both are numeric strings, with
    [parse_number]. *)
Theorem thousands_separators_ignored (s s' : text) :
  remove_char "," s = remove_char "," s' ->
  parse_float s = parse_float s'
  /\ parse_int s = parse_int s'
  /\ (numeric_text s -> numeric_text s' -> parse_number s = parse_number s').
Proof.
  intros E. repeat split.
  - now rewrite !parse_float_commas, E.
  - now rewrite !parse_int_commas, E.
  - intros H H'. now rewrite (parse_number_commas s H), (parse_number_commas s' H'), E.
Qed.

Lemma thousands_separators_ignored_witness :
  parse_float (T "1,234.5") = parse_float (T "1234.5")
  /\ parse_float (T "1234.5") = Ok (S754_finite false 5429388417957888 (-42))
  /\ parse_number (T "1,234.5") = parse_number (T "1234.5")
  /\ parse_number (T "1234.5") = Ok (Some (NFloat (S754_finite false 5429388417957888 (-42)))).
Proof.
  destruct (thousands_separators_ignored (T "1,234.5") (T "1234.5") eq_refl)
    as (Hf & _ & Hn).
  split; [exact Hf |]. split; [reflexivity |].
  split; [apply Hn; reflexivity | reflexivity].
Defined.

(** * The writers *)

Lemma utf8_encode_app (a b : text) :
  utf8_encode (a ++ b) = utf8_encode a ++ utf8_encode b.
Proof. unfold utf8_encode. apply flat_map_app. Qed.

Lemma metrics_paths_differ : JSON_PATH <> JS_PATH.
Proof. vm_compute. discriminate. Qed.

(** A file opened and written once, then a second one opened and written
    three times. *)
Lemma write_two_files (p q : text) (a b c d : text) (w : world) :
  p <> q ->
  (let! _ := open_w p in
   let! _ := file_write p a in
   let! _ := open_w q in
   let! _ := file_write q b in
   let! _ := file_write q c in
   file_write q d) w =
    ({| files := <[q := utf8_encode (b ++ c ++ d)]> (<[p := utf8_encode a]> (files w));
        console := console w |}, Ok tt).
Proof.
  intros Hne.
  unfold io_bind, open_w, write_bytes, file_write. cbn [files console].
  f_equal. f_equal.
  rewrite !lookup_insert_eq. cbn [default]. rewrite !insert_insert_eq, !app_nil_l.
  unfold id. rewrite !utf8_encode_app, <- !app_assoc. reflexivity.
Qed.

(** What [write_metrics] leaves behind, whatever was there before. *)
Lemma write_metrics_effect (L : PyLib) (metrics : json) (w : world) :
  write_metrics metrics w =
    ({| files :=
          <[JS_PATH := utf8_encode (JS_PREFIX ++ json_dumps metrics ++ JS_SUFFIX)]>
            (<[JSON_PATH := utf8_encode (json_dumps metrics)]> (files w));
        console := console w |}, Ok tt).
Proof. unfold write_metrics. apply write_two_files, metrics_paths_differ. Qed.

(** C4. For every aggregated record the script file holds the fixed
    assignment prefix, then exactly the bytes of the data file, then the
    fixed terminator; both are written from one serialization of the
    record. *)
Theorem script_wraps_data_file (L : PyLib) (metrics : json) (w : world) :
  let w' := fst (write_metrics metrics w) in
  snd (write_metrics metrics w) = Ok tt
  /\ exists body : bytes,
       body = utf8_encode (json_dumps metrics)
       /\ files w' !! JSON_PATH = Some body
       /\ files w' !! JS_PATH =
            Some (utf8_encode JS_PREFIX ++ body ++ utf8_encode JS_SUFFIX).
Proof.
  pose proof metrics_paths_differ as Hne.
  rewrite write_metrics_effect. cbn [fst snd files]. split; [reflexivity |].
  eexists. split; [reflexivity |]. split.
  - rewrite lookup_insert_ne by congruence. apply lookup_insert_eq.
  - rewrite lookup_insert_eq. now rewrite !utf8_encode_app.
Qed.

(** * Driver details *)

Lemma fold_left_snoc_map {A B : Type} (f : A -> B) (xs : list A) (acc : list B) :
  fold_left (fun out x => out ++ [f x]) xs acc = acc ++ map f xs.
Proof.
  revert acc. induction xs as [| x xs IH]; intros acc; cbn.
  - now rewrite app_nil_r.
  - rewrite IH. now rewrite <- app_assoc.
Qed.

Lemma top_driver_details_map (top_drivers : list text) (table : list corr_row) :
  top_driver_details top_drivers table =
    map (fun feature =>
           {| driver_feature := feature;
              driver_correlation := corr_by_feature table !! feature |})
        top_drivers.
Proof. unfold top_driver_details. now rewrite fold_left_snoc_map. Qed.

Lemma corr_by_feature_lookup (table : list corr_row) (name : text) :
  corr_by_feature table !! name = last_correlation name table.
Proof.
  unfold corr_by_feature, last_correlation.
  induction table as [| row table IH] using rev_ind; [apply lookup_empty |].
  rewrite !fold_left_app. cbn.
  destruct (text_eqb (corr_feature row) name) eqn:E.
  - apply text_eqb_eq in E. subst name. apply lookup_insert_eq.
  - rewrite lookup_insert_ne; [exact IH |].
    intros Heq. apply text_eqb_eq in Heq. congruence.
Qed.

Lemma last_correlation_none (name : text) (table : list corr_row) :
  last_correlation name table = None <->
  Forall (fun row => corr_feature row <> name) table.
Proof.
  unfold last_correlation.
  induction table as [| row table IH] using rev_ind; [cbn; split; auto |].
  rewrite fold_left_app, Forall_app. cbn.
  destruct (text_eqb (corr_feature row) name) eqn:E.
  - apply text_eqb_eq in E. split; [discriminate |].
    intros [_ H]. inversion H; subst. congruence.
  - rewrite IH. split; [| tauto]. intros H. split; [exact H |].
    constructor; [| constructor]. intros Heq.
    apply text_eqb_eq in Heq. congruence.
Qed.

Lemma last_correlation_some (name : text) (table : list corr_row) (c : spec_float) :
  last_correlation name table = Some c ->
  exists before row after,
    table = before ++ row :: after
    /\ corr_feature row = name /\ correlation row = c
    /\ Forall (fun r => corr_feature r <> name) after.
Proof.
  unfold last_correlation.
  induction table as [| row table IH] using rev_ind; [discriminate |].
  rewrite fold_left_app. cbn.
  destruct (text_eqb (corr_feature row) name) eqn:E.
  - intros [= <-]. apply text_eqb_eq in E.
    exists table, row, []. repeat split; auto.
  - intros H. destruct (IH H) as (b & r & a & -> & Hn & Hc & Ha).
    exists b, r, (a ++ [row]). rewrite <- app_assoc. repeat split; auto.
    apply Forall_app. split; [exact Ha |].
    constructor; [| constructor]. intros Heq.
    apply text_eqb_eq in Heq. congruence.
Qed.

(** C7. The driver details list the driver names in order, one entry per
    name; the entry of a name found in the correlation table carries the
    correlation of the (last) row with exactly that name, and the entry of
    a name absent from the table is kept, with a null correlation. *)
Theorem driver_details_keep_every_driver (top_drivers : list text) (table : list corr_row) :
  map driver_feature (top_driver_details top_drivers table) = top_drivers
  /\ forall (i : nat) (d : driver_detail),
       top_driver_details top_drivers table !! i = Some d ->
       top_drivers !! i = Some (driver_feature d)
       /\ (driver_correlation d = None <->
           Forall (fun row => corr_feature row <> driver_feature d) table)
       /\ (forall c, driver_correlation d = Some c <->
             exists before row after,
               table = before ++ row :: after
               /\ corr_feature row = driver_feature d /\ correlation row = c
               /\ Forall (fun r => corr_feature r <> driver_feature d) after).
Proof.
  rewrite top_driver_details_map. split.
  - rewrite map_map. cbn. apply map_id.
  - intros i d Hd. rewrite list_lookup_fmap in Hd.
    destruct (top_drivers !! i) as [name |] eqn:Hn; [| discriminate].
    cbn in Hd. injection Hd as <-. cbn.
    rewrite corr_by_feature_lookup. split; [reflexivity |]. split.
    + apply last_correlation_none.
    + intros c. split; [apply last_correlation_some |].
      intros (b & r & a & -> & Hname & Hc & Ha).
      unfold last_correlation. rewrite fold_left_app. cbn.
      apply text_eqb_eq in Hname. rewrite Hname.
      clear -Ha Hc. induction a as [| x a IH] using rev_ind; [cbn; congruence |].
      apply Forall_app in Ha as [Ha Hx]. rewrite fold_left_app. cbn.
      inversion Hx; subst.
      destruct (text_eqb (corr_feature x) name) eqn:E.
      * apply text_eqb_eq in E. congruence.
      * now apply IH.
Qed.

(** * Cell lookup and the run on a short notebook *)

Lemma get_cell_short (nb : notebook) (i : nat) :
  (length (cells nb) <= i)%nat -> get_cell nb i = Raise IndexError.
Proof.
  intros H. unfold get_cell. now rewrite (proj2 (lookup_ge_None (cells nb) i) H).
Qed.

Lemma get_cell_cases (nb : notebook) (i : nat) :
  (exists c, cells nb !! i = Some c /\ get_cell nb i = Ok c)
  \/ get_cell nb i = Raise IndexError.
Proof.
  unfold get_cell. destruct (cells nb !! i) as [c |]; [left; eauto | now right].
Qed.

Lemma a2b_base64_raises (s : text) (q : nat) (l : N) (p : nat) (out : bytes) (e : exn) :
  a2b_base64 s q l p out = Raise e -> e = BinasciiError.
Proof.
  revert q l p out. induction s as [| c s IH]; intros q l p out; cbn.
  - destruct q; congruence.
  - repeat match goal with
           | |- context [if ?b then _ else _] => destruct b
           | |- context [match b64_value ?c with _ => _ end] => destruct (b64_value c)
           | |- context [match ?q with O => _ | S _ => _ end] => destruct q
           end; try discriminate; apply IH.
Qed.

Lemma extract_png_raises (c : cell) (e : exn) :
  extract_png_from_cell c = Raise e -> e = BinasciiError \/ e = ValueError.
Proof.
  unfold extract_png_from_cell, b64decode.
  destruct (first_payload _ _); [| discriminate].
  destruct (existsb _ _); cbn; [intros [= <-]; now right |].
  destruct (a2b_base64 _ _ _ _ _) eqn:E; cbn; [discriminate |].
  intros [= <-]. left. eapply a2b_base64_raises, E.
Qed.

(** One chart either goes through or ends with a chart failure, which is
    the indexing error when the cell's image decodes. *)
Lemma export_chart_cases (nb : notebook) (acc : list (text * text)) (idx : nat)
  (name : text) (w : world) :
  (exists w' acc', export_chart nb acc (idx, name) w = (w', Ok acc')
                   /\ is_Some (cells nb !! idx))
  \/ (exists w' e, export_chart nb acc (idx, name) w = (w', Raise e)
                   /\ chart_failure e
                   /\ (images_decode nb -> e = IndexError)).
Proof.
  unfold export_chart, io_bind, lift.
  destruct (get_cell_cases nb idx) as [(c & Hc & ->) | ->].
  - destruct (extract_png_from_cell c) as [[image |] | e] eqn:E.
    + left. cbn. eauto.
    + left. cbn. eauto.
    + right. exists w, e. split; [reflexivity |]. split.
      * destruct (extract_png_raises c e E) as [-> | ->]; unfold chart_failure; auto.
      * intros Hall. unfold images_decode in Hall. rewrite Forall_forall in Hall.
        assert (c ∈ cells nb) as Hin by (eapply list_elem_of_lookup_2, Hc).
        apply Hall in Hin. rewrite E in Hin. discriminate.
  - right. exists w, IndexError. unfold chart_failure. auto.
Qed.

Lemma export_loop_fails (nb : notebook) (entries : list (nat * text)) :
  Exists (fun entry => (length (cells nb) <= fst entry)%nat) entries ->
  forall (acc : list (text * text)) (w : world),
    exists w' e,
      io_for_each (export_chart nb) entries acc w = (w', Raise e)
      /\ chart_failure e /\ (images_decode nb -> e = IndexError).
Proof.
  induction entries as [| [idx name] entries IH]; intros Hex acc w.
  - inversion Hex.
  - cbn [io_for_each]. unfold io_bind at 1.
    destruct (export_chart_cases nb acc idx name w)
      as [(w' & acc' & -> & Hsome) | (w' & e & -> & He)].
    + apply IH. inversion Hex as [? ? Hshort | ? ? Hrest]; subst; [| exact Hrest].
      cbn in Hshort. apply lookup_ge_None in Hshort. rewrite Hshort in Hsome.
      now destruct Hsome.
    + exists w', e. now split.
Qed.

Lemma export_charts_fails (nb : notebook) (mockup : option bytes) (w : world) :
  (length (cells nb) <= 48)%nat ->
  exists w' e,
    export_charts nb mockup w = (w', Raise e)
    /\ chart_failure e /\ (images_decode nb -> e = IndexError).
Proof.
  intros Hlen. unfold export_charts, io_bind at 1.
  destruct (export_loop_fails nb CHART_CELL_MAP) with (acc := @nil (text * text)) (w := w)
    as (w' & e & -> & He).
  - unfold CHART_CELL_MAP. do 10 apply Exists_cons_tl. apply Exists_cons_hd. exact Hlen.
  - exists w', e. now split.
Qed.

(** C10 as amended.  A notebook with no cell at position 48 makes the run
    fail with an uncaught exception instead of filling the fields of the
    missing position with null: the indexing error whenever the image
    payloads decode, and otherwise possibly the decoding error of an
    earlier chart cell. *)
Theorem short_notebook_run_fails (L : PyLib) (inp : inputs) (nb : notebook)
  (seed : hash_seed) (now : text) (w : world) :
  notebook_file inp = Some nb ->
  (length (cells nb) <= 48)%nat ->
  exists e,
    snd (main inp seed now w) = Raise e
    /\ chart_failure e
    /\ (images_decode nb -> e = IndexError).
Proof.
  intros Hnb Hlen. unfold main. rewrite Hnb. unfold io_bind at 1.
  destruct (export_charts_fails nb (mockup_image inp) w Hlen) as (w' & e & -> & He).
  exists e. now split.
Qed.

Lemma short_notebook_run_fails_witness :
  exists e,
    snd (@main small_lib (only_notebook {| cells := [] |}) AsWritten [] empty_world) = Raise e
    /\ chart_failure e
    /\ (images_decode {| cells := [] |} -> e = IndexError).
Proof.
  apply (short_notebook_run_fails small_lib (only_notebook {| cells := [] |})
           {| cells := [] |} AsWritten [] empty_world).
  - reflexivity.
  - cbn. lia.
Defined.

(** C10 as stated fails: this notebook is shorter than 48 cells and the run
    on it ends with the decoding error of cell 15, not with the indexing
    error. *)
Lemma short_notebook_other_error :
  (length (cells undecodable_notebook) < 48)%nat
  /\ snd (@main small_lib (only_notebook undecodable_notebook) AsWritten [] empty_world)
     = Raise BinasciiError
  /\ snd (@main small_lib (only_notebook undecodable_notebook) AsWritten [] empty_world)
     <> Raise IndexError.
Proof.
  split; [vm_compute; lia |].
  assert (snd (@main small_lib (only_notebook undecodable_notebook) AsWritten [] empty_world)
          = Raise BinasciiError) as H by (vm_compute; reflexivity).
  split; [exact H | rewrite H; discriminate].
Qed.

(** * The matcher: what a successful match says about the text *)

Lemma starts_with_app (w rest : text) : starts_with w (w ++ rest) = true.
Proof.
  induction w as [| a w IH]; [reflexivity |]. cbn. now rewrite char_eqb_refl, IH.
Qed.

Lemma starts_with_inv (w s : text) :
  starts_with w s = true -> exists rest, s = w ++ rest.
Proof.
  revert s. induction w as [| a w IH]; intros s H; [now exists s |].
  destruct s as [| b s]; [discriminate |]. cbn in H.
  apply andb_true_iff in H as [Hab Hrest]. apply char_eqb_eq in Hab as ->.
  destruct (IH s Hrest) as [rest ->]. now exists rest.
Qed.

Lemma skipn_length_app {A : Type} (w rest : list A) : skipn (length w) (w ++ rest) = rest.
Proof. induction w; [reflexivity | assumption]. Qed.

Lemma firstn_length_app {A : Type} (w rest : list A) : firstn (length w) (w ++ rest) = w.
Proof. induction w as [| a w IH]; [now destruct rest | cbn; now rewrite IH]. Qed.

Lemma firstn_consumed (g rest : text) (i : nat) :
  firstn (i + length g - i) (g ++ rest) = g.
Proof.
  replace (i + length g - i)%nat with (length g) by lia. apply firstn_length_app.
Qed.

Lemma rep_greedy_inv (p : ascii -> bool) (k : text -> nat -> option mres) :
  forall (s : text) (i : nat) (r : mres),
    rep_greedy p k s i = Some r ->
    exists g rest,
      s = g ++ rest /\ forallb p g = true /\ k rest (i + length g)%nat = Some r.
Proof.
  induction s as [| c s IH]; intros i r H; cbn in H.
  - exists [], []. cbn. now rewrite Nat.add_0_r.
  - destruct (p c) eqn:Hc.
    + destruct (rep_greedy p k s (S i)) as [r' |] eqn:E; cbn in H.
      * injection H as <-. destruct (IH _ _ E) as (g & rest & -> & Hg & Hk).
        exists (c :: g), rest. cbn. rewrite Hc, Hg.
        replace (i + S (length g))%nat with (S i + length g)%nat by lia. auto.
      * exists [], (c :: s). cbn. now rewrite Nat.add_0_r.
    + exists [], (c :: s). cbn. now rewrite Nat.add_0_r.
Qed.

Lemma rep_lazy_inv (p : ascii -> bool) (k : text -> nat -> option mres) :
  forall (s : text) (i : nat) (r : mres),
    rep_lazy p k s i = Some r ->
    exists g rest,
      s = g ++ rest /\ forallb p g = true /\ k rest (i + length g)%nat = Some r.
Proof.
  induction s as [| c s IH]; intros i r H; cbn in H.
  - destruct (k [] i) eqn:E; cbn in H; [| discriminate]. injection H as <-.
    exists [], []. cbn. now rewrite Nat.add_0_r.
  - destruct (k (c :: s) i) eqn:E; cbn in H.
    + injection H as <-. exists [], (c :: s). cbn. now rewrite Nat.add_0_r.
    + destruct (p c) eqn:Hc; [| discriminate].
      destruct (IH _ _ H) as (g & rest & -> & Hg & Hk).
      exists (c :: g), rest. cbn. rewrite Hc, Hg.
      replace (i + S (length g))%nat with (S i + length g)%nat by lia. auto.
Qed.

Lemma rmatch_lit_inv (w : text) (k : cont) (s : text) (i : nat) (cs : list text) (r : mres) :
  rmatch (RLit w) k s i cs = Some r ->
  exists rest, s = w ++ rest /\ k rest (i + length w)%nat cs = Some r.
Proof.
  cbn. destruct (starts_with w s) eqn:E; [| discriminate].
  destruct (starts_with_inv _ _ E) as [rest ->]. rewrite skipn_length_app. eauto.
Qed.

Lemma rmatch_star_inv (p : ascii -> bool) (k : cont) (s : text) (i : nat)
  (cs : list text) (r : mres) :
  rmatch (RStar p) k s i cs = Some r ->
  exists g rest,
    s = g ++ rest /\ forallb p g = true /\ k rest (i + length g)%nat cs = Some r.
Proof. cbn. intros H. now apply rep_greedy_inv in H. Qed.

Lemma rmatch_plus_inv (p : ascii -> bool) (k : cont) (s : text) (i : nat)
  (cs : list text) (r : mres) :
  rmatch (RPlus p) k s i cs = Some r ->
  exists g rest,
    s = g ++ rest /\ g <> [] /\ forallb p g = true
    /\ k rest (i + length g)%nat cs = Some r.
Proof.
  cbn. destruct s as [| c s]; [discriminate |].
  destruct (p c) eqn:Hc; [| discriminate]. intros H.
  apply rep_greedy_inv in H as (g & rest & -> & Hg & Hk).
  exists (c :: g), rest. cbn. rewrite Hc, Hg.
  replace (i + S (length g))%nat with (S i + length g)%nat by lia.
  repeat split; auto.
Qed.

Lemma rmatch_group_eq (rs : list regex) (k : cont) (s : text) (i : nat) (cs : list text) :
  rmatch (RGroup rs) k s i cs =
    match_seq rs (fun s' i' cs' => k s' i' (cs' ++ [firstn (i' - i) s])) s i cs.
Proof. reflexivity. Qed.

Lemma rmatch_opt_eq (rs : list regex) (k : cont) (s : text) (i : nat) (cs : list text) :
  rmatch (ROpt rs) k s i cs = or_else (match_seq rs k s i cs) (k s i cs).
Proof. reflexivity. Qed.

(** A group around one repeated class captures a non-empty run of the
    class. *)
Lemma rmatch_group_plus_inv (p : ascii -> bool) (k : cont) (s : text) (i : nat)
  (cs : list text) (r : mres) :
  rmatch (RGroup [RPlus p]) k s i cs = Some r ->
  exists g rest,
    s = g ++ rest /\ g <> [] /\ forallb p g = true
    /\ k rest (i + length g)%nat (cs ++ [g]) = Some r.
Proof.
  rewrite rmatch_group_eq. cbn [match_seq]. intros H.
  apply rmatch_plus_inv in H as (g & rest & -> & Hne & Hg & Hk).
  rewrite firstn_consumed in Hk. eauto 10.
Qed.

Lemma rmatch_bol_inv (k : cont) (s : text) (i : nat) (cs : list text) (r : mres) :
  rmatch RBol k s i cs = Some r -> i = 0%nat /\ k s i cs = Some r.
Proof. cbn. destruct (Nat.eqb_spec i 0); [auto | discriminate]. Qed.

Lemma rmatch_eol_accept_inv (s : text) (i : nat) (cs : list text) (r : mres) :
  rmatch REol accept s i cs = Some r ->
  r = (cs, s) /\ (s = [] \/ s = [chr 10]).
Proof.
  cbn. destruct s as [| c [| c' s]]; unfold accept.
  - intros [= <-]. auto.
  - destruct (N.eqb (code c) 10) eqn:E; [| discriminate]. intros [= <-].
    split; [reflexivity |]. right. f_equal. apply code_inj.
    apply N.eqb_eq in E. rewrite E. reflexivity.
  - discriminate.
Qed.

Lemma search_from_inv (pattern : list regex) :
  forall (s : text) (i j : nat) (m : mres),
    search_from pattern s i = Some (j, m) ->
    exists skipped s', s = skipped ++ s' /\ match_seq pattern accept s' j [] = Some m.
Proof.
  induction s as [| c s IH]; intros i j m H; cbn in H.
  - destruct (match_seq pattern accept [] i []) eqn:E; [| discriminate].
    injection H as <- <-. exists [], []. auto.
  - destruct (match_seq pattern accept (c :: s) i []) eqn:E.
    + injection H as <- <-. exists [], (c :: s). auto.
    + destruct (IH _ _ _ H) as (sk & s' & -> & Hm). exists (c :: sk), s'. auto.
Qed.

Lemma re_search_inv (pattern : list regex) (s : text) (cs : list text) :
  re_search pattern s = Some cs ->
  exists skipped s' j rest,
    s = skipped ++ s' /\ match_seq pattern accept s' j [] = Some (cs, rest).
Proof.
  unfold re_search. destruct (search_from pattern s 0) as [[j [cs' rest]] |] eqn:E;
    [| discriminate].
  intros [= <-]. apply search_from_inv in E as (sk & s' & -> & Hm). eauto 10.
Qed.

(** ** The missing-value pattern *)

Lemma missing_re_groups (line : text) (cs : list text) (rest : text) :
  re_match missing_re line = Some (cs, rest) ->
  exists name count,
    cs = [name; count] /\ count <> [] /\ forallb is_digit count = true
    /\ (length count <= length line)%nat.
Proof.
  unfold re_match, missing_re. cbn [match_seq]. intros H.
  apply rmatch_bol_inv in H as [_ H].
  apply rmatch_group_plus_inv in H as (name & s1 & -> & _ & _ & H).
  apply rmatch_plus_inv in H as (ws & s2 & -> & _ & _ & H).
  apply rmatch_group_plus_inv in H as (count & s3 & -> & Hne & Hd & H).
  apply rmatch_eol_accept_inv in H as [Heq _]. injection Heq as -> ->.
  exists name, count. repeat split; auto. rewrite !length_app. lia.
Qed.

(** * Integers written with digits *)

Lemma trim_id (p : ascii -> bool) (s : text) :
  forallb (fun c => negb (p c)) s = true ->
  rev (skip_while p (rev (skip_while p s))) = s.
Proof.
  intros H. rewrite forallb_forall in H.
  rewrite (skip_while_none p s).
  2:{ destruct s as [| c s]; [easy |]. apply negb_true_iff, H. now left. }
  rewrite skip_while_none; [apply rev_involutive |].
  destruct (rev s) as [| c r] eqn:E; [easy |].
  apply negb_true_iff, H, in_rev. rewrite E. now left.
Qed.

Lemma digit_facts (c : ascii) :
  is_digit c = true ->
  is_num_space c = false /\ is_space c = false
  /\ char_eqb c "-" = false /\ char_eqb c "+" = false.
Proof.
  destruct c as [[] [] [] [] [] [] [] []]; vm_compute; intuition congruence.
Qed.

Lemma digitpart_tail_digits (g : text) :
  forallb is_digit g = true -> digitpart_tail g = (g, []).
Proof.
  induction g as [| c g IH]; [reflexivity |]. cbn [forallb digitpart_tail].
  intros H. apply andb_true_iff in H as [Hc Hg]. now rewrite Hc, (IH Hg).
Qed.

Lemma pyint_digits_cases (g : text) :
  g <> [] -> forallb is_digit g = true ->
  pyint g = if (MAX_STR_DIGITS <? length g)%nat then Raise ValueError
            else Ok (digits_to_Z g).
Proof.
  intros Hne Hd. unfold pyint, num_strip.
  rewrite trim_id.
  2:{ rewrite forallb_forall in *. intros c Hc.
      apply negb_true_iff. now apply digit_facts, Hd. }
  destruct g as [| c g]; [congruence |]. pose proof Hd as Hd'. cbn [forallb] in Hd.
  apply andb_true_iff in Hd as [Hc Hg].
  destruct (digit_facts c Hc) as (_ & _ & Hm & Hp).
  unfold take_sign. rewrite Hm, Hp. unfold digitpart. rewrite Hc.
  now rewrite (digitpart_tail_digits g Hg).
Qed.

(** Digits within the limit are read as the number they write. *)
Lemma pyint_digits (g : text) :
  g <> [] -> forallb is_digit g = true -> (length g <= MAX_STR_DIGITS)%nat ->
  pyint g = Ok (digits_to_Z g).
Proof.
  intros Hne Hd Hlen. rewrite (pyint_digits_cases g Hne Hd).
  now rewrite (proj2 (Nat.ltb_ge _ _) Hlen).
Qed.

Lemma pyint_digits_long (g : text) :
  g <> [] -> forallb is_digit g = true -> (MAX_STR_DIGITS < length g)%nat ->
  pyint g = Raise ValueError.
Proof.
  intros Hne Hd Hlen. rewrite (pyint_digits_cases g Hne Hd).
  now rewrite (proj2 (Nat.ltb_lt _ _) Hlen).
Qed.

(** * The lengths of lines and of stripped text *)

Lemma skip_while_length (p : ascii -> bool) (s : text) :
  (length (skip_while p s) <= length s)%nat.
Proof.
  induction s as [| c s IH]; [reflexivity |]. cbn [skip_while].
  destruct (p c); cbn [length]; lia.
Qed.

Lemma strip_length (s : text) : (length (strip s) <= length s)%nat.
Proof.
  unfold strip, rstrip, lstrip. rewrite length_rev.
  etransitivity; [apply skip_while_length |]. rewrite length_rev.
  apply skip_while_length.
Qed.

Lemma rstrip_length (s : text) : (length (rstrip s) <= length s)%nat.
Proof.
  unfold rstrip, lstrip. rewrite length_rev.
  etransitivity; [apply skip_while_length |]. now rewrite length_rev.
Qed.

Lemma splitlines_from_length (n : nat) :
  forall (s cur : text),
    (length s <= n)%nat ->
    Forall (fun line => (length line <= length cur + length s)%nat) (splitlines_from cur s).
Proof.
  induction n as [| n IH]; intros s cur Hn.
  - destruct s as [| c s]; [| cbn in Hn; lia]. cbn [splitlines_from].
    destruct cur; constructor; [| constructor]. rewrite length_rev. lia.
  - destruct s as [| c s].
    + cbn [splitlines_from]. destruct cur; constructor; [| constructor].
      rewrite length_rev. lia.
    + cbn [length] in Hn. cbn [splitlines_from]. destruct (is_linebreak c).
      * destruct s as [| c' s'].
        -- constructor; [| constructor]. rewrite length_rev. lia.
        -- destruct (N.eqb (code c) 13 && N.eqb (code c') 10)%bool.
           ++ constructor; [rewrite length_rev; lia |].
              eapply Forall_impl; [apply (IH s' []); cbn in Hn; lia |].
              cbn. intros line H. lia.
           ++ constructor; [rewrite length_rev; lia |].
              eapply Forall_impl; [apply (IH (c' :: s') []); lia |].
              cbn. intros line H. cbn in H. lia.
      * eapply Forall_impl; [apply (IH s (c :: cur)); lia |].
        cbn. intros line H. lia.
Qed.

Lemma splitlines_length (txt : text) :
  Forall (fun line => (length line <= length txt)%nat) (splitlines txt).
Proof. exact (splitlines_from_length (length txt) txt [] (Nat.le_refl _)). Qed.

(** * The missing-value table *)

Lemma usable_denominator_spec (d : option Z) :
  match usable_denominator d with
  | Some n => d = Some n /\ 0 < n
  | None => ~ positive_denominator d
  end.
Proof.
  unfold usable_denominator, positive_denominator.
  destruct d as [n |]; [| intros (n & [=] & _)].
  destruct (Z.ltb_spec 0 n); destruct (Z.eqb_spec n 0); cbn; try (split; [reflexivity | lia]).
  - lia.
  - intros (m & [= <-] & Hm). lia.
  - intros (m & [= <-] & Hm). lia.
Qed.

Lemma int_truediv_positive (a n : Z) :
  0 < n ->
  (exists q, int_truediv a n = Ok q) \/ int_truediv a n = Raise OverflowError.
Proof.
  intros Hn. unfold int_truediv.
  destruct (Z.eqb_spec n 0); [lia |].
  destruct (a =? 0); [left; eauto |].
  destruct (ratio_to_float _ _ _); eauto.
Qed.

(** One line of the table: nothing for a line that does not match, else
    one row, whose percentage is there exactly with a positive
    denominator; the failures are a count beyond the digit limit, in a line
    longer than the limit, and a quotient out of the float range. *)
Lemma missing_line_spec (d : option Z) (rows : list missing_row) (raw : text) :
  match missing_entry raw with
  | None => missing_line d rows raw = Ok rows
  | Some (name, count) =>
      ((MAX_STR_DIGITS < length raw)%nat /\ missing_line d rows raw = Raise ValueError)
      \/ match usable_denominator d with
         | None =>
             missing_line d rows raw =
               Ok (rows ++ [{| missing_feature := name; missing_count := count;
                               missing_pct := None |}])
         | Some _ =>
             (exists pct,
                missing_line d rows raw =
                  Ok (rows ++ [{| missing_feature := name; missing_count := count;
                                  missing_pct := Some pct |}]))
             \/ missing_line d rows raw = Raise OverflowError
         end
  end.
Proof.
  unfold missing_entry, missing_line. pose proof (strip_length raw) as Hlen.
  destruct (strip raw) as [| c line] eqn:Hline; [reflexivity |].
  destruct (starts_with (T "dtype:") (c :: line)); [reflexivity |].
  destruct (re_match missing_re (c :: line)) as [[cs rest] |] eqn:Hm; [| reflexivity].
  destruct (missing_re_groups _ _ _ Hm) as (name & count & -> & Hne & Hd & Hcount).
  change (group 2 [name; count]) with count.
  change (group 1 [name; count]) with name.
  rewrite (pyint_digits_cases count Hne Hd).
  destruct (Nat.ltb_spec MAX_STR_DIGITS (length count)) as [Hlong | Hshort]; cbn [bind].
  { left. split; [lia | reflexivity]. }
  right. pose proof (usable_denominator_spec d) as Hu.
  destruct (usable_denominator d) as [n |]; [| reflexivity].
  destruct Hu as [_ Hpos].
  destruct (int_truediv_positive (digits_to_Z count) n Hpos) as [[q ->] | ->]; cbn [bind].
  - left. eauto.
  - now right.
Qed.

Lemma missing_table_spec (d : option Z) (lines : list text) :
  forall rows0 : list missing_row,
    (forall rows,
        for_each (missing_line d) lines rows0 = Ok rows ->
        exists new,
          rows = rows0 ++ new
          /\ map row_key new = omap missing_entry lines
          /\ Forall (fun r => is_Some (missing_pct r) <-> positive_denominator d) new)
    /\ (~ positive_denominator d ->
        Forall (fun line => (length line <= MAX_STR_DIGITS)%nat) lines ->
        exists rows, for_each (missing_line d) lines rows0 = Ok rows)
    /\ (forall e,
          for_each (missing_line d) lines rows0 = Raise e ->
          (e = ValueError /\ Exists (fun line => (MAX_STR_DIGITS < length line)%nat) lines)
          \/ (e = OverflowError /\ positive_denominator d)).
Proof.
  induction lines as [| raw lines IH]; intros rows0.
  - cbn. repeat split.
    + intros rows [= <-]. exists []. rewrite app_nil_r. auto.
    + eauto.
    + discriminate.
  - cbn [for_each].
    change (omap missing_entry (raw :: lines))
      with (match missing_entry raw with
            | Some y => y :: omap missing_entry lines
            | None => omap missing_entry lines
            end).
    pose proof (missing_line_spec d rows0 raw) as Hline.
    pose proof (usable_denominator_spec d) as Hu.
    assert (forall e,
              (e = ValueError
               /\ Exists (fun line => (MAX_STR_DIGITS < length line)%nat) lines)
              \/ (e = OverflowError /\ positive_denominator d) ->
              (e = ValueError
               /\ Exists (fun line => (MAX_STR_DIGITS < length line)%nat) (raw :: lines))
              \/ (e = OverflowError /\ positive_denominator d)) as Hlater.
    { intros e [[He Hex] | He]; [left; split; [exact He | now apply Exists_cons_tl] |].
      now right. }
    destruct (missing_entry raw) as [[name count] |].
    + destruct Hline as [[Hlong ->] | Hline].
      { cbn [bind]. repeat split.
        - discriminate.
        - intros _ Hall. apply Forall_cons_1 in Hall as [Hshort _]. lia.
        - intros e [= <-]. left. split; [reflexivity | now apply Exists_cons_hd]. }
      destruct (usable_denominator d) as [n |].
      * destruct Hline as [[pct ->] | ->]; cbn [bind].
        -- destruct (IH (rows0 ++ [{| missing_feature := name; missing_count := count;
                                      missing_pct := Some pct |}])) as (H1 & H2 & H3).
           repeat split;
             [| intros Hno; destruct Hno; now exists n | intros e He; apply Hlater, H3, He].
           intros rows Hrows. destruct (H1 rows Hrows) as (new & -> & Hk & Hf).
           eexists (_ :: new). rewrite <- app_assoc. split; [reflexivity |].
           cbn. split; [now rewrite Hk |].
           constructor; [| exact Hf]. cbn. split; [intros _; now exists n | eauto].
        -- repeat split; [discriminate | |].
           ++ intros Hno. destruct Hno. now exists n.
           ++ intros e [= <-]. right. split; [reflexivity |]. now exists n.
      * rewrite Hline. cbn [bind].
        destruct (IH (rows0 ++ [{| missing_feature := name; missing_count := count;
                                   missing_pct := None |}])) as (H1 & H2 & H3).
        repeat split.
        -- intros rows Hrows. destruct (H1 rows Hrows) as (new & -> & Hk & Hf).
           eexists (_ :: new). rewrite <- app_assoc. split; [reflexivity |].
           cbn. split; [now rewrite Hk |].
           constructor; [| exact Hf]. cbn.
           split; [intros [x [=]] | intros H; now destruct Hu].
        -- intros Hno Hall. apply Forall_cons_1 in Hall as [_ Hall]. now apply H2.
        -- intros e He. apply Hlater, H3, He.
    + rewrite Hline. cbn [bind]. destruct (IH rows0) as (H1 & H2 & H3).
      repeat split.
      * exact H1.
      * intros Hno Hall. apply Forall_cons_1 in Hall as [_ Hall]. now apply H2.
      * intros e He. apply Hlater, H3, He.
Qed.


Lemma long_line_long_text (txt : text) :
  Exists (fun line => (MAX_STR_DIGITS < length line)%nat) (splitlines txt) ->
  (MAX_STR_DIGITS < length txt)%nat.
Proof.
  intros H. apply Exists_exists in H as (line & Hin & Hlong).
  pose proof (splitlines_length txt) as Hall. rewrite Forall_forall in Hall.
  specialize (Hall line Hin). lia.
Qed.



(** * The order of floats that are not NaN *)

Ltac lex_cases :=
  unfold lex_compare;
  repeat match goal with
         | x : (Z * Z * Z)%type |- _ => destruct x as [[? ?] ?]
         end;
  repeat match goal with
         | |- context [?a ?= ?b] => destruct (Z.compare_spec a b)
         | H : context [?a ?= ?b] |- _ => destruct (Z.compare_spec a b)
         end;
  subst; cbn in *; try congruence; try lia.

Lemma lex_compare_trans (x y z : Z * Z * Z) :
  lex_compare x y <> Gt -> lex_compare y z <> Gt -> lex_compare x z <> Gt.
Proof. lex_cases. Qed.

Lemma lex_compare_antisym (x y : Z * Z * Z) :
  lex_compare y x = CompOpp (lex_compare x y).
Proof. lex_cases. Qed.

Lemma lex_compare_eq_lt (x y z : Z * Z * Z) :
  lex_compare x y = Eq -> lex_compare y z = Lt -> lex_compare x z = Lt.
Proof. lex_cases. Qed.

Lemma SFcompare_rank (x y : spec_float) :
  is_nan x = false -> is_nan y = false ->
  SFcompare x y = Some (lex_compare (rank x) (rank y)).
Proof.
  destruct x as [sx | sx | | sx mx ex], y as [sy | sy | | sy my ey];
    try discriminate; intros _ _;
    try (destruct sx); try (destruct sy); try reflexivity.
  cbn. rewrite Z.compare_opp, (Z.compare_antisym ex ey).
  now destruct (ex ?= ey).
Qed.

Lemma float_geb_rank (a b : spec_float) :
  is_nan a = false -> is_nan b = false ->
  float_geb a b = true <-> lex_compare (rank b) (rank a) <> Gt.
Proof.
  intros Ha Hb. unfold float_geb, SFleb. rewrite (SFcompare_rank b a Hb Ha).
  destruct (lex_compare (rank b) (rank a)); split; congruence.
Qed.

Lemma float_geb_trans (a b c : spec_float) :
  is_nan a = false -> is_nan b = false -> is_nan c = false ->
  float_geb a b = true -> float_geb b c = true -> float_geb a c = true.
Proof.
  intros Ha Hb Hc. rewrite !float_geb_rank by assumption.
  intros H1 H2. eapply lex_compare_trans; eassumption.
Qed.

Lemma float_not_lt_geb (a b : spec_float) :
  is_nan a = false -> is_nan b = false ->
  float_ltb a b = false -> float_geb a b = true.
Proof.
  intros Ha Hb. rewrite float_geb_rank by assumption.
  unfold float_ltb, SFltb. rewrite (SFcompare_rank a b Ha Hb).
  rewrite (lex_compare_antisym (rank a) (rank b)).
  destruct (lex_compare (rank a) (rank b)); cbn; congruence.
Qed.

Lemma float_lt_geb (a b : spec_float) : float_ltb a b = true -> float_geb b a = true.
Proof.
  unfold float_ltb, float_geb, SFltb, SFleb. now destruct (SFcompare a b) as [[] |].
Qed.

Lemma SFeqb_not_nan (a b : spec_float) :
  SFeqb a b = true -> is_nan a = false /\ is_nan b = false.
Proof. destruct a, b; cbn; auto; discriminate. Qed.

Lemma float_ltb_not_nan (a b : spec_float) :
  float_ltb a b = true -> is_nan a = false /\ is_nan b = false.
Proof. destruct a, b; cbn; auto; discriminate. Qed.

Lemma float_eq_lt (k a b : spec_float) :
  SFeqb k a = true -> float_ltb a b = true -> SFeqb k b = false.
Proof.
  intros He Hl.
  destruct (SFeqb_not_nan _ _ He) as [Hk Ha].
  destruct (float_ltb_not_nan _ _ Hl) as [_ Hb].
  unfold SFeqb, float_ltb, SFltb in *.
  rewrite (SFcompare_rank k a Hk Ha) in He.
  rewrite (SFcompare_rank a b Ha Hb) in Hl.
  rewrite (SFcompare_rank k b Hk Hb).
  destruct (lex_compare (rank k) (rank a)) eqn:E1; try discriminate.
  destruct (lex_compare (rank a) (rank b)) eqn:E2; try discriminate.
  now rewrite (lex_compare_eq_lt _ _ _ E1 E2).
Qed.

(** * The stable descending sort *)

Section Sorting.
Context {R : Type} (key : R -> spec_float).

Lemma insert_desc_perm (x : R) (l : list R) :
  Permutation (insert_desc key x l) (x :: l).
Proof.
  induction l as [| y l IH]; cbn; [reflexivity |].
  destruct (float_ltb (key x) (key y)); [| reflexivity].
  rewrite IH. apply perm_swap.
Qed.

Lemma sort_desc_perm (l : list R) : Permutation (sort_desc key l) l.
Proof.
  induction l as [| x l IH]; cbn; [reflexivity |].
  rewrite insert_desc_perm. now constructor.
Qed.

Lemma insert_desc_sorted (x : R) (l : list R) :
  is_nan (key x) = false ->
  Forall (fun r => is_nan (key r) = false) l ->
  sorted_desc key l -> sorted_desc key (insert_desc key x l).
Proof.
  intros Hx Hl Hs. induction Hs as [| y l Hs IH Hy]; cbn.
  - constructor; constructor.
  - inversion Hl as [| ? ? Hny Hnl]; subst.
    destruct (float_ltb (key x) (key y)) eqn:E.
    + constructor; [now apply IH |].
      eapply Permutation_Forall; [symmetry; apply insert_desc_perm |].
      constructor; [now apply float_lt_geb | exact Hy].
    + pose proof (float_not_lt_geb _ _ Hx Hny E) as Hxy.
      constructor; [now constructor |].
      constructor; [exact Hxy |].
      rewrite Forall_forall in *. intros z Hz.
      eapply (float_geb_trans (key x) (key y) (key z)); auto.
Qed.

Lemma sort_desc_sorted (l : list R) :
  Forall (fun r => is_nan (key r) = false) l -> sorted_desc key (sort_desc key l).
Proof.
  induction l as [| x l IH]; intros H; cbn; [constructor |].
  inversion H; subst. apply insert_desc_sorted; auto.
  eapply Permutation_Forall; [symmetry; apply sort_desc_perm | assumption].
Qed.

Lemma insert_desc_with_key (k : spec_float) (x : R) (l : list R) :
  with_key key k (insert_desc key x l) = with_key key k (x :: l).
Proof.
  unfold with_key. induction l as [| y l IH]; [reflexivity |].
  cbn [insert_desc]. destruct (float_ltb (key x) (key y)) eqn:E; [| reflexivity].
  cbn [List.filter] in *. rewrite IH.
  destruct (SFeqb k (key x)) eqn:Ex; [| reflexivity].
  now rewrite (float_eq_lt _ _ _ Ex E).
Qed.

Lemma sort_desc_with_key (k : spec_float) (l : list R) :
  with_key key k (sort_desc key l) = with_key key k l.
Proof.
  induction l as [| x l IH]; [reflexivity |].
  cbn [sort_desc fold_right]. rewrite insert_desc_with_key.
  unfold with_key in *. cbn [List.filter]. fold (sort_desc key l). now rewrite IH.
Qed.

(** The first rows of the sorted list rank the list. *)
Lemma sort_desc_ranks (rows : list R) :
  Forall (fun r => is_nan (key r) = false) rows ->
  ranks key rows (firstn TOP_ALERTS (sort_desc key rows)).
Proof.
  intros H. exists (sort_desc key rows). split; [reflexivity |].
  split; [apply sort_desc_perm |]. split; [now apply sort_desc_sorted |].
  intros k. apply sort_desc_with_key.
Qed.
End Sorting.

(** * Parsed percentages are never NaN *)

Lemma iter_pos_invariant {A : Type} (P : A -> Prop) (f : A -> A) :
  (forall x, P x -> P (f x)) -> forall (n : positive) (x : A), P x -> P (SpecFloat.iter_pos f n x).
Proof.
  intros Hf. induction n as [n IH | n IH |]; intros x Hx; cbn; auto.
Qed.

Lemma shr_1_nonneg (mrs : shr_record) : 0 <= shr_m mrs -> 0 <= shr_m (shr_1 mrs).
Proof.
  destruct mrs as [m r s]. cbn. destruct m as [| p | p]; [easy | | lia].
  destruct p; cbn; lia.
Qed.

Lemma shr_nonneg (mrs : shr_record) (e n : Z) :
  0 <= shr_m mrs -> 0 <= shr_m (fst (shr mrs e n)).
Proof.
  intros H. unfold shr. destruct n; cbn; try assumption.
  apply (iter_pos_invariant (fun x => 0 <= shr_m x)); [apply shr_1_nonneg | assumption].
Qed.

Lemma shr_fexp_nonneg (m e : Z) (l : location) :
  0 <= m -> 0 <= shr_m (fst (shr_fexp prec emax m e l)).
Proof.
  intros H. unfold shr_fexp. apply shr_nonneg.
  destruct l as [| []]; exact H.
Qed.

Lemma round_nearest_even_nonneg (m : Z) (l : location) :
  0 <= m -> 0 <= round_nearest_even m l.
Proof.
  intros H. unfold round_nearest_even. destruct l as [| []]; try lia.
  destruct (Z.even m); lia.
Qed.

Lemma binary_round_aux_not_nan (sx : bool) (mx ex : Z) (lx : location) :
  0 <= mx -> is_nan (binary_round_aux prec emax sx mx ex lx) = false.
Proof.
  intros H. unfold binary_round_aux.
  pose proof (shr_fexp_nonneg mx ex lx H) as H1.
  destruct (shr_fexp prec emax mx ex lx) as [mrs' e']. cbn [fst] in H1.
  pose proof (shr_fexp_nonneg _ e' loc_Exact
                (round_nearest_even_nonneg _ (loc_of_shr_record mrs') H1)) as H2.
  destruct (shr_fexp prec emax (round_nearest_even _ _) e' loc_Exact) as [mrs'' e''].
  cbn [fst] in H2. destruct (shr_m mrs'') as [| p | p]; [reflexivity | | lia].
  now destruct (e'' <=? emax - prec).
Qed.

Lemma ratio_to_float_not_nan (neg : bool) (n d : Z) :
  0 <= n -> 0 < d -> is_nan (ratio_to_float neg n d) = false.
Proof.
  intros Hn Hd. unfold ratio_to_float. destruct (n =? 0); [reflexivity |].
  unfold SFdiv_core_binary.
  set (s := _ - _ - Z.min _ _).
  set (m' := match s with Z0 => n | Zpos _ => Z.shiftl n s | Zneg _ => 0 end).
  assert (0 <= m') as Hm.
  { subst m'. destruct s; [assumption | now apply Z.shiftl_nonneg | lia]. }
  pose proof (Z.div_pos m' d Hm Hd) as Hq. unfold Z.div in Hq.
  destruct (Z.div_eucl m' d) as [q r]. apply binary_round_aux_not_nan. exact Hq.
Qed.

Lemma decimal_to_float_not_nan (neg : bool) (m e : Z) :
  0 <= m -> is_nan (decimal_to_float neg m e) = false.
Proof.
  intros Hm. unfold decimal_to_float.
  destruct (m =? 0); [reflexivity |].
  destruct ((0 <? e) && (1100 <? 3 * e + Z.log2 m))%bool; [reflexivity |].
  destruct ((e <? 0) && (Z.log2 m + 1 + 3 * e <? -1100))%bool; [reflexivity |].
  destruct (Z.leb_spec 0 e); apply ratio_to_float_not_nan; try lia.
  all: first [ apply Z.mul_nonneg_nonneg; [assumption | apply Z.pow_nonneg; lia]
             | apply Z.pow_pos_nonneg; lia ].
Qed.

Lemma digitpart_tail_digits_only (n : nat) :
  forall s : text, (length s <= n)%nat ->
    forallb is_digit (fst (digitpart_tail s)) = true.
Proof.
  induction n as [| n IH]; intros s Hlen; destruct s as [| c s]; cbn in *;
    try reflexivity; try lia.
  destruct (is_digit c) eqn:Hc.
  - pose proof (IH s ltac:(lia)) as H. destruct (digitpart_tail s). cbn in *.
    now rewrite Hc, H.
  - destruct (char_eqb c "_"); [| reflexivity].
    destruct s as [| d s]; [reflexivity |].
    destruct (is_digit d) eqn:Hd; [| reflexivity].
    pose proof (IH s ltac:(cbn in Hlen; lia)) as H. destruct (digitpart_tail s).
    cbn in *. now rewrite Hd, H.
Qed.

Lemma digitpart_digits (s ds r : text) :
  digitpart s = Some (ds, r) -> forallb is_digit ds = true.
Proof.
  unfold digitpart. destruct s as [| c s]; [discriminate |].
  destruct (is_digit c) eqn:Hc; [| discriminate].
  pose proof (digitpart_tail_digits_only (length s) s (Nat.le_refl _)) as H.
  destruct (digitpart_tail s) as [ds' r']. intros [= <- <-]. cbn in *.
  now rewrite Hc, H.
Qed.

Lemma float_number_digits (s ip fp r : text) :
  float_number s = Some (ip, fp, r) -> forallb is_digit (ip ++ fp) = true.
Proof.
  unfold float_number.
  destruct (digitpart s) as [[ip' r1] |] eqn:E1.
  - apply digitpart_digits in E1.
    destruct r1 as [| c r1]; [intros [= <- <- <-]; now rewrite app_nil_r |].
    destruct (char_eqb c ".").
    + destruct (digitpart r1) as [[fp' r2] |] eqn:E2.
      * apply digitpart_digits in E2. intros [= <- <- <-].
        rewrite forallb_app. now rewrite E1, E2.
      * intros [= <- <- <-]. now rewrite app_nil_r.
    + intros [= <- <- <-]. now rewrite app_nil_r.
  - destruct s as [| c s]; [discriminate |].
    destruct (char_eqb c "."); [| discriminate].
    destruct (digitpart s) as [[fp' r2] |] eqn:E2; [| discriminate].
    apply digitpart_digits in E2. intros [= <- <- <-]. exact E2.
Qed.

Lemma digit_value_nonneg (c : ascii) : is_digit c = true -> 0 <= digit_value c.
Proof.
  unfold is_digit, digit_value. intros H. apply andb_true_iff in H as [H _].
  apply N.leb_le in H. lia.
Qed.

Lemma digits_to_Z_nonneg (ds : text) : forallb is_digit ds = true -> 0 <= digits_to_Z ds.
Proof.
  unfold digits_to_Z.
  assert (forall acc, 0 <= acc -> forallb is_digit ds = true ->
                      0 <= fold_left (fun acc c => acc * 10 + digit_value c) ds acc) as H.
  { induction ds as [| c ds IH]; intros acc Hacc H; cbn in *; [assumption |].
    apply andb_true_iff in H as [Hc Hds]. apply IH; [| assumption].
    pose proof (digit_value_nonneg c Hc). lia. }
  apply H. lia.
Qed.

Lemma pyfloat_raises (s : text) (e : exn) : pyfloat s = Raise e -> e = ValueError.
Proof.
  unfold pyfloat. destruct (take_sign (num_strip s)) as [neg body].
  repeat match goal with
         | |- context [if ?b then _ else _] => destruct b
         | |- context [match ?x with _ => _ end] => destruct x
         end; congruence.
Qed.

Lemma pyint_raises (s : text) (e : exn) : pyint s = Raise e -> e = ValueError.
Proof.
  unfold pyint. destruct (take_sign (num_strip s)) as [neg body].
  repeat match goal with
         | |- context [match ?x with _ => _ end] => destruct x
         end; congruence.
Qed.

(** A float read from text is a NaN only when the text spells it. *)
Lemma pyfloat_nan_spelled (s : text) (f : spec_float) :
  pyfloat s = Ok f -> is_nan f = true ->
  lower (snd (take_sign (num_strip s))) = T "nan".
Proof.
  unfold pyfloat. destruct (take_sign (num_strip s)) as [neg body]. cbn [snd].
  destruct (text_eqb (lower body) (T "inf") || text_eqb (lower body) (T "infinity"))%bool;
    [intros [= <-]; discriminate |].
  destruct (text_eqb (lower body) (T "nan")) eqn:E;
    [intros _ _; now apply text_eqb_eq in E |].
  destruct (float_number body) as [[[ip fp] r] |] eqn:En; [| discriminate].
  destruct (float_exponent r) as [[ex [| ? ?]] |]; try discriminate.
  intros [= <-] Hnan.
  rewrite decimal_to_float_not_nan in Hnan; [discriminate |].
  apply digits_to_Z_nonneg. eapply float_number_digits, En.
Qed.

(** ** Text made of digits and points *)

Lemma dec_char_facts (c : ascii) :
  dec_char c = true ->
  is_space c = false /\ is_num_space c = false
  /\ char_eqb c "-" = false /\ char_eqb c "+" = false
  /\ char_eqb "," c = false /\ lower_char c = c
  /\ char_eqb c "n" = false.
Proof.
  destruct c as [[] [] [] [] [] [] [] []]; vm_compute; intuition congruence.
Qed.

Lemma forallb_skip_while (q p : ascii -> bool) (s : text) :
  forallb q s = true -> forallb q (skip_while p s) = true.
Proof.
  induction s as [| c s IH]; [reflexivity |]. cbn. intros H.
  destruct (p c); [| exact H]. apply andb_true_iff in H as [_ H]. auto.
Qed.

Lemma forallb_rev (q : ascii -> bool) (s : text) :
  forallb q (rev s) = forallb q s.
Proof.
  induction s as [| c s IH]; [reflexivity |]. cbn.
  rewrite forallb_app, IH. cbn. rewrite andb_true_r. apply andb_comm.
Qed.

Lemma forallb_trim (q p : ascii -> bool) (s : text) :
  forallb q s = true -> forallb q (rev (skip_while p (rev (skip_while p s)))) = true.
Proof.
  intros H. rewrite forallb_rev. apply forallb_skip_while.
  rewrite forallb_rev. now apply forallb_skip_while.
Qed.

Lemma forallb_remove_char (q : ascii -> bool) (c : ascii) (s : text) :
  forallb q s = true -> forallb q (remove_char c s) = true.
Proof.
  unfold remove_char. induction s as [| x s IH]; [reflexivity |]. cbn.
  intros H. apply andb_true_iff in H as [Hx Hs].
  destruct (negb (char_eqb c x)); cbn; [rewrite Hx |]; auto.
Qed.

Lemma forallb_take_sign (q : ascii -> bool) (s : text) :
  forallb q s = true -> forallb q (snd (take_sign s)) = true.
Proof.
  unfold take_sign. destruct s as [| c s]; [reflexivity |]. cbn. intros H.
  destruct (char_eqb c "-"); [now apply andb_true_iff in H |].
  destruct (char_eqb c "+"); [now apply andb_true_iff in H |]. exact H.
Qed.

Lemma dec_text_not_nan_word (body : text) :
  forallb dec_char body = true -> lower body <> T "nan".
Proof.
  destruct body as [| c body]; [discriminate |]. cbn. intros H Heq.
  apply andb_true_iff in H as [Hc _].
  destruct (dec_char_facts c Hc) as (_ & _ & _ & _ & _ & Hl & Hn).
  injection Heq as Hc' _. rewrite Hl in Hc'. subst c. discriminate.
Qed.

Lemma parse_float_dec_not_nan (g : text) (f : spec_float) :
  forallb dec_char g = true -> parse_float g = Ok f -> is_nan f = false.
Proof.
  intros Hg Hf. destruct (is_nan f) eqn:E; [| reflexivity]. exfalso.
  rewrite parse_float_commas in Hf.
  apply (dec_text_not_nan_word _ (forallb_take_sign _ _
           (forallb_trim dec_char is_num_space _
              (forallb_trim dec_char is_space _ (forallb_remove_char _ "," _ Hg))))).
  exact (pyfloat_nan_spelled _ _ Hf E).
Qed.

Lemma parse_float_raises (g : text) (e : exn) : parse_float g = Raise e -> e = ValueError.
Proof. apply pyfloat_raises. Qed.

Lemma parse_int_raises (g : text) (e : exn) : parse_int g = Raise e -> e = ValueError.
Proof. apply pyint_raises. Qed.

(** ** The alert patterns *)

Lemma accept_inv (s : text) (i : nat) (cs : list text) (r : mres) :
  accept s i cs = Some r -> r = (cs, s).
Proof. unfold accept. now intros [= <-]. Qed.

Lemma count_pct_re_groups (what : string) (s : text) (cs : list text) :
  re_search (count_pct_re what) s = Some cs ->
  exists n p, cs = [n; p] /\ forallb dec_char p = true.
Proof.
  intros H. apply re_search_inv in H as (sk & s' & j & rest & _ & H).
  unfold count_pct_re in H. cbn [match_seq] in H.
  apply rmatch_lit_inv in H as (s1 & -> & H).
  apply rmatch_plus_inv in H as (w1 & s2 & -> & _ & _ & H).
  apply rmatch_group_plus_inv in H as (n & s3 & -> & _ & _ & H).
  apply rmatch_plus_inv in H as (w2 & s4 & -> & _ & _ & H).
  apply rmatch_lit_inv in H as (s5 & -> & H).
  apply rmatch_group_plus_inv in H as (p & s6 & -> & _ & Hp & H).
  apply rmatch_lit_inv in H as (s7 & -> & H).
  apply rmatch_plus_inv in H as (w3 & s8 & -> & _ & _ & H).
  apply rmatch_lit_inv in H as (s9 & -> & H).
  apply accept_inv in H. injection H as -> _. exists n, p. auto.
Qed.

Lemma pct_re_groups (s : text) (cs : list text) :
  re_search pct_re s = Some cs ->
  exists p, cs = [p] /\ forallb dec_char p = true.
Proof.
  intros H. apply re_search_inv in H as (sk & s' & j & rest & _ & H).
  unfold pct_re in H. cbn [match_seq] in H.
  apply rmatch_lit_inv in H as (s1 & -> & H).
  apply rmatch_group_plus_inv in H as (p & s2 & -> & _ & Hp & H).
  apply rmatch_lit_inv in H as (s3 & -> & H).
  apply accept_inv in H. injection H as -> _. exists p. auto.
Qed.

Lemma parse_missing_alert_spec (a : alert) :
  match parse_missing_alert a with
  | Ok (Some r) => is_nan (ma_missing_pct r) = false
  | Ok None => True
  | Raise e => e = ValueError
  end.
Proof.
  unfold parse_missing_alert. destruct (negb _); [exact I |].
  destruct (re_search _ _) as [cs |] eqn:E; [| exact I].
  destruct (count_pct_re_groups _ _ _ E) as (n & p & -> & Hp).
  change (group 1 [n; p]) with n. change (group 2 [n; p]) with p.
  destruct (parse_int n) eqn:En; cbn [bind]; [| eapply parse_int_raises, En].
  destruct (parse_float p) eqn:Ep; cbn [bind]; [| eapply parse_float_raises, Ep].
  cbn. eapply parse_float_dec_not_nan; eassumption.
Qed.

Lemma parse_zero_alert_spec (a : alert) :
  match parse_zero_alert a with
  | Ok (Some r) => is_nan (za_zero_pct r) = false
  | Ok None => True
  | Raise e => e = ValueError
  end.
Proof.
  unfold parse_zero_alert. destruct (negb _); [exact I |].
  destruct (re_search _ _) as [cs |] eqn:E; [| exact I].
  destruct (count_pct_re_groups _ _ _ E) as (n & p & -> & Hp).
  change (group 1 [n; p]) with n. change (group 2 [n; p]) with p.
  destruct (parse_int n) eqn:En; cbn [bind]; [| eapply parse_int_raises, En].
  destruct (parse_float p) eqn:Ep; cbn [bind]; [| eapply parse_float_raises, Ep].
  cbn. eapply parse_float_dec_not_nan; eassumption.
Qed.

Lemma parse_imbalance_alert_spec (a : alert) :
  match parse_imbalance_alert a with
  | Ok (Some r) => is_nan (ia_dominant_pct r) = false
  | Ok None => True
  | Raise e => e = ValueError
  end.
Proof.
  unfold parse_imbalance_alert. destruct (negb _); [exact I |].
  destruct (re_search _ _) as [cs |] eqn:E; [| exact I].
  destruct (pct_re_groups _ _ E) as (p & -> & Hp).
  change (group 1 [p]) with p.
  destruct (parse_float p) eqn:Ep; cbn [bind]; [| eapply parse_float_raises, Ep].
  cbn. eapply parse_float_dec_not_nan; eassumption.
Qed.

(** * Ranked alert lists *)

Section Ranking.
Context {R : Type} (parse : alert -> outcome (option R)) (key : R -> spec_float).
Hypothesis parse_spec :
  forall a, match parse a with
            | Ok (Some r) => is_nan (key r) = false
            | Ok None => True
            | Raise e => e = ValueError
            end.

Lemma collect_alerts_spec (alert_rows : list alert) :
  forall rows0 : list R,
    Forall (fun r => is_nan (key r) = false) rows0 ->
    match for_each
            (fun rows a =>
               let* r := parse a in
               Ok (match r with Some row => rows ++ [row] | None => rows end))
            alert_rows rows0 with
    | Ok rows => Forall (fun r => is_nan (key r) = false) rows
    | Raise e => e = ValueError
    end.
Proof.
  induction alert_rows as [| a alert_rows IH]; intros rows0 H0; cbn [for_each].
  - exact H0.
  - pose proof (parse_spec a) as Ha.
    destruct (parse a) as [[r |] | e]; cbn [bind].
    + apply IH. apply Forall_app. split; [exact H0 |]. now constructor.
    + now apply IH.
    + exact Ha.
Qed.

Lemma top_alerts_spec (alert_rows : list alert) :
  match (let* sorted := ranked_alerts parse key alert_rows in
         Ok (firstn TOP_ALERTS sorted)) with
  | Ok top =>
      exists rows,
        collect_alerts parse alert_rows = Ok rows
        /\ ranks key rows top
        /\ (length top <= TOP_ALERTS)%nat
  | Raise e => e = ValueError
  end.
Proof.
  unfold ranked_alerts.
  pose proof (collect_alerts_spec alert_rows [] (List.Forall_nil _)) as H.
  fold (collect_alerts parse alert_rows) in H.
  destruct (collect_alerts parse alert_rows) as [rows | e]; cbn [bind]; [| exact H].
  exists rows. split; [reflexivity |]. split; [now apply sort_desc_ranks |].
  apply firstn_le_length.
Qed.
End Ranking.

(** C5. For every list of alerts, each of the three ranked lists, when it
    is produced, holds the first fifteen rows of its category sorted
    descending by the defining percentage, rows of equal percentage in
    the order in which they were met; the only other outcome is the
    [ValueError] of a percentage or count that is no number. *)
Theorem ranked_alert_lists_sorted_stable_truncated (alert_rows : list alert) :
  match top_missing_alerts alert_rows with
  | Ok top =>
      exists rows,
        collect_alerts parse_missing_alert alert_rows = Ok rows
        /\ ranks ma_missing_pct rows top /\ (length top <= TOP_ALERTS)%nat
  | Raise e => e = ValueError
  end
  /\ match top_zero_alerts alert_rows with
     | Ok top =>
         exists rows,
           collect_alerts parse_zero_alert alert_rows = Ok rows
           /\ ranks za_zero_pct rows top /\ (length top <= TOP_ALERTS)%nat
     | Raise e => e = ValueError
     end
  /\ match top_imbalance_alerts alert_rows with
     | Ok top =>
         exists rows,
           collect_alerts parse_imbalance_alert alert_rows = Ok rows
           /\ ranks ia_dominant_pct rows top /\ (length top <= TOP_ALERTS)%nat
     | Raise e => e = ValueError
     end.
Proof.
  split; [| split].
  - apply top_alerts_spec, parse_missing_alert_spec.
  - apply top_alerts_spec, parse_zero_alert_spec.
  - apply top_alerts_spec, parse_imbalance_alert_spec.
Qed.

(** * Byte sizes *)

Lemma or_else_none_r {A : Type} (a : option A) : or_else a None = a.
Proof. now destruct a. Qed.

(** A greedy run that must be taken whole: the text after it does not
    continue the run and the continuation refuses every shorter run. *)
Lemma rep_greedy_exact (p : ascii -> bool) (k : text -> nat -> option mres) (rest : text) :
  match rest with c :: _ => p c = false | [] => True end ->
  forall (g : text) (i : nat),
    forallb p g = true ->
    (forall g1 g2, g = g1 ++ g2 -> g2 <> [] -> k (g2 ++ rest) (i + length g1)%nat = None) ->
    rep_greedy p k (g ++ rest) i = k rest (i + length g)%nat.
Proof.
  intros Hrest. induction g as [| c g IH]; intros i Hg Hk.
  - cbn. rewrite Nat.add_0_r. destruct rest as [| c r]; [reflexivity |].
    cbn. now rewrite Hrest.
  - cbn in Hg. apply andb_true_iff in Hg as [Hc Hg]. cbn [app rep_greedy].
    rewrite Hc. rewrite (IH (S i) Hg).
    + pose proof (Hk [] (c :: g) eq_refl ltac:(discriminate)) as H0.
      cbn in H0. rewrite Nat.add_0_r in H0. rewrite H0, or_else_none_r.
      f_equal. cbn. lia.
    + intros g1 g2 -> Hne. specialize (Hk (c :: g1) g2 eq_refl Hne).
      cbn in Hk. now replace (S i + length g1)%nat with (i + S (length g1))%nat by lia.
Qed.

Lemma strip_ends (s : text) :
  match s with c :: _ => is_space c = false | [] => True end ->
  match rev s with c :: _ => is_space c = false | [] => True end ->
  strip s = s.
Proof.
  intros H1 H2. unfold strip, rstrip, lstrip.
  rewrite (skip_while_none is_space s H1), (skip_while_none is_space (rev s) H2).
  apply rev_involutive.
Qed.

Lemma remove_char_id (c : ascii) (s : text) :
  forallb (fun x => negb (char_eqb c x)) s = true -> remove_char c s = s.
Proof.
  unfold remove_char. induction s as [| x s IH]; [reflexivity |]. cbn. intros H.
  apply andb_true_iff in H as [Hx Hs]. now rewrite Hx, IH.
Qed.

Lemma dec_char_not_unit (c : ascii) :
  dec_char c = true ->
  ci_char "KMGT" c = false /\ ci_char "i" c = false /\ ci_char "B" c = false.
Proof.
  destruct c as [[] [] [] [] [] [] [] []]; vm_compute; intuition congruence.
Qed.

Lemma space_not_unit (c : ascii) :
  is_space c = true ->
  ci_char "KMGT" c = false /\ ci_char "i" c = false /\ ci_char "B" c = false
  /\ dec_char c = false.
Proof.
  destruct c as [[] [] [] [] [] [] [] []]; vm_compute; intuition congruence.
Qed.

(** The unit pattern does not start at a digit, a point or a blank. *)
Lemma unit_tail_refuses (c : ascii) (s : text) (i : nat) (cs : list text) :
  ci_char "KMGT" c = false -> ci_char "i" c = false -> ci_char "B" c = false ->
  match_seq unit_tail accept (c :: s) i cs = None.
Proof.
  intros H1 H2 H3. unfold unit_tail. cbn [match_seq].
  rewrite rmatch_group_eq. cbn [match_seq].
  rewrite rmatch_opt_eq. cbn [match_seq rmatch]. rewrite H1. cbn [or_else].
  rewrite H2. cbn [or_else]. now rewrite H3.
Qed.

Lemma rmatch_set_inv (p : ascii -> bool) (k : cont) (s : text) (i : nat)
  (cs : list text) (r : mres) :
  rmatch (RSet p) k s i cs = Some r ->
  exists c rest, s = c :: rest /\ p c = true /\ k rest (S i) cs = Some r.
Proof.
  cbn. destruct s as [| c s]; [discriminate |].
  destruct (p c) eqn:E; [| discriminate]. eauto.
Qed.

Lemma rmatch_opt_set_cases (p : ascii -> bool) (k : cont) (s : text) (i : nat)
  (cs : list text) (r : mres) :
  rmatch (ROpt [RSet p]) k s i cs = Some r ->
  (exists c rest, s = c :: rest /\ p c = true /\ k rest (S i) cs = Some r)
  \/ k s i cs = Some r.
Proof.
  rewrite rmatch_opt_eq. cbn [match_seq].
  destruct (rmatch (RSet p) k s i cs) eqn:E; cbn [or_else].
  - intros [= <-]. left. now apply rmatch_set_inv in E.
  - now right.
Qed.

Lemma rmatch_opt_set_inv (p : ascii -> bool) (k : cont) (s : text) (i : nat)
  (cs : list text) (r : mres) :
  rmatch (ROpt [RSet p]) k s i cs = Some r ->
  exists o rest,
    s = o ++ rest /\ (length o <= 1)%nat /\ k rest (i + length o)%nat cs = Some r.
Proof.
  intros H. apply rmatch_opt_set_cases in H as [(c & rest & -> & _ & Hk) | Hk].
  - exists [c], rest. cbn. replace (i + 1)%nat with (S i) by lia. auto.
  - exists [], s. cbn. rewrite Nat.add_0_r. auto.
Qed.

(** When the unit pattern matches a word, it captures the whole word. *)
Lemma unit_tail_captures (u : text) (i : nat) (cs : list text) (r : mres) :
  forallb (fun c => negb (is_space c)) u = true ->
  match_seq unit_tail accept u i cs = Some r -> r = (cs ++ [u], []).
Proof.
  intros Hu H. unfold unit_tail in H. cbn [match_seq] in H.
  rewrite rmatch_group_eq in H. cbn [match_seq] in H.
  apply rmatch_opt_set_inv in H as (o1 & s1 & -> & _ & H).
  apply rmatch_opt_set_inv in H as (o2 & s2 & -> & _ & H).
  apply rmatch_set_inv in H as (b & s3 & -> & _ & H).
  apply rmatch_eol_accept_inv in H as [-> Hend].
  assert (s3 = []) as ->.
  { destruct Hend as [-> | ->]; [reflexivity |].
    rewrite !forallb_app in Hu. cbn in Hu.
    repeat (apply andb_true_iff in Hu as [? Hu]). discriminate. }
  f_equal. f_equal. f_equal.
  replace (S (i + length o1 + length o2) - i)%nat
    with (length (o1 ++ o2 ++ [b])) by (rewrite !length_app; cbn; lia).
  rewrite <- (app_nil_r (o1 ++ o2 ++ [b])) at 2.
  rewrite <- !app_assoc. cbn.
  change (o1 ++ o2 ++ [b]) with (o1 ++ o2 ++ [b] ++ []).
  rewrite !app_assoc. rewrite app_nil_r. rewrite <- !app_assoc.
  apply firstn_all.
Qed.

Lemma factor_map_table (k : text) (f : Z) :
  factor_map !! k = Some f <-> In (k, f) UNIT_TABLE.
Proof.
  rewrite <- list_elem_of_In. unfold factor_map. symmetry.
  apply (elem_of_list_to_map (M := gmap text)).
  apply (bool_decide_unpack (NoDup (UNIT_TABLE.*1))). vm_compute. reflexivity.
Qed.

Lemma upper_char_inv (a b : ascii) :
  upper_char a = b -> is_upper_az b = true -> a = b \/ a = chr (code b + 32).
Proof.
  intros <-.
  destruct a as [[] [] [] [] [] [] [] []]; vm_compute; intros H;
    first [discriminate | now left | now right].
Qed.

Ltac unit_letters :=
  repeat match goal with
         | H : upper_char ?a :: _ = _ :: _ |- _ =>
             let Hc := fresh "Hc" in
             let Ht := fresh "Ht" in
             pose proof (f_equal (hd "000"%char) H) as Hc;
             pose proof (f_equal (@tl ascii) H) as Ht;
             cbn [hd tl] in Hc, Ht; clear H;
             apply upper_char_inv in Hc; [| reflexivity];
             destruct Hc as [-> | ->]
         end.

(** The letters of each class of the unit pattern, in capitals. *)
Lemma unit_class_letters (c : ascii) :
  (ci_char "KMGT" c = true -> In (upper_char c) (T "KMGT"))
  /\ (ci_char "i" c = true -> upper_char c = "I"%char)
  /\ (ci_char "B" c = true -> upper_char c = "B"%char).
Proof.
  destruct c as [[] [] [] [] [] [] [] []]; vm_compute;
    repeat split; intros H; first [discriminate | reflexivity | tauto].
Qed.

(** A word without whitespace that the unit pattern matches is one of the
    unit words up to case. *)
Lemma unit_tail_shape (u : text) (i : nat) (cs : list text) (r : mres) :
  forallb (fun c => negb (is_space c)) u = true ->
  match_seq unit_tail accept u i cs = Some r -> unit_shape u = true.
Proof.
  intros Hu H. unfold unit_tail in H. cbn [match_seq] in H.
  rewrite rmatch_group_eq in H. cbn [match_seq] in H.
  match type of H with
  | context [rmatch (RSet (ci_char "B")) ?k0] => set (k := k0) in H
  end.
  assert (forall s j ks, k s j ks = Some r -> s = [] \/ s = [chr 10]) as Hk.
  { intros s j ks Hm. subst k. cbn beta in Hm.
    now apply rmatch_eol_accept_inv in Hm as [_ Hm]. }
  clearbody k.
  assert (forall s j ks,
             rmatch (RSet (ci_char "B")) k s j ks = Some r ->
             exists b, s = [b] /\ upper_char b = "B"%char
                       \/ s = [b; chr 10] /\ upper_char b = "B"%char) as Hlast.
  { intros s j ks Hm. apply rmatch_set_inv in Hm as (b & rest & -> & Hb & Hm).
    apply Hk in Hm as [-> | ->]; exists b;
      [left | right]; (split; [reflexivity | now apply unit_class_letters]). }
  assert (forall s j ks,
             rmatch (ROpt [RSet (ci_char "i")])
               (rmatch (RSet (ci_char "B")) k) s j ks = Some r ->
             exists w tail, s = w ++ tail /\ (tail = [] \/ tail = [chr 10])
                            /\ (upper w = T "B" \/ upper w = T "IB")) as Hmid.
  { intros s j ks Hm.
    apply rmatch_opt_set_cases in Hm as [(c & rest & -> & Hc & Hm) | Hm];
      apply Hlast in Hm as [b [[-> Hb] | [-> Hb]]].
    - exists [c; b], []. apply unit_class_letters in Hc. cbn. rewrite Hc, Hb. auto.
    - exists [c; b], [chr 10]. apply unit_class_letters in Hc. cbn. rewrite Hc, Hb. auto.
    - exists [b], []. cbn. rewrite Hb. auto.
    - exists [b], [chr 10]. cbn. rewrite Hb. auto. }
  assert (exists w tail, u = w ++ tail /\ (tail = [] \/ tail = [chr 10])
                         /\ In (upper w) UNIT_WORDS) as (w & tail & -> & Htail & Hw).
  { apply rmatch_opt_set_cases in H as [(c & rest & -> & Hc & Hm) | Hm];
      apply Hmid in Hm as (w & tail & -> & Htail & Hw).
    - exists (c :: w), tail. split; [reflexivity |]. split; [exact Htail |].
      apply unit_class_letters in Hc. cbn [upper map]. fold (upper w).
      cbn [In T list_ascii_of_string] in Hc.
      destruct Hc as [<- | [<- | [<- | [<- | []]]]], Hw as [-> | ->];
        unfold UNIT_WORDS; cbn; tauto.
    - exists w, tail. split; [reflexivity |]. split; [exact Htail |].
      destruct Hw as [-> | ->]; unfold UNIT_WORDS; cbn; tauto. }
  assert (tail = []) as ->.
  { destruct Htail as [-> | ->]; [reflexivity |].
    rewrite forallb_app in Hu. apply andb_true_iff in Hu as [_ Hu]. discriminate. }
  rewrite app_nil_r. unfold unit_shape. apply existsb_exists.
  exists (upper w). split; [exact Hw | now apply text_eqb_eq].
Qed.

(** Every case variant of a unit word is matched by the unit pattern. *)
Lemma unit_shape_accepts (u : text) (i : nat) (cs : list text) :
  unit_shape u = true -> match_seq unit_tail accept u i cs <> None.
Proof.
  unfold unit_shape. intros H. apply existsb_exists in H as (w & Hw & H).
  apply text_eqb_eq in H. subst w. unfold UNIT_WORDS in Hw. cbn [In map] in Hw.
  destruct Hw as [H | [H | [H | [H | [H | [H | [H | [H | [H | [H | []]]]]]]]]]];
    symmetry in H;
    destruct u as [| a [| b [| c [| d u]]]]; try discriminate;
    unfold upper in H; cbn [map T list_ascii_of_string] in H;
    unit_letters; vm_compute; discriminate.
Qed.

Lemma size_re_match (amount u : text) :
  amount_text amount -> unit_word u ->
  re_match size_re (amount ++ T " " ++ u) =
    match match_seq unit_tail accept u (length amount + 1)%nat [amount] with
    | Some _ => Some ([amount; u], [])
    | None => None
    end.
Proof.
  intros [Hne Hdec] [Hune Hu].
  assert (forallb (fun c => negb (is_space c)) u = true) as Hnospace.
  { rewrite forallb_forall in *. intros c Hc. apply Hu in Hc.
    now apply andb_true_iff in Hc as [Hc _]. }
  destruct amount as [| c am]; [congruence |]. cbn in Hdec.
  apply andb_true_iff in Hdec as [Hc Ham].
  unfold re_match.
  change size_re with (RBol :: RGroup [RPlus dec_char] :: RStar is_space :: unit_tail).
  cbn [match_seq]. cbn [rmatch Nat.eqb].
  change ((fix rseq (rs : list regex) (k : cont) {struct rs} : cont :=
             match rs with
             | [] => k
             | r' :: rs' => rmatch r' (rseq rs' k)
             end) [RPlus dec_char])
    with (match_seq [RPlus dec_char]).
  cbn [match_seq rmatch app]. rewrite Hc.
  set (s := c :: am ++ T " " ++ u).
  set (k := fun (s'' : text) (i' : nat) =>
              rep_greedy is_space
                (fun s' i'' => match_seq unit_tail accept s' i'' ([] ++ [firstn (i' - 0) s]))
                s'' i').
  change (rep_greedy dec_char k (am ++ T " " ++ u) 1 =
          match match_seq unit_tail accept u (length (c :: am) + 1)%nat [c :: am] with
          | Some _ => Some ([c :: am; u], [])
          | None => None
          end).
  rewrite (rep_greedy_exact dec_char k (T " " ++ u)); [| reflexivity | exact Ham |].
  - subst k. cbn beta.
    replace (firstn (1 + length am - 0) s) with (c :: am).
    2:{ subst s. replace (1 + length am - 0)%nat with (length (c :: am)) by (cbn; lia).
        change (c :: am ++ T " " ++ u) with ((c :: am) ++ T " " ++ u).
        now rewrite firstn_length_app. }
    change (T " " ++ u) with ([" "%char] ++ u).
    rewrite (rep_greedy_exact is_space _ u).
    + cbn [app length]. replace (1 + length am + 1)%nat with (S (length am) + 1)%nat by lia.
      destruct (match_seq unit_tail accept u (S (length am) + 1)%nat [c :: am]) as [r |] eqn:E;
        [| reflexivity].
      now rewrite (unit_tail_captures u _ _ r Hnospace E).
    + destruct u as [| x u]; [congruence |]. cbn in Hnospace.
      apply andb_true_iff in Hnospace as [Hx _]. now apply negb_true_iff in Hx.
    + reflexivity.
    + intros g1 g2 Hg Hg2. destruct g1 as [| y g1].
      * cbn in Hg. subst g2. cbn [app]. apply unit_tail_refuses; reflexivity.
      * destruct g1; cbn in Hg; injection Hg as _ Hg; [now subst g2 | discriminate].
  - intros g1 g2 -> Hg2. destruct g2 as [| d g2]; [congruence |].
    rewrite forallb_app in Ham. apply andb_true_iff in Ham as [_ Hd].
    cbn in Hd. apply andb_true_iff in Hd as [Hd _].
    destruct (dec_char_facts d Hd) as (Hsp & _).
    destruct (dec_char_not_unit d Hd) as (H1 & H2 & H3).
    subst k. cbn beta. cbn [app rep_greedy]. rewrite Hsp.
    now apply unit_tail_refuses.
Qed.

Lemma size_text_clean (amount u : text) :
  amount_text amount -> unit_word u ->
  replace (T ",") [] (strip (amount ++ T " " ++ u)) = amount ++ T " " ++ u.
Proof.
  intros [Hne Hdec] [Hune Hu].
  rewrite strip_ends.
  - change (T ",") with [","%char]. rewrite replace_char_empty.
    apply remove_char_id. rewrite !forallb_app. rewrite forallb_forall in Hdec, Hu.
    repeat (apply andb_true_iff; split); try reflexivity.
    + apply forallb_forall. intros c Hc. apply negb_true_iff.
      now apply dec_char_facts, Hdec.
    + apply forallb_forall. intros c Hc. apply Hu in Hc.
      apply andb_true_iff in Hc as [_ Hc].
      apply negb_true_iff. apply negb_true_iff in Hc. apply char_eqb_neq.
      apply char_eqb_neq in Hc. congruence.
  - destruct amount as [| c am]; [congruence |]. cbn in *.
    apply andb_true_iff in Hdec as [Hc _]. now apply dec_char_facts.
  - rewrite !rev_app_distr. destruct (rev u) as [| x r] eqn:E.
    + apply (f_equal (@rev ascii)) in E. rewrite rev_involutive in E. now subst u.
    + cbn. rewrite forallb_forall in Hu.
      assert (In x u) as Hx by (apply in_rev; rewrite E; now left).
      apply Hu in Hx. apply andb_true_iff in Hx as [Hx _]. now apply negb_true_iff in Hx.
Qed.

(** C8. A byte size is its amount times the multiplier the table gives for
    its unit: 12 MiB is the float 12582912.0, twelve times 1024 squared,
    and 12 MB the float 12000000.0, twelve times 1000 squared; the table
    is B, KIB, MIB, GIB, KB, MB, GB with the multipliers 1, 1024, 1024
    squared and cubed, 1000, 1000 squared and cubed, each the float of
    that value, and the unit is looked up in capitals.  A size whose unit
    is not in the table does not always parse to null: the amount is
    converted before the unit is looked up, so an amount that is no number
    in front of a unit the pattern accepts, as in 1.2.3 TB, raises
    ValueError.  For every amount of digits and points and every unit word
    after a blank: a word that is no unit word of the pattern gives null;
    otherwise the conversion of the amount decides, and when it returns
    the result is the product with the multiplier of the table, or null
    for the unit words TB, TIB and IB, which the table does not hold. *)
Theorem byte_size_by_unit_table :
  parse_size_to_bytes (T "12 MiB") = Ok (Some (S754_finite false 6755399441055744 (-29)))
  /\ float_is_int (S754_finite false 6755399441055744 (-29)) (12 * 1024 ^ 2)
  /\ parse_size_to_bytes (T "12 MB") = Ok (Some (S754_finite false 6442450944000000 (-29)))
  /\ float_is_int (S754_finite false 6442450944000000 (-29)) (12 * 1000 ^ 2)
  /\ parse_size_to_bytes (T "1.2.3 TB") = Raise ValueError
  /\ parse_size_to_bytes (T "12 TB") = Ok None
  /\ (forall unit factor, factor_map !! unit = Some factor <-> In (unit, factor) UNIT_TABLE)
  /\ map (fun entry => int_to_float (snd entry)) UNIT_TABLE
     = [ S754_finite false 4503599627370496 (-52);
         S754_finite false 4503599627370496 (-42);
         S754_finite false 4503599627370496 (-32);
         S754_finite false 4503599627370496 (-22);
         S754_finite false 8796093022208000 (-43);
         S754_finite false 8589934592000000 (-33);
         S754_finite false 8388608000000000 (-23) ]
  /\ Forall (fun entry => float_is_int (int_to_float (snd entry)) (snd entry)) UNIT_TABLE
  /\ forall amount unit : text,
       amount_text amount -> unit_word unit ->
       parse_size_to_bytes (amount ++ T " " ++ unit) =
         if unit_shape unit
         then
           let* a := pyfloat amount in
           Ok (option_map (fun factor => float_mul a (int_to_float factor))
                 (factor_map !! upper unit))
         else Ok None.
Proof.
  split; [vm_compute; reflexivity |]. split; [vm_compute; reflexivity |].
  split; [vm_compute; reflexivity |]. split; [vm_compute; reflexivity |].
  split; [vm_compute; reflexivity |]. split; [vm_compute; reflexivity |].
  split; [apply factor_map_table |].
  split; [vm_compute; reflexivity |].
  split; [repeat constructor |].
  intros amount u Ha Hu. unfold parse_size_to_bytes.
  rewrite (size_text_clean amount u Ha Hu), (size_re_match amount u Ha Hu).
  assert (forallb (fun c => negb (is_space c)) u = true) as Hnospace.
  { destruct Hu as [_ Hu]. rewrite forallb_forall in *. intros c Hc. apply Hu in Hc.
    now apply andb_true_iff in Hc as [Hc _]. }
  destruct (match_seq unit_tail accept u (length amount + 1)%nat [amount]) as [r |] eqn:E.
  - rewrite (unit_tail_shape u _ _ r Hnospace E).
    change (group 1 [amount; u]) with amount. change (group 2 [amount; u]) with u.
    destruct (pyfloat amount) as [a | e]; cbn [bind]; [| reflexivity].
    now destruct (factor_map !! upper u).
  - destruct (unit_shape u) eqn:Es; [| reflexivity].
    now destruct (unit_shape_accepts u _ _ Es E).
Qed.

Lemma byte_size_by_unit_table_witness :
  amount_text (T "20.5") /\ unit_word (T "kib")
  /\ parse_size_to_bytes (T "20.5 kib")
     = Ok (Some (S754_finite false 5770237022568448 (-38)))
  /\ float_is_int (S754_finite false 5770237022568448 (-38)) (41 * 512).
Proof.
  assert (amount_text (T "20.5")) as Ha by (split; [discriminate | reflexivity]).
  assert (unit_word (T "kib")) as Hu by (split; [discriminate | reflexivity]).
  split; [exact Ha |]. split; [exact Hu |]. split; [| vm_compute; reflexivity].
  destruct byte_size_by_unit_table as (_ & _ & _ & _ & _ & _ & _ & _ & _ & H).
  change (T "20.5 kib") with (T "20.5" ++ T " " ++ T "kib").
  rewrite (H (T "20.5") (T "kib") Ha Hu). vm_compute. reflexivity.
Defined.

(** * The clock in the aggregated record *)

Lemma str_join_cons (sep x : text) (rest : list text) :
  str_join sep (x :: rest) = x ++ join_tail sep rest.
Proof. destruct rest; cbn; [now rewrite app_nil_r | reflexivity]. Qed.



(** * The run as a writer of files *)







Lemma io_bind_lift {A B : Type} (c : outcome A) (k : A -> io B) (w : world) :
  io_bind (lift c) k w = match c with Ok a => k a w | Raise e => (w, Raise e) end.
Proof. unfold io_bind, lift. now destruct c. Qed.

Lemma print_summary_effect (name : option text) (w : world) :
  print_summary name w =
    ({| files := files w; console := console w ++ summary_lines name |}, Ok tt).
Proof.
  unfold print_summary, summary_lines. cbn [io_for_each].
  unfold io_bind, print, io_ret. cbn [files console].
  rewrite <- !app_assoc. reflexivity.
Qed.






(** * The hash seed reaches the record through the list of drivers only *)








(** * What the field parsers do on text they were not written for *)

Lemma contains_app (w : text) : forall skipped rest, contains w (skipped ++ w ++ rest) = true.
Proof.
  induction skipped as [| c skipped IH]; intros rest.
  - cbn [app]. destruct (w ++ rest) eqn:E; cbn [contains]; rewrite <- E;
      now rewrite starts_with_app.
  - cbn [app contains]. rewrite IH. apply orb_true_r.
Qed.

Lemma search_without_literal (w : text) (rs : list regex) (txt : text) :
  contains w txt = false -> re_search (RLit w :: rs) txt = None.
Proof.
  intros Hno. destruct (re_search (RLit w :: rs) txt) as [cs |] eqn:E; [| reflexivity].
  apply re_search_inv in E as (skipped & s' & j & rest & -> & Hm).
  cbn [match_seq] in Hm. apply rmatch_lit_inv in Hm as (tail & -> & _).
  now rewrite contains_app in Hno.
Qed.

Lemma scalar_field_unlabelled {A : Type} (w : text) (rs : list regex)
  (conv : text -> outcome A) (txt : text) :
  contains w txt = false -> scalar_field (RLit w :: rs) conv txt = Ok None.
Proof. intros H. unfold scalar_field. now rewrite search_without_literal. Qed.

Ltac unlabelled_fields :=
  repeat match goal with
         | H : Forall _ (_ :: _) |- _ => apply Forall_cons_1 in H as [? H]
         end;
  repeat (unfold labelled, labelled_tight, feature_count_re;
          rewrite scalar_field_unlabelled by assumption; cbn [bind]);
  reflexivity.

Lemma target_stats_unlabelled (txt : text) :
  unlabelled TARGET_LABELS txt ->
  parse_target_stats txt
  = Ok {| mean_saleprice := None; median_saleprice := None;
          saleprice_skew := None; saleprice_kurtosis := None |}.
Proof. unfold unlabelled, TARGET_LABELS, parse_target_stats. intros H. unlabelled_fields. Qed.

Lemma iqr_bounds_unlabelled (txt : text) :
  unlabelled BOUND_LABELS txt ->
  parse_iqr_bounds txt
  = Ok {| q1 := None; q3 := None; iqr_value := None;
          iqr_lower_bound := None; iqr_upper_bound := None |}.
Proof. unfold unlabelled, BOUND_LABELS, parse_iqr_bounds. intros H. unlabelled_fields. Qed.

Lemma iqr_row_counts_unlabelled (txt : text) :
  unlabelled ROW_COUNT_LABELS txt ->
  parse_iqr_row_counts txt
  = Ok {| rows_before_iqr := None; rows_after_iqr := None;
          rows_removed_iqr := None; rows_removed_pct_iqr := None |}.
Proof.
  unfold unlabelled, ROW_COUNT_LABELS, parse_iqr_row_counts. intros H. unlabelled_fields.
Qed.

Lemma shape_unlabelled (txt : text) :
  unlabelled SHAPE_LABELS txt -> parse_shape txt = Ok (None, None).
Proof.
  unfold unlabelled, SHAPE_LABELS, parse_shape, shape_re. intros H.
  apply Forall_cons_1 in H as [H _]. now rewrite search_without_literal.
Qed.

(** C1. The field parsers are not total.  Each scalar parser converts the
    text its pattern captured without guarding the conversion, and the
    pattern captures texts that are no number: a value with two points
    after a label, a lone point, a lone comma, a size with two points all
    make the parser raise ValueError; a count too large for a float makes
    the missing-value table raise OverflowError.  The other half holds:
    text with none of a parser's labels gives the record with every field
    null. *)
Theorem field_parsers_raise_on_malformed_numbers :
  parse_target_stats (T "Mean: 1.2.3") = Raise ValueError
  /\ parse_iqr_bounds (T "Q1: .") = Raise ValueError
  /\ parse_iqr_row_counts (T "Rows before IQR filtering: ,") = Raise ValueError
  /\ parse_shape (T "Shape: , rows , columns") = Raise ValueError
  /\ parse_size_to_bytes (T "1.2.3 MB") = Raise ValueError
  /\ parse_missing_table (T "Alley 1" ++ repeat "0"%char 400) (Some 1) = Raise OverflowError
  /\ (forall txt, unlabelled TARGET_LABELS txt ->
        parse_target_stats txt
        = Ok {| mean_saleprice := None; median_saleprice := None;
                saleprice_skew := None; saleprice_kurtosis := None |})
  /\ (forall txt, unlabelled BOUND_LABELS txt ->
        parse_iqr_bounds txt
        = Ok {| q1 := None; q3 := None; iqr_value := None;
                iqr_lower_bound := None; iqr_upper_bound := None |})
  /\ (forall txt, unlabelled ROW_COUNT_LABELS txt ->
        parse_iqr_row_counts txt
        = Ok {| rows_before_iqr := None; rows_after_iqr := None;
                rows_removed_iqr := None; rows_removed_pct_iqr := None |})
  /\ (forall txt, unlabelled SHAPE_LABELS txt -> parse_shape txt = Ok (None, None)).
Proof.
  do 6 (split; [vm_compute; reflexivity |]).
  split; [exact target_stats_unlabelled |].
  split; [exact iqr_bounds_unlabelled |].
  split; [exact iqr_row_counts_unlabelled | exact shape_unlabelled].
Qed.

(** * The driver list *)

Lemma parse_driver_list_cases (L : PyLib) (seed : hash_seed) (txt : text) :
  parse_driver_list seed txt
  = match strip txt with
    | [] => Ok []
    | _ =>
        match literal_eval (strip txt) with
        | Raise ValueError | Raise SyntaxError => Ok []
        | Raise e => Raise e
        | Ok parsed => let* items := py_iter seed parsed in Ok (map (py_str seed) items)
        end
    end.
Proof. reflexivity. Qed.

(** C2. The driver list parser does raise.  It turns the two errors of a
    failed parse, ValueError and SyntaxError, into the empty list, and
    nothing else: text that parses to a literal that cannot be iterated,
    such as the number 5, raises TypeError on the way to the list of
    names, and any other error of the parse itself gets through too.
    This is so under every hash seed. *)
Theorem driver_list_parser_raises_on_non_sequence :
  (forall seed : set_order, @parse_driver_list small_lib seed (T "5") = Raise TypeError)
  /\ (forall (L : PyLib) (seed : hash_seed) (txt : text) (parsed : pyval) (e : exn),
        strip txt <> [] -> literal_eval (strip txt) = Ok parsed ->
        py_iter seed parsed = Raise e -> parse_driver_list seed txt = Raise e)
  /\ (forall (L : PyLib) (seed : hash_seed) (txt : text) (e : exn),
        strip txt <> [] -> literal_eval (strip txt) = Raise e ->
        parse_driver_list seed txt
        = match e with ValueError | SyntaxError => Ok [] | _ => Raise e end)
  /\ (forall (L : PyLib) (seed : hash_seed) (txt : text),
        strip txt = [] -> parse_driver_list seed txt = Ok []).
Proof.
  split; [intros []; vm_compute; reflexivity |]. repeat split.
  - intros L seed txt parsed e Hne Hp Hi. rewrite parse_driver_list_cases, Hp, Hi.
    now destruct (strip txt).
  - intros L seed txt e Hne Hp. rewrite parse_driver_list_cases, Hp.
    destruct (strip txt); [congruence |]. now destruct e.
  - intros L seed txt He. now rewrite parse_driver_list_cases, He.
Qed.

(** * Which parsers can fail, and how *)

Lemma catch_value_error_returns {A : Type} (c : outcome A) :
  (forall e, c = Raise e -> e = ValueError) ->
  catch_value_error c = Ok (match c with Ok a => Some a | Raise _ => None end).
Proof.
  intros H. destruct c as [a | e]; [reflexivity |].
  now rewrite (H e eq_refl).
Qed.

(** X1. [parse_number] never raises: blank text, and text that is no
    number, give null; text with a point is read as a float and text
    without one as an int. *)
Theorem parse_number_never_raises (value : text) :
  exists r : option pynum,
    parse_number value = Ok r
    /\ (replace (T ",") [] (strip value) = [] -> r = None)
    /\ (forall z, r = Some (NInt z) ->
          contains (T ".") (replace (T ",") [] (strip value)) = false
          /\ pyint (replace (T ",") [] (strip value)) = Ok z)
    /\ (forall f, r = Some (NFloat f) ->
          contains (T ".") (replace (T ",") [] (strip value)) = true
          /\ pyfloat (replace (T ",") [] (strip value)) = Ok f)
    /\ (r = None ->
          replace (T ",") [] (strip value) = []
          \/ pyint (replace (T ",") [] (strip value)) = Raise ValueError
          \/ pyfloat (replace (T ",") [] (strip value)) = Raise ValueError).
Proof.
  unfold parse_number. destruct (replace (T ",") [] (strip value)) as [| c v] eqn:Ev.
  - exists None. repeat split; try discriminate; auto.
  - destruct (contains (T ".") (c :: v)) eqn:Ec.
    + destruct (pyfloat (c :: v)) as [f | e] eqn:Ef; cbn [bind catch_value_error].
      * exists (Some (NFloat f)). repeat split; try discriminate; try congruence.
      * rewrite (pyfloat_raises _ _ Ef). exists None.
        repeat split; try discriminate. intros _. right. right.
        now rewrite <- (pyfloat_raises _ _ Ef).
    + destruct (pyint (c :: v)) as [z | e] eqn:Ez; cbn [bind catch_value_error].
      * exists (Some (NInt z)). repeat split; try discriminate; try congruence.
      * rewrite (pyint_raises _ _ Ez). exists None.
        repeat split; try discriminate. intros _. right. left.
        now rewrite <- (pyint_raises _ _ Ez).
Qed.

Lemma scalar_field_raises {A : Type} (pattern : list regex) (conv : text -> outcome A)
  (txt : text) (e : exn) :
  (forall g e', conv g = Raise e' -> e' = ValueError) ->
  scalar_field pattern conv txt = Raise e -> e = ValueError.
Proof.
  intros Hconv. unfold scalar_field. destruct (re_search pattern txt) as [cs |];
    [| discriminate].
  destruct (conv (group 1 cs)) as [v | e'] eqn:E; cbn [bind]; [discriminate |].
  intros [= <-]. eauto.
Qed.

Ltac field_raises :=
  repeat match goal with
         | |- context [scalar_field ?p ?conv ?txt] =>
             let E := fresh "E" in
             destruct (scalar_field p conv txt) eqn:E; cbn [bind];
             [| intros [= <-];
                first [ apply (scalar_field_raises _ _ _ _ parse_float_raises E)
                      | apply (scalar_field_raises _ _ _ _ parse_int_raises E)
                      | apply (scalar_field_raises _ _ _ _ pyint_raises E) ] ]
         end;
  try discriminate.

Lemma parse_target_stats_raises (txt : text) (e : exn) :
  parse_target_stats txt = Raise e -> e = ValueError.
Proof. unfold parse_target_stats. field_raises. Qed.

Lemma parse_iqr_bounds_raises (txt : text) (e : exn) :
  parse_iqr_bounds txt = Raise e -> e = ValueError.
Proof. unfold parse_iqr_bounds. field_raises. Qed.

Lemma parse_iqr_row_counts_raises (txt : text) (e : exn) :
  parse_iqr_row_counts txt = Raise e -> e = ValueError.
Proof. unfold parse_iqr_row_counts. field_raises. Qed.

Lemma parse_shape_raises (txt : text) (e : exn) :
  parse_shape txt = Raise e -> e = ValueError.
Proof.
  unfold parse_shape. destruct (re_search shape_re txt) as [cs |]; [| discriminate].
  destruct (parse_int (group 1 cs)) as [a | e1] eqn:E1; cbn [bind].
  - destruct (parse_int (group 2 cs)) as [b | e2] eqn:E2; cbn [bind]; [discriminate |].
    intros [= <-]. exact (parse_int_raises _ _ E2).
  - intros [= <-]. exact (parse_int_raises _ _ E1).
Qed.

Lemma parse_size_to_bytes_raises (value : text) (e : exn) :
  parse_size_to_bytes value = Raise e -> e = ValueError.
Proof.
  unfold parse_size_to_bytes.
  destruct (re_match size_re (replace (T ",") [] (strip value))) as [[cs rest] |];
    [| discriminate].
  destruct (pyfloat (group 1 cs)) as [a | e1] eqn:E1; cbn [bind].
  - now destruct (factor_map !! upper (group 2 cs)).
  - intros [= <-]. exact (pyfloat_raises _ _ E1).
Qed.

(** X2. The scalar field parsers and the byte-size parser fail in one way
    only: whatever the text, each of them returns or raises ValueError,
    the error of a captured text that is no number. *)
Theorem scalar_parsers_raise_only_value_error (txt : text) (e : exn) :
  (parse_shape txt = Raise e -> e = ValueError)
  /\ (parse_target_stats txt = Raise e -> e = ValueError)
  /\ (parse_iqr_bounds txt = Raise e -> e = ValueError)
  /\ (parse_iqr_row_counts txt = Raise e -> e = ValueError)
  /\ (parse_size_to_bytes txt = Raise e -> e = ValueError).
Proof.
  split; [apply parse_shape_raises |]. split; [apply parse_target_stats_raises |].
  split; [apply parse_iqr_bounds_raises |]. split; [apply parse_iqr_row_counts_raises |].
  apply parse_size_to_bytes_raises.
Qed.

(** * Numbers written with digits and a point always convert *)

Lemma digitpart_tail_stop (ds r : text) :
  forallb is_digit ds = true ->
  match r with
  | c :: _ => is_digit c = false /\ char_eqb c "_" = false
  | [] => True
  end ->
  digitpart_tail (ds ++ r) = (ds, r).
Proof.
  intros Hd Hr. induction ds as [| d ds IH]; cbn [app].
  - destruct r as [| c r]; [reflexivity |]. destruct Hr as [H1 H2].
    cbn [digitpart_tail]. now rewrite H1, H2.
  - cbn [forallb] in Hd. apply andb_true_iff in Hd as [Hc Hds].
    cbn [digitpart_tail]. now rewrite Hc, (IH Hds).
Qed.

Lemma digitpart_stop (ds r : text) :
  ds <> [] -> forallb is_digit ds = true ->
  match r with
  | c :: _ => is_digit c = false /\ char_eqb c "_" = false
  | [] => True
  end ->
  digitpart (ds ++ r) = Some (ds, r).
Proof.
  intros Hne Hd Hr. destruct ds as [| d ds]; [congruence |].
  cbn [forallb] in Hd. apply andb_true_iff in Hd as [Hc Hds].
  cbn [app digitpart]. now rewrite Hc, (digitpart_tail_stop ds r Hds Hr).
Qed.

Lemma digitpart_no_digit (c : ascii) (r : text) :
  is_digit c = false -> digitpart (c :: r) = None.
Proof. intros H. cbn. now rewrite H. Qed.

(** The digits before and after the point of a plain decimal number. *)
Lemma float_number_plain (ip fp : text) :
  forallb is_digit ip = true -> forallb is_digit fp = true -> fp <> [] ->
  float_number (ip ++ "."%char :: fp) = Some (ip, fp, []).
Proof.
  intros Hi Hf Hne. unfold float_number.
  assert (digitpart fp = Some (fp, [])) as Hfp.
  { rewrite <- (app_nil_r fp) at 1. now apply digitpart_stop. }
  destruct ip as [| d ip].
  - cbn [app]. rewrite digitpart_no_digit by reflexivity.
    change (char_eqb "." ".") with true. cbn iota. now rewrite Hfp.
  - rewrite digitpart_stop; [| discriminate | exact Hi | now split].
    change (char_eqb "." ".") with true. cbn iota. now rewrite Hfp.
Qed.

Lemma float_number_integer (ip : text) :
  ip <> [] -> forallb is_digit ip = true -> float_number ip = Some (ip, [], []).
Proof.
  intros Hne Hi. unfold float_number.
  rewrite <- (app_nil_r ip) at 1. now rewrite digitpart_stop.
Qed.

(** A text that starts with a digit or a point is none of the words
    [inf], [infinity] and [nan]. *)
Lemma plain_number_no_word (c : ascii) (body : text) :
  dec_char c = true ->
  (text_eqb (lower (c :: body)) (T "inf") || text_eqb (lower (c :: body)) (T "infinity"))%bool
  = false
  /\ text_eqb (lower (c :: body)) (T "nan") = false.
Proof.
  intros Hc. destruct (dec_char_facts c Hc) as (_ & _ & _ & _ & _ & Hl & _).
  assert (forall w, (w = "i" \/ w = "n")%char -> forall rest,
            text_eqb (lower (c :: body)) (w :: rest) = false) as H.
  { intros w Hw rest. destruct (text_eqb (lower (c :: body)) (w :: rest)) eqn:E;
      [| reflexivity].
    apply text_eqb_eq in E. cbn in E. injection E as E _. rewrite Hl in E. subst c.
    destruct Hw as [-> | ->]; discriminate. }
  split.
  - apply orb_false_iff. split; apply H; now left.
  - apply H. now right.
Qed.

Lemma signed_number_strip (neg : bool) (body : text) :
  forallb dec_char body = true ->
  num_strip (sign_text neg ++ body) = sign_text neg ++ body
  /\ strip (sign_text neg ++ body) = sign_text neg ++ body
  /\ remove_char "," (sign_text neg ++ body) = sign_text neg ++ body.
Proof.
  intros Hb.
  assert (forallb (fun c => dec_char c || char_eqb c "-")%bool (sign_text neg ++ body) = true)
    as Hall.
  { rewrite forallb_app. apply andb_true_iff. split.
    - now destruct neg.
    - rewrite forallb_forall in *. intros c Hc. now rewrite (Hb c Hc). }
  assert (forall c, (dec_char c || char_eqb c "-")%bool = true ->
            is_num_space c = false /\ is_space c = false /\ char_eqb "," c = false) as Hc.
  { intros c H. apply orb_true_iff in H as [H | H].
    - destruct (dec_char_facts c H) as (? & ? & _ & _ & ? & _). auto.
    - apply char_eqb_eq in H. now subst c. }
  rewrite forallb_forall in Hall. split; [| split].
  - apply trim_id. apply forallb_forall. intros c Hin. apply negb_true_iff.
    now apply Hc, Hall.
  - apply strip_id. apply forallb_forall. intros c Hin. apply negb_true_iff.
    now apply Hc, Hall.
  - apply remove_char_id. apply forallb_forall. intros c Hin. apply negb_true_iff.
    now apply Hc, Hall.
Qed.

Lemma take_sign_signed (neg : bool) (body : text) :
  match body with c :: _ => dec_char c = true | [] => False end ->
  take_sign (sign_text neg ++ body) = (neg, body).
Proof.
  destruct body as [| c body]; [easy |]. intros Hc.
  destruct neg; [reflexivity |]. cbn [sign_text app take_sign].
  destruct (dec_char_facts c Hc) as (_ & _ & Hm & Hp & _). now rewrite Hm, Hp.
Qed.

Lemma pyfloat_signed (neg : bool) (body ip fp : text) :
  forallb dec_char body = true ->
  float_number body = Some (ip, fp, []) ->
  pyfloat (sign_text neg ++ body)
  = Ok (decimal_to_float neg (digits_to_Z (ip ++ fp)) (0 - Z.of_nat (length fp))).
Proof.
  intros Hb Hn. unfold pyfloat.
  destruct (signed_number_strip neg body Hb) as (-> & _ & _).
  destruct body as [| c body]; [discriminate |].
  pose proof Hb as Hc. cbn [forallb] in Hc. apply andb_true_iff in Hc as [Hc _].
  rewrite take_sign_signed by exact Hc.
  destruct (plain_number_no_word c body Hc) as [-> ->].
  now rewrite Hn.
Qed.

Lemma parse_float_signed (neg : bool) (body ip fp : text) :
  forallb dec_char body = true ->
  float_number body = Some (ip, fp, []) ->
  parse_float (sign_text neg ++ body)
  = Ok (decimal_to_float neg (digits_to_Z (ip ++ fp)) (0 - Z.of_nat (length fp))).
Proof.
  intros Hb Hn. rewrite parse_float_commas.
  destruct (signed_number_strip neg body Hb) as (_ & Hs & ->). rewrite Hs.
  now apply pyfloat_signed.
Qed.

Lemma digit_dec_char (c : ascii) : is_digit c = true -> dec_char c = true.
Proof. intros H. unfold dec_char. now rewrite H. Qed.

Lemma digit_is_dec (s : text) : forallb is_digit s = true -> forallb dec_char s = true.
Proof.
  rewrite !forallb_forall. intros H c Hc. now apply digit_dec_char, H.
Qed.

(** [-?\d+(\.\d+)?] converts, and to a number. *)
Lemma parse_float_decimal (neg : bool) (ip : text) (frac : option text) :
  ip <> [] -> forallb is_digit ip = true ->
  match frac with Some fp => fp <> [] /\ forallb is_digit fp = true | None => True end ->
  exists f,
    parse_float (sign_text neg ++ ip
                 ++ match frac with Some fp => "."%char :: fp | None => [] end) = Ok f
    /\ is_nan f = false.
Proof.
  intros Hne Hi Hf. destruct frac as [fp |].
  - destruct Hf as [Hfne Hf]. eexists. split.
    + apply parse_float_signed with (ip := ip) (fp := fp).
      * rewrite forallb_app. apply andb_true_iff. split; [now apply digit_is_dec |].
        cbn [forallb]. now rewrite (digit_is_dec fp Hf).
      * now apply float_number_plain.
    + apply decimal_to_float_not_nan, digits_to_Z_nonneg.
      rewrite forallb_app. now rewrite Hi, Hf.
  - rewrite app_nil_r. eexists. split.
    + apply parse_float_signed with (ip := ip) (fp := []).
      * now apply digit_is_dec.
      * now apply float_number_integer.
    + apply decimal_to_float_not_nan, digits_to_Z_nonneg. now rewrite app_nil_r.
Qed.

(** [[\d,]+\.\d+] converts: the commas go, and the digits left of the
    point may be none. *)
Lemma parse_float_grouped (ic fp : text) :
  forallb int_char ic = true -> fp <> [] -> forallb is_digit fp = true ->
  exists f, parse_float (ic ++ "."%char :: fp) = Ok f.
Proof.
  intros Hic Hne Hf. unfold parse_float.
  change (T ",") with [","%char]. rewrite replace_char_empty.
  unfold remove_char. rewrite List.filter_app.
  assert (forallb is_digit (List.filter (fun x => negb (char_eqb "," x)) ic) = true) as Hd.
  { apply forallb_forall. intros c Hc. apply filter_In in Hc as [Hin Hc].
    rewrite forallb_forall in Hic. specialize (Hic c Hin). unfold int_char in Hic.
    apply orb_true_iff in Hic as [H | H]; [exact H |].
    unfold is_char in H. cbn in H. rewrite orb_false_r in H.
    apply char_eqb_eq in H. subst c. discriminate. }
  assert (List.filter (fun x => negb (char_eqb "," x)) ("."%char :: fp) = "."%char :: fp) as ->.
  { apply (remove_char_id "," ("."%char :: fp)). cbn [forallb].
    apply andb_true_iff. split; [reflexivity |].
    apply forallb_forall. intros c Hc. apply negb_true_iff.
    rewrite forallb_forall in Hf. now apply dec_char_facts, digit_dec_char, Hf. }
  set (ip := List.filter (fun x => negb (char_eqb "," x)) ic) in *.
  pose proof (parse_float_signed false (ip ++ "."%char :: fp) ip fp) as H.
  cbn [sign_text app] in H. rewrite parse_float_commas in H.
  destruct (signed_number_strip false (ip ++ "."%char :: fp)) as (_ & Hs & Hr).
  { rewrite forallb_app. apply andb_true_iff. split; [now apply digit_is_dec |].
    cbn [forallb]. now rewrite (digit_is_dec fp Hf). }
  cbn [sign_text app] in Hs, Hr. rewrite Hr in H. rewrite Hs in *.
  eexists. apply H.
  - rewrite forallb_app. apply andb_true_iff. split; [now apply digit_is_dec |].
    cbn [forallb]. now rewrite (digit_is_dec fp Hf).
  - now apply float_number_plain.
Qed.

(** * The table patterns: what their groups hold *)

Lemma firstn_group (g rest : text) (i j : nat) :
  j = (i + length g)%nat -> firstn (j - i) (g ++ rest) = g.
Proof. intros ->. apply firstn_consumed. Qed.

Lemma or_else_inv {A : Type} (a b : option A) (r : A) :
  or_else a b = Some r -> a = Some r \/ (a = None /\ b = Some r).
Proof. destruct a; cbn; intros H; [left | right]; auto. Qed.

Lemma rmatch_opt_lit_inv (w : text) (k : cont) (s : text) (i : nat) (cs : list text)
  (r : mres) :
  rmatch (ROpt [RLit w]) k s i cs = Some r ->
  exists o rest,
    s = o ++ rest /\ (o = w \/ o = []) /\ k rest (i + length o)%nat cs = Some r.
Proof.
  rewrite rmatch_opt_eq. cbn [match_seq]. intros H.
  apply or_else_inv in H as [H | [_ H]].
  - apply rmatch_lit_inv in H as (rest & -> & H). exists w, rest. auto.
  - exists [], s. cbn. rewrite Nat.add_0_r. auto.
Qed.

Lemma rmatch_opt_fraction_inv (w : text) (p : ascii -> bool) (k : cont) (s : text)
  (i : nat) (cs : list text) (r : mres) :
  rmatch (ROpt [RLit w; RPlus p]) k s i cs = Some r ->
  exists o rest,
    s = o ++ rest
    /\ (o = [] \/ exists g, o = w ++ g /\ g <> [] /\ forallb p g = true)
    /\ k rest (i + length o)%nat cs = Some r.
Proof.
  rewrite rmatch_opt_eq. cbn [match_seq]. intros H.
  apply or_else_inv in H as [H | [_ H]].
  - apply rmatch_lit_inv in H as (s1 & -> & H).
    apply rmatch_plus_inv in H as (g & rest & -> & Hne & Hg & H).
    exists (w ++ g), rest. rewrite <- app_assoc. split; [reflexivity |].
    split; [right; eauto |]. now rewrite length_app, Nat.add_assoc.
  - exists [], s. cbn. rewrite Nat.add_0_r. auto.
Qed.

Lemma rmatch_group_lazy_plus_inv (p : ascii -> bool) (k : cont) (s : text) (i : nat)
  (cs : list text) (r : mres) :
  rmatch (RGroup [RPlusLazy p]) k s i cs = Some r ->
  exists g rest,
    s = g ++ rest /\ g <> [] /\ k rest (i + length g)%nat (cs ++ [g]) = Some r.
Proof.
  rewrite rmatch_group_eq. cbn [match_seq rmatch].
  destruct s as [| c s]; [discriminate |]. destruct (p c); [| discriminate].
  intros H. apply rep_lazy_inv in H as (g & rest & -> & _ & H).
  exists (c :: g), rest. split; [reflexivity |]. split; [discriminate |].
  rewrite (firstn_group (c :: g) rest) in H by (cbn; lia).
  now replace (i + length (c :: g))%nat with (S i + length g)%nat by (cbn; lia).
Qed.

(** A group [(p+ w q+)]. *)
Lemma rmatch_group_grouped_inv (p q : ascii -> bool) (w : text) (k : cont) (s : text)
  (i : nat) (cs : list text) (r : mres) :
  rmatch (RGroup [RPlus p; RLit w; RPlus q]) k s i cs = Some r ->
  exists a b rest,
    s = (a ++ w ++ b) ++ rest
    /\ forallb p a = true /\ b <> [] /\ forallb q b = true
    /\ k rest (i + length (a ++ w ++ b))%nat (cs ++ [a ++ w ++ b]) = Some r.
Proof.
  rewrite rmatch_group_eq. cbn [match_seq]. intros H.
  apply rmatch_plus_inv in H as (a & s1 & -> & _ & Ha & H).
  apply rmatch_lit_inv in H as (s2 & -> & H).
  apply rmatch_plus_inv in H as (b & rest & -> & Hb & Hq & H).
  exists a, b, rest. rewrite <- !app_assoc. repeat split; auto.
  replace (a ++ w ++ b ++ rest) with ((a ++ w ++ b) ++ rest) in H
    by now rewrite <- !app_assoc.
  rewrite firstn_group in H by (rewrite !length_app; lia).
  now replace (i + length (a ++ w ++ b))%nat
    with (i + length a + length w + length b)%nat by (rewrite !length_app; lia).
Qed.

(** The number a correlation row ends with. *)
Lemma correlation_re_groups (line : text) (cs : list text) (rest : text) :
  re_match correlation_re line = Some (cs, rest) ->
  exists (name : text) (neg : bool) (ip : text) (frac : option text),
    cs = [name;
          sign_text neg ++ ip
          ++ match frac with Some fp => "."%char :: fp | None => [] end]
    /\ ip <> [] /\ forallb is_digit ip = true
    /\ match frac with
       | Some fp => fp <> [] /\ forallb is_digit fp = true
       | None => True
       end.
Proof.
  unfold re_match, correlation_re. cbn [match_seq]. intros H.
  apply rmatch_bol_inv in H as [_ H].
  apply rmatch_group_lazy_plus_inv in H as (name & s1 & -> & _ & H).
  apply rmatch_plus_inv in H as (ws & s2 & -> & _ & _ & H).
  rewrite rmatch_group_eq in H. cbn [match_seq] in H.
  apply rmatch_opt_lit_inv in H as (sg & s3 & -> & Hsg & H).
  apply rmatch_plus_inv in H as (ip & s4 & -> & Hne & Hip & H).
  apply rmatch_opt_fraction_inv in H as (fr & s5 & -> & Hfr & H).
  replace (sg ++ ip ++ fr ++ s5) with ((sg ++ ip ++ fr) ++ s5) in H
    by now rewrite <- !app_assoc.
  rewrite firstn_group in H by (rewrite !length_app; lia).
  apply rmatch_eol_accept_inv in H as [Heq _]. injection Heq as -> _.
  exists name, (match sg with [] => false | _ => true end), ip,
    (match fr with [] => None | _ :: fp => Some fp end).
  split; [| split; [exact Hne | split; [exact Hip |]]].
  - cbn [app]. f_equal. f_equal.
    destruct Hsg as [-> | ->], Hfr as [-> | (g & -> & _ & _)]; reflexivity.
  - destruct Hfr as [-> | (g & -> & Hg & Hd)]; [exact I |]. cbn. auto.
Qed.

Lemma neighborhood_re_groups (line : text) (cs : list text) (rest : text) :
  re_match neighborhood_re line = Some (cs, rest) ->
  exists (name ic1 fp1 ic2 fp2 count : text),
    cs = [name; ic1 ++ "."%char :: fp1; ic2 ++ "."%char :: fp2; count]
    /\ name <> [] /\ forallb not_space name = true
    /\ forallb int_char ic1 = true /\ fp1 <> [] /\ forallb is_digit fp1 = true
    /\ forallb int_char ic2 = true /\ fp2 <> [] /\ forallb is_digit fp2 = true
    /\ count <> [] /\ forallb is_digit count = true
    /\ (length count <= length line)%nat.
Proof.
  unfold re_match, neighborhood_re. cbn [match_seq]. intros H.
  apply rmatch_bol_inv in H as [_ H].
  apply rmatch_group_plus_inv in H as (name & s1 & -> & Hn & Hns & H).
  apply rmatch_plus_inv in H as (w1 & s2 & -> & _ & _ & H).
  apply rmatch_group_grouped_inv in H as (ic1 & fp1 & s3 & -> & H1 & H2 & H3 & H).
  apply rmatch_plus_inv in H as (w2 & s4 & -> & _ & _ & H).
  apply rmatch_group_grouped_inv in H as (ic2 & fp2 & s5 & -> & H4 & H5 & H6 & H).
  apply rmatch_plus_inv in H as (w3 & s6 & -> & _ & _ & H).
  apply rmatch_group_plus_inv in H as (count & s7 & -> & Hc & Hcd & H).
  apply rmatch_eol_accept_inv in H as [Heq _]. injection Heq as -> _.
  exists name, ic1, fp1, ic2, fp2, count. cbn [app]. repeat split; auto.
  rewrite !length_app. lia.
Qed.

Lemma feature_count_re_groups (kind : string) (txt : text) (cs : list text) :
  re_search (feature_count_re kind) txt = Some cs ->
  exists count,
    cs = [count] /\ count <> [] /\ forallb is_digit count = true
    /\ (length count <= length txt)%nat.
Proof.
  intros H. apply re_search_inv in H as (sk & s' & j & rest & -> & H).
  unfold feature_count_re in H. cbn [match_seq] in H.
  apply rmatch_lit_inv in H as (s1 & -> & H).
  apply rmatch_group_plus_inv in H as (count & s2 & -> & Hne & Hd & H).
  apply rmatch_lit_inv in H as (s3 & -> & H).
  apply accept_inv in H. injection H as -> _. exists count. repeat split; auto.
  rewrite !length_app. lia.
Qed.

(** * The table parsers that cannot fail *)

(** A loop whose step keeps the rows, adds one, or fails with ValueError
    on an item that is [long]. *)
Lemma for_each_appends {A R : Type} (step : list R -> A -> outcome (list R))
  (P : R -> Prop) (long : A -> Prop) :
  (forall rows x,
      step rows x = Ok rows
      \/ (exists r, P r /\ step rows x = Ok (rows ++ [r]))
      \/ (long x /\ step rows x = Raise ValueError)) ->
  forall (xs : list A) (rows0 : list R),
    (exists new,
        for_each step xs rows0 = Ok (rows0 ++ new)
        /\ (length new <= length xs)%nat /\ Forall P new)
    \/ (Exists long xs /\ for_each step xs rows0 = Raise ValueError).
Proof.
  intros Hstep. induction xs as [| x xs IH]; intros rows0; cbn [for_each].
  - left. exists []. rewrite app_nil_r. repeat split; auto.
  - destruct (Hstep rows0 x) as [-> | [(r & Hr & ->) | [Hx ->]]]; cbn [bind].
    + destruct (IH rows0) as [(new & -> & Hlen & HP) | [Hex ->]].
      * left. exists new. cbn [length]. repeat split; auto.
      * right. split; [now apply Exists_cons_tl | reflexivity].
    + destruct (IH (rows0 ++ [r])) as [(new & -> & Hlen & HP) | [Hex ->]].
      * left. exists (r :: new). rewrite <- app_assoc. cbn [app length].
        repeat split; auto. lia.
      * right. split; [now apply Exists_cons_tl | reflexivity].
    + right. split; [now apply Exists_cons_hd | reflexivity].
Qed.

Lemma correlation_line_cases (rows : list corr_row) (raw : text) :
  correlation_line rows raw = Ok rows
  \/ (exists r,
        (is_nan (correlation r) = false)
        /\ correlation_line rows raw = Ok (rows ++ [r]))
  \/ (False /\ correlation_line rows raw = Raise ValueError).
Proof.
  unfold correlation_line. destruct (rstrip raw) as [| c line]; [now left |].
  destruct (contains (T "Correlation with SalePrice") (c :: line)); [now left |].
  destruct (re_match correlation_re (strip (c :: line))) as [[cs rest] |] eqn:E;
    [| now left].
  apply correlation_re_groups in E as (name & neg & ip & frac & -> & Hne & Hip & Hfr).
  change (group 2 [name; ?g]) with g. change (group 1 [name; ?g]) with name.
  destruct (parse_float_decimal neg ip frac Hne Hip Hfr) as (f & -> & Hf). cbn [bind].
  right. left. eexists. split; [| reflexivity]. exact Hf.
Qed.

(** X3. The correlation table parser never raises: whatever the text it
    returns rows, at most one per line and none for an empty text, and the
    correlation of every row is a number (never a NaN). *)
Theorem parse_correlation_table_never_raises (txt : text) :
  exists rows : list corr_row,
    parse_correlation_table txt = Ok rows
    /\ (length rows <= length (splitlines txt))%nat
    /\ Forall (fun r => is_nan (correlation r) = false) rows.
Proof.
  unfold parse_correlation_table.
  destruct (for_each_appends correlation_line
              (fun r => is_nan (correlation r) = false) (fun _ => False)
              correlation_line_cases (splitlines txt) [])
    as [(new & H & Hlen & HP) | [Hex _]].
  - exists new. auto.
  - apply Exists_exists in Hex as (line & _ & []).
Qed.

Lemma neighborhood_line_cases (rows : list neighborhood_row) (raw : text) :
  neighborhood_line rows raw = Ok rows
  \/ (exists r,
        (neighborhood r <> [] /\ forallb not_space (neighborhood r) = true
         /\ 0 <= nb_count r)
        /\ neighborhood_line rows raw = Ok (rows ++ [r]))
  \/ ((MAX_STR_DIGITS < length raw)%nat /\ neighborhood_line rows raw = Raise ValueError).
Proof.
  unfold neighborhood_line. pose proof (strip_length raw) as Hlen.
  destruct (strip raw) as [| c line]; [now left |].
  destruct (starts_with (T "mean") (c :: line) || starts_with (T "Neighborhood") (c :: line))%bool;
    [now left |].
  destruct (re_match neighborhood_re (c :: line)) as [[cs rest] |] eqn:E; [| now left].
  apply neighborhood_re_groups in E
    as (name & ic1 & fp1 & ic2 & fp2 & count & -> & Hn & Hns & H1 & H2 & H3 & H4 & H5 & H6
        & Hc & Hcd & Hcl).
  change (group 1 [name; ?a; ?b; ?c]) with name.
  change (group 2 [name; ?a; ?b; ?c]) with a.
  change (group 3 [name; ?a; ?b; ?c]) with b.
  change (group 4 [name; ?a; ?b; ?c]) with c.
  destruct (parse_float_grouped ic1 fp1 H1 H2 H3) as [mean ->].
  destruct (parse_float_grouped ic2 fp2 H4 H5 H6) as [median ->].
  rewrite (pyint_digits_cases count Hc Hcd). cbn [bind].
  destruct (Nat.ltb_spec MAX_STR_DIGITS (length count)) as [Hlong | Hshort]; cbn [bind].
  - right. right. split; [lia | reflexivity].
  - right. left. eexists. split; [| reflexivity]. cbn. repeat split; auto.
    now apply digits_to_Z_nonneg.
Qed.

Lemma parse_neighborhood_table_cases (txt : text) :
  (exists rows : list neighborhood_row,
      parse_neighborhood_table txt = Ok rows
      /\ (length rows <= length (splitlines txt))%nat
      /\ Forall (fun r => neighborhood r <> [] /\ forallb not_space (neighborhood r) = true
                          /\ 0 <= nb_count r) rows)
  \/ ((MAX_STR_DIGITS < length txt)%nat /\ parse_neighborhood_table txt = Raise ValueError).
Proof.
  unfold parse_neighborhood_table.
  destruct (for_each_appends neighborhood_line _ _ neighborhood_line_cases
              (splitlines txt) []) as [(new & H & Hlen & HP) | [Hex H]].
  - left. exists new. auto.
  - right. split; [now apply long_line_long_text | exact H].
Qed.

(** X4. The neighborhood table parser never raises on a text within the
    digit limit of [int]: it returns rows, at most one per line, each with
    a non-empty name free of whitespace and a count that is not negative. *)
Theorem parse_neighborhood_table_never_raises (txt : text) :
  (length txt <= MAX_STR_DIGITS)%nat ->
  exists rows : list neighborhood_row,
    parse_neighborhood_table txt = Ok rows
    /\ (length rows <= length (splitlines txt))%nat
    /\ Forall (fun r => neighborhood r <> [] /\ forallb not_space (neighborhood r) = true
                        /\ 0 <= nb_count r) rows.
Proof.
  intros Hlen. destruct (parse_neighborhood_table_cases txt) as [H | [Hlong _]];
    [exact H | lia].
Qed.

Lemma parse_neighborhood_table_never_raises_witness :
  exists rows : list neighborhood_row,
    parse_neighborhood_table (T "NoRidge 335,295.32 301,500.00 41") = Ok rows
    /\ (length rows <= length (splitlines (T "NoRidge 335,295.32 301,500.00 41")))%nat
    /\ Forall (fun r => neighborhood r <> [] /\ forallb not_space (neighborhood r) = true
                        /\ 0 <= nb_count r) rows.
Proof.
  apply parse_neighborhood_table_never_raises. apply Nat.leb_le. vm_compute. reflexivity.
Defined.

Lemma feature_count_field (kind : string) (txt : text) :
  (length txt <= MAX_STR_DIGITS)%nat ->
  exists n : option Z,
    scalar_field (feature_count_re kind) pyint txt = Ok n
    /\ (n = None <-> re_search (feature_count_re kind) txt = None)
    /\ forall z, n = Some z -> 0 <= z.
Proof.
  intros Hlen. unfold scalar_field.
  destruct (re_search (feature_count_re kind) txt) as [cs |] eqn:E.
  - apply feature_count_re_groups in E as (count & -> & Hne & Hd & Hcl).
    change (group 1 [count]) with count.
    rewrite (pyint_digits count Hne Hd) by lia. cbn [bind].
    eexists. split; [reflexivity |]. split; [split; discriminate |].
    intros z [= <-]. now apply digits_to_Z_nonneg.
  - exists None. repeat split; auto; discriminate.
Qed.

(** X5. The feature-count parser never raises on a text within the digit
    limit of [int]: each of the two counts is null exactly when its pattern
    does not occur in the text, and is a number that is not negative
    otherwise. *)
Theorem parse_feature_counts_never_raises (txt : text) :
  (length txt <= MAX_STR_DIGITS)%nat ->
  exists numeric categorical : option Z,
    parse_feature_counts txt = Ok (numeric, categorical)
    /\ (numeric = None <-> re_search (feature_count_re "Numerical") txt = None)
    /\ (categorical = None <-> re_search (feature_count_re "Categorical") txt = None)
    /\ (forall z, numeric = Some z \/ categorical = Some z -> 0 <= z).
Proof.
  intros Hlen. unfold parse_feature_counts.
  destruct (feature_count_field "Numerical" txt Hlen) as (n & -> & Hn & Hnz).
  destruct (feature_count_field "Categorical" txt Hlen) as (c & -> & Hc & Hcz).
  cbn [bind]. exists n, c. repeat split; try apply Hn; try apply Hc.
  intros z [H | H]; eauto.
Qed.

Lemma parse_feature_counts_never_raises_witness :
  exists numeric categorical : option Z,
    parse_feature_counts (T "Numerical features (37): ...") = Ok (numeric, categorical)
    /\ (numeric = None
        <-> re_search (feature_count_re "Numerical") (T "Numerical features (37): ...") = None)
    /\ (categorical = None
        <-> re_search (feature_count_re "Categorical") (T "Numerical features (37): ...")
            = None)
    /\ (forall z, numeric = Some z \/ categorical = Some z -> 0 <= z).
Proof.
  apply parse_feature_counts_never_raises. apply Nat.leb_le. vm_compute. reflexivity.
Defined.

(** * How the aggregator fails *)

Lemma parse_missing_table_raises (txt : text) (d : option Z) (e : exn) :
  parse_missing_table txt d = Raise e -> e = ValueError \/ e = OverflowError.
Proof.
  unfold parse_missing_table.
  destruct (missing_table_spec d (splitlines txt) []) as (_ & _ & H).
  intros He. destruct (H e He) as [[-> _] | [-> _]]; auto.
Qed.

Lemma parse_correlation_table_returns (txt : text) :
  exists rows, parse_correlation_table txt = Ok rows.
Proof.
  unfold parse_correlation_table.
  destruct (for_each_appends correlation_line _ _ correlation_line_cases
              (splitlines txt) []) as [(new & H & _) | [Hex _]]; [eauto |].
  apply Exists_exists in Hex as (line & _ & []).
Qed.

Lemma parse_neighborhood_table_raises (txt : text) (e : exn) :
  parse_neighborhood_table txt = Raise e -> e = ValueError.
Proof.
  destruct (parse_neighborhood_table_cases txt) as [(rows & -> & _) | [_ ->]];
    [discriminate | now intros [= <-]].
Qed.

Lemma parse_feature_counts_raises (txt : text) (e : exn) :
  parse_feature_counts txt = Raise e -> e = ValueError.
Proof. unfold parse_feature_counts. field_raises. Qed.

(** The cells are looked up before any text is parsed. *)
Ltac next_cell nb i :=
  let c := fresh "c" in
  let Hc := fresh "Hc" in
  let E := fresh "E" in
  destruct (get_cell_cases nb i) as [(c & Hc & E) | E]; rewrite E; cbn [bind].

Lemma build_metrics_short (L : PyLib) (nb : notebook) (chart_files : list (text * text))
  (profile : option profile_report) (seed : hash_seed) (now : text) :
  (length (cells nb) < 48)%nat ->
  build_metrics nb chart_files profile seed now = Raise IndexError.
Proof.
  intros Hlen. unfold build_metrics.
  next_cell nb 7%nat; [| reflexivity]. next_cell nb 11%nat; [| reflexivity].
  next_cell nb 13%nat; [| reflexivity]. next_cell nb 21%nat; [| reflexivity].
  next_cell nb 23%nat; [| reflexivity]. next_cell nb 33%nat; [| reflexivity].
  next_cell nb 35%nat; [| reflexivity]. next_cell nb 46%nat; [| reflexivity].
  next_cell nb 47%nat; [| reflexivity].
  apply lookup_lt_Some in Hc7. lia.
Qed.

Lemma build_metrics_long (L : PyLib) (nb : notebook) (chart_files : list (text * text))
  (profile : option profile_report) (seed : hash_seed) (now : text) (e : exn) :
  (48 <= length (cells nb))%nat ->
  build_metrics nb chart_files profile seed now = Raise e ->
  e = ValueError \/ e = OverflowError
  \/ exists c, cells nb !! 35%nat = Some c
               /\ parse_driver_list seed (get_first_text_plain c) = Raise e.
Proof.
  intros Hlen. unfold build_metrics.
  assert (forall i, (i < 48)%nat -> exists c, cells nb !! i = Some c /\ get_cell nb i = Ok c)
    as Hget.
  { intros i Hi. destruct (get_cell_cases nb i) as [H | H]; [exact H |].
    unfold get_cell in H. destruct (cells nb !! i) eqn:E; [discriminate |].
    apply lookup_ge_None in E. lia. }
  destruct (Hget 7%nat ltac:(lia)) as (c7 & _ & ->).
  destruct (Hget 11%nat ltac:(lia)) as (c11 & _ & ->).
  destruct (Hget 13%nat ltac:(lia)) as (c13 & _ & ->).
  destruct (Hget 21%nat ltac:(lia)) as (c21 & _ & ->).
  destruct (Hget 23%nat ltac:(lia)) as (c23 & _ & ->).
  destruct (Hget 33%nat ltac:(lia)) as (c33 & _ & ->).
  destruct (Hget 35%nat ltac:(lia)) as (c35 & H35 & ->).
  destruct (Hget 46%nat ltac:(lia)) as (c46 & _ & ->).
  destruct (Hget 47%nat ltac:(lia)) as (c47 & _ & ->).
  destruct (Hget 27%nat ltac:(lia)) as (c27 & _ & ->).
  cbn [bind].
  destruct (parse_shape (get_stream_text c7)) as [shape | e1] eqn:E1; cbn [bind];
    [| intros [= <-]; left; exact (parse_shape_raises _ _ E1)].
  destruct (parse_feature_counts (get_stream_text c11)) as [counts | e1] eqn:E2; cbn [bind];
    [| intros [= <-]; left; exact (parse_feature_counts_raises _ _ E2)].
  destruct (parse_target_stats (get_stream_text c13)) as [target | e1] eqn:E3; cbn [bind];
    [| intros [= <-]; left; exact (parse_target_stats_raises _ _ E3)].
  destruct (parse_iqr_bounds (get_stream_text c21)) as [bounds | e1] eqn:E4; cbn [bind];
    [| intros [= <-]; left; exact (parse_iqr_bounds_raises _ _ E4)].
  destruct (parse_iqr_row_counts (get_stream_text c23)) as [iqr_rows | e1] eqn:E5;
    cbn [bind]; [| intros [= <-]; left; exact (parse_iqr_row_counts_raises _ _ E5)].
  destruct (parse_correlation_table_returns (get_first_text_plain c33)) as [corr ->];
    cbn [bind].
  destruct (parse_driver_list seed (get_first_text_plain c35)) as [drivers | e1] eqn:E7;
    cbn [bind]; [| intros [= <-]; right; right; eauto].
  destruct (parse_neighborhood_table (get_first_text_plain c46)) as [neigh | e1] eqn:E8;
    cbn [bind]; [| intros [= <-]; left; exact (parse_neighborhood_table_raises _ _ E8)].
  destruct (parse_neighborhood_table (get_first_text_plain c47)) as [single | e1] eqn:E9;
    cbn [bind]; [| intros [= <-]; left; exact (parse_neighborhood_table_raises _ _ E9)].
  destruct (parse_missing_table (get_first_text_plain c27) (rows_after_iqr iqr_rows))
    as [missing | e1] eqn:E10; cbn [bind]; [discriminate |].
  intros [= <-]. destruct (parse_missing_table_raises _ _ _ E10) as [-> | ->]; auto.
Qed.

(** X6. How [build_metrics] fails.  On a notebook of fewer than 48 cells it
    raises IndexError before any text is parsed, whatever the cells hold.
    On a longer notebook no cell lookup fails, and an error is the
    ValueError of a scalar field that is no number, the OverflowError of
    the missing-value table, or the error of the driver list parser on the
    text of cell 35. *)
Theorem build_metrics_failures (L : PyLib) (nb : notebook)
  (chart_files : list (text * text)) (profile : option profile_report)
  (seed : hash_seed) (now : text) :
  ((length (cells nb) < 48)%nat ->
   build_metrics nb chart_files profile seed now = Raise IndexError)
  /\ ((48 <= length (cells nb))%nat ->
      forall e,
        build_metrics nb chart_files profile seed now = Raise e ->
        e = ValueError \/ e = OverflowError
        \/ exists c, cells nb !! 35%nat = Some c
                     /\ parse_driver_list seed (get_first_text_plain c) = Raise e).
Proof.
  split; [apply build_metrics_short |].
  intros Hlen e. now apply build_metrics_long.
Qed.

(** * What a run writes and prints *)

Lemma quiet_ret (paths : list text) {A : Type} (a : A) : quiet paths (io_ret a).
Proof. intros w. now split. Qed.

Lemma quiet_lift (paths : list text) {A : Type} (c : outcome A) : quiet paths (lift c).
Proof. intros w. now split. Qed.

Lemma quiet_write_bytes (paths : list text) (path : text) (content : bytes) :
  In path paths -> quiet paths (write_bytes path content).
Proof.
  intros Hin w. split; [| reflexivity]. intros p Hp. cbn.
  apply lookup_insert_ne. congruence.
Qed.

Lemma quiet_file_write (paths : list text) (path : text) (s : text) :
  In path paths -> quiet paths (file_write path s).
Proof.
  intros Hin w. split; [| reflexivity]. intros p Hp. cbn.
  apply lookup_insert_ne. congruence.
Qed.

Lemma quiet_bind (paths : list text) {A B : Type} (c : io A) (k : A -> io B) :
  quiet paths c -> (forall a, quiet paths (k a)) -> quiet paths (io_bind c k).
Proof.
  intros Hc Hk w. unfold io_bind. destruct (Hc w) as [Hf Hl].
  destruct (c w) as [w1 [a | e]]; cbn [fst snd] in *.
  - destruct (Hk a w1) as [Hf' Hl']. split.
    + intros p Hp. now rewrite Hf', Hf.
    + now rewrite Hl'.
  - now split.
Qed.

Lemma quiet_for_each (paths : list text) {A S : Type} (step : S -> A -> io S)
  (xs : list A) :
  (forall acc x, In x xs -> quiet paths (step acc x)) ->
  forall acc, quiet paths (io_for_each step xs acc).
Proof.
  induction xs as [| x xs IH]; intros Hstep acc; cbn [io_for_each].
  - apply quiet_ret.
  - apply quiet_bind; [apply Hstep; now left |].
    intros acc'. apply IH. intros a y Hy. apply Hstep. now right.
Qed.

Lemma quiet_export_chart (paths : list text) (nb : notebook)
  (chart_files : list (text * text)) (entry : nat * text) :
  In (path_join CHARTS_DIR (snd entry)) paths ->
  quiet paths (export_chart nb chart_files entry).
Proof.
  intros Hin. destruct entry as [i filename]. unfold export_chart.
  apply quiet_bind; [apply quiet_lift |]. intros c.
  apply quiet_bind; [apply quiet_lift |]. intros [image |]; [| apply quiet_ret].
  apply quiet_bind; [now apply quiet_write_bytes |]. intros _. apply quiet_ret.
Qed.

Lemma quiet_export_charts (nb : notebook) (mockup : option bytes) :
  quiet OUTPUT_PATHS (export_charts nb mockup).
Proof.
  unfold export_charts. apply quiet_bind.
  - apply quiet_for_each. intros acc entry Hin. apply quiet_export_chart.
    unfold OUTPUT_PATHS. apply in_or_app. left.
    now apply (in_map (fun e => path_join CHARTS_DIR (snd e))).
  - intros chart_files. destruct mockup as [content |]; [| apply quiet_ret].
    apply quiet_bind; [| intros _; apply quiet_ret].
    apply quiet_write_bytes. unfold OUTPUT_PATHS. apply in_or_app. right. now left.
Qed.

Lemma quiet_write_metrics (L : PyLib) (metrics : json) :
  quiet OUTPUT_PATHS (write_metrics metrics).
Proof.
  assert (In JSON_PATH OUTPUT_PATHS) as Hjson.
  { unfold OUTPUT_PATHS. apply in_or_app. right. right. now left. }
  assert (In JS_PATH OUTPUT_PATHS) as Hjs.
  { unfold OUTPUT_PATHS. apply in_or_app. right. right. right. now left. }
  unfold write_metrics, open_w.
  repeat (apply quiet_bind; [first [now apply quiet_write_bytes | now apply quiet_file_write] |];
          intros _).
  now apply quiet_file_write.
Qed.

Lemma prints_at_end_bind (paths lines : list text) {A B : Type} (c : io A)
  (k : A -> io B) :
  quiet paths c -> (forall a, prints_at_end paths lines (k a)) ->
  prints_at_end paths lines (io_bind c k).
Proof.
  intros Hc Hk w. unfold io_bind. destruct (Hc w) as [Hf Hl].
  destruct (c w) as [w1 [a | e]]; cbn [fst snd] in *.
  - destruct (Hk a w1) as [Hf' Hl']. split.
    + intros p Hp. now rewrite Hf', Hf.
    + destruct (snd (k a w1)); now rewrite Hl', Hl.
  - now split.
Qed.

Lemma prints_at_end_summary (paths : list text) (name : option text) :
  prints_at_end paths (summary_lines name) (print_summary name).
Proof. intros w. rewrite print_summary_effect. now split. Qed.

(** X7. What a run leaves behind.  It writes no file other than the chart
    images, the copied image and the two metrics files; it prints the five
    lines of its summary when it completes and nothing when it fails; and
    without the notebook it fails with FileNotFoundError before writing or
    printing anything. *)
Theorem run_writes_only_its_outputs (L : PyLib) (inp : inputs) (seed : hash_seed)
  (now : text) (w : world) :
  (forall path, ~ In path OUTPUT_PATHS ->
     files (fst (main inp seed now w)) !! path = files w !! path)
  /\ match snd (main inp seed now w) with
     | Ok _ =>
         console (fst (main inp seed now w))
         = console w ++ summary_lines (option_map fst (find_profile_path inp))
     | Raise _ => console (fst (main inp seed now w)) = console w
     end
  /\ (notebook_file inp = None -> main inp seed now w = (w, Raise FileNotFoundError)).
Proof.
  unfold main. destruct (notebook_file inp) as [nb |]; [| now repeat split].
  assert (prints_at_end OUTPUT_PATHS (summary_lines (option_map fst (find_profile_path inp)))
            (let! chart_files := export_charts nb (mockup_image inp) in
             let! profile :=
               lift match find_profile_path inp with
                    | Some (name, html) =>
                        let* r := parse_profile_report name html in Ok (Some r)
                    | None => Ok None
                    end in
             let! metrics := lift (build_metrics nb chart_files profile seed now) in
             let! _ := write_metrics metrics in
             print_summary (option_map fst (find_profile_path inp)))) as H.
  { apply prints_at_end_bind; [apply quiet_export_charts |]. intros charts.
    apply prints_at_end_bind; [apply quiet_lift |]. intros profile.
    apply prints_at_end_bind; [apply quiet_lift |]. intros metrics.
    apply prints_at_end_bind; [apply quiet_write_metrics |]. intros _.
    apply prints_at_end_summary. }
  destruct (H w) as [Hf Hc]. split; [exact Hf |]. split; [exact Hc | discriminate].
Qed.

(** * The chart export *)

Lemma text_eqb_refl (a : text) : text_eqb a a = true.
Proof. now apply text_eqb_eq. Qed.

Lemma text_eqb_neq (a b : text) : a <> b -> text_eqb a b = false.
Proof.
  intros H. destruct (text_eqb a b) eqn:E; [| reflexivity].
  now apply text_eqb_eq in E.
Qed.

Lemma dict_get_set_eq {V : Type} (d : list (text * V)) (key : text) (v : V) :
  dict_get (dict_set d key v) key = Some v.
Proof.
  induction d as [| [k x] d IH]; cbn [dict_set dict_get].
  - now rewrite text_eqb_refl.
  - destruct (text_eqb k key) eqn:E; cbn [dict_get]; now rewrite E.
Qed.

Lemma dict_get_set_ne {V : Type} (d : list (text * V)) (key key' : text) (v : V) :
  key <> key' -> dict_get (dict_set d key v) key' = dict_get d key'.
Proof.
  intros Hne. induction d as [| [k x] d IH]; cbn [dict_set dict_get].
  - now rewrite text_eqb_neq.
  - destruct (text_eqb k key) eqn:E; cbn [dict_get].
    + apply text_eqb_eq in E. subst k. now rewrite text_eqb_neq.
    + now rewrite IH.
Qed.

Lemma dict_set_keys {V : Type} (d : list (text * V)) (key : text) (v : V) :
  (In key (map fst d) -> map fst (dict_set d key v) = map fst d)
  /\ (~ In key (map fst d) -> map fst (dict_set d key v) = map fst d ++ [key]).
Proof.
  induction d as [| [k x] d [IH1 IH2]]; cbn [dict_set map fst app].
  - split; [intros [] | reflexivity].
  - destruct (text_eqb k key) eqn:E; cbn [map fst].
    + apply text_eqb_eq in E. subst k. split; [reflexivity |].
      intros H. exfalso. apply H. now left.
    + assert (k <> key) as Hne by (intros ->; now rewrite text_eqb_refl in E).
      split.
      * intros [? | Hin]; [congruence |]. now rewrite IH1.
      * intros H. rewrite IH2; [reflexivity |]. intros Hin. apply H. now right.
Qed.

Lemma dict_set_nodup {V : Type} (d : list (text * V)) (key : text) (v : V) :
  NoDup (map fst d) -> NoDup (map fst (dict_set d key v)).
Proof.
  intros Hd. destruct (dict_set_keys d key v) as [H1 H2].
  destruct (decide (key ∈ map fst d)) as [Hin | Hin]; rewrite list_elem_of_In in Hin.
  - now rewrite H1.
  - rewrite H2 by exact Hin. apply NoDup_app. repeat split; auto.
    + intros x Hx [-> | []]%list_elem_of_In. now apply list_elem_of_In in Hx.
    + apply NoDup_singleton.
Qed.

(** One step of the export. *)
Lemma export_chart_step (nb : notebook) (listed : list (text * text)) (i : nat)
  (filename : text) (w w1 : world) (listed1 : list (text * text)) :
  export_chart nb listed (i, filename) w = (w1, Ok listed1) ->
  exists c image,
    cells nb !! i = Some c /\ extract_png_from_cell c = Ok image
    /\ exported w w1 listed listed1 filename image
    /\ (forall path, path <> chart_path filename -> files w1 !! path = files w !! path)
    /\ (forall key, key <> chart_key filename -> dict_get listed1 key = dict_get listed key)
    /\ (NoDup (map fst listed) -> NoDup (map fst listed1)).
Proof.
  unfold export_chart. rewrite io_bind_lift. unfold get_cell.
  destruct (cells nb !! i) as [c |] eqn:Ec; [| discriminate]. rewrite io_bind_lift.
  destruct (extract_png_from_cell c) as [[content |] | e] eqn:Ei; [| | discriminate].
  - unfold io_bind, write_bytes, io_ret. intros [= <- <-].
    exists c, (Some content). cbn [files exported].
    split; [reflexivity |]. split; [exact Ei |].
    split; [split; [apply lookup_insert_eq | apply dict_get_set_eq] |].
    split; [| split].
    + intros path Hp. apply lookup_insert_ne. intros Heq. apply Hp. symmetry. exact Heq.
    + intros key Hk. apply dict_get_set_ne. intros Heq. apply Hk. symmetry. exact Heq.
    + apply dict_set_nodup.
  - unfold io_ret. intros [= <- <-]. exists c, None. cbn [exported]. repeat split; auto.
Qed.

(** The loop of the export over a table of distinct file names and keys. *)
Lemma export_loop_spec (nb : notebook) (table : list (nat * text)) :
  NoDup (map (fun e => chart_path (snd e)) table) ->
  NoDup (map (fun e => chart_key (snd e)) table) ->
  forall (w w' : world) (listed chart_files : list (text * text)),
    io_for_each (export_chart nb) table listed w = (w', Ok chart_files) ->
    (forall i filename,
        In (i, filename) table ->
        exists c image,
          cells nb !! i = Some c /\ extract_png_from_cell c = Ok image
          /\ exported w w' listed chart_files filename image)
    /\ (forall path, ~ In path (map (fun e => chart_path (snd e)) table) ->
          files w' !! path = files w !! path)
    /\ (forall key, ~ In key (map (fun e => chart_key (snd e)) table) ->
          dict_get chart_files key = dict_get listed key)
    /\ (NoDup (map fst listed) -> NoDup (map fst chart_files)).
Proof.
  induction table as [| [i0 f0] table IH]; intros Hp Hk w w' listed chart_files;
    cbn [io_for_each].
  - unfold io_ret. intros [= <- <-]. repeat split; auto. intros i f [].
  - cbn [map snd] in Hp, Hk. apply NoDup_cons in Hp as [Hp0 Hp], Hk as [Hk0 Hk].
    rewrite list_elem_of_In in Hp0, Hk0.
    unfold io_bind at 1.
    destruct (export_chart nb listed (i0, f0) w) as [w1 [listed1 | e]] eqn:E0;
      [| discriminate].
    apply export_chart_step in E0 as (c0 & image0 & Hc0 & Hi0 & Hex0 & Hf0 & Hd0 & Hn0).
    intros Hrest.
    destruct (IH Hp Hk w1 w' listed1 chart_files Hrest) as (Hall & Hf & Hd & Hn).
    repeat split.
    + intros i f [[= <- <-] | Hin].
      * exists c0, image0. repeat split; auto.
        unfold exported in *. rewrite (Hf _ Hp0), (Hd _ Hk0). exact Hex0.
      * destruct (Hall i f Hin) as (c & image & Hc & Hi & Hex).
        exists c, image. repeat split; auto.
        assert (chart_path f <> chart_path f0) as Hpf.
        { intros Heq. apply Hp0. rewrite <- Heq.
          now apply (in_map (fun e => chart_path (snd e)) table (i, f)). }
        assert (chart_key f <> chart_key f0) as Hkf.
        { intros Heq. apply Hk0. rewrite <- Heq.
          now apply (in_map (fun e => chart_key (snd e)) table (i, f)). }
        unfold exported in *. destruct image as [content |]; [exact Hex |].
        now rewrite <- (Hf0 _ Hpf), <- (Hd0 _ Hkf).
    + intros path Hnot. cbn [map snd] in Hnot.
      rewrite Hf by (intros H; apply Hnot; now right).
      apply Hf0. intros ->. apply Hnot. now left.
    + intros key Hnot. cbn [map snd] in Hnot.
      rewrite Hd by (intros H; apply Hnot; now right).
      apply Hd0. intros ->. apply Hnot. now left.
    + auto.
Qed.

Lemma chart_table_distinct :
  NoDup (map (fun e => chart_path (snd e)) CHART_CELL_MAP
         ++ [chart_path (T "dashboard_mockup.png")])
  /\ NoDup (map (fun e => chart_key (snd e)) CHART_CELL_MAP ++ [T "dashboard_mockup"]).
Proof. split; apply (bool_decide_unpack (NoDup _)); vm_compute; exact I. Qed.

(** X8. What a chart export that returns has done.  Every position of the
    chart table is a cell of the notebook whose image payload, if any,
    decodes; a position with an image has it written to its file and is
    listed under its key, a position without one is skipped: its file is
    left as it was and it is not listed.  The copied image is treated the
    same way.  Nothing else is listed, no key twice, and nothing is
    printed. *)
Theorem export_charts_writes_and_lists (nb : notebook) (mockup : option bytes)
  (w w' : world) (chart_files : list (text * text)) :
  export_charts nb mockup w = (w', Ok chart_files) ->
  (forall i filename,
      In (i, filename) CHART_CELL_MAP ->
      exists c image,
        cells nb !! i = Some c /\ extract_png_from_cell c = Ok image
        /\ exported w w' [] chart_files filename image)
  /\ exported w w' [] chart_files (T "dashboard_mockup.png") mockup
  /\ (forall key,
        ~ In key (map (fun e => chart_key (snd e)) CHART_CELL_MAP ++ [T "dashboard_mockup"]) ->
        dict_get chart_files key = None)
  /\ NoDup (map fst chart_files)
  /\ console w' = console w.
Proof.
  intros Hrun.
  destruct (quiet_export_charts nb mockup w) as [_ Hconsole].
  rewrite Hrun in Hconsole. cbn [fst] in Hconsole.
  destruct chart_table_distinct as [Hpaths Hkeys].
  apply NoDup_app in Hpaths as (Hp & Hpm & _), Hkeys as (Hk & Hkm & _).
  assert (~ In (chart_path (T "dashboard_mockup.png"))
            (map (fun e => chart_path (snd e)) CHART_CELL_MAP)) as Hmp.
  { intros H. apply list_elem_of_In in H. apply (Hpm _ H). now left. }
  assert (~ In (T "dashboard_mockup") (map (fun e => chart_key (snd e)) CHART_CELL_MAP))
    as Hmk.
  { intros H. apply list_elem_of_In in H. apply (Hkm _ H). now left. }
  unfold export_charts in Hrun. unfold io_bind at 1 in Hrun.
  destruct (io_for_each (export_chart nb) CHART_CELL_MAP [] w) as [w1 [listed | e]] eqn:E;
    [| discriminate].
  destruct (export_loop_spec nb CHART_CELL_MAP Hp Hk w w1 [] listed E)
    as (Hall & Hf & Hd & Hn).
  destruct mockup as [content |].
  - unfold io_bind, write_bytes, io_ret in Hrun. injection Hrun as <- <-.
    split; [| split; [| split; [| split]]].
    + intros i f Hin. destruct (Hall i f Hin) as (c & image & Hc & Hi & Hex).
      exists c, image. repeat split; auto.
      assert (chart_path f <> chart_path (T "dashboard_mockup.png")) as Hpf.
      { intros Heq. apply Hmp. rewrite <- Heq.
        now apply (in_map (fun e => chart_path (snd e)) CHART_CELL_MAP (i, f)). }
      assert (chart_key f <> T "dashboard_mockup") as Hkf.
      { intros Heq. apply Hmk. rewrite <- Heq.
        now apply (in_map (fun e => chart_key (snd e)) CHART_CELL_MAP (i, f)). }
      unfold exported in *. cbn [files].
      rewrite lookup_insert_ne by (intros Heq; apply Hpf; symmetry; exact Heq).
      rewrite dict_get_set_ne by (intros Heq; apply Hkf; symmetry; exact Heq).
      exact Hex.
    + cbn [exported files]. split; [apply lookup_insert_eq |].
      change (chart_key (T "dashboard_mockup.png")) with (T "dashboard_mockup").
      apply dict_get_set_eq.
    + intros key Hnot. rewrite dict_get_set_ne.
      * rewrite Hd; [reflexivity |]. intros H. apply Hnot, in_or_app. now left.
      * intros <-. apply Hnot, in_or_app. right. now left.
    + apply dict_set_nodup, Hn. constructor.
    + exact Hconsole.
  - unfold io_ret in Hrun. injection Hrun as <- <-.
    split; [exact Hall | split; [| split; [| split]]].
    + cbn [exported]. split; [now apply Hf |].
      change (chart_key (T "dashboard_mockup.png")) with (T "dashboard_mockup").
      now apply Hd.
    + intros key Hnot. rewrite Hd; [reflexivity |].
      intros H. apply Hnot, in_or_app. now left.
    + apply Hn. constructor.
    + exact Hconsole.
Qed.

Lemma export_charts_writes_and_lists_witness :
  (forall i filename,
      In (i, filename) CHART_CELL_MAP ->
      exists c image,
        cells one_chart_notebook !! i = Some c /\ extract_png_from_cell c = Ok image
        /\ exported empty_world
             (fst (export_charts one_chart_notebook None empty_world)) []
             [(T "saleprice_distribution", T "assets/charts/saleprice_distribution.png")]
             filename image)
  /\ exported empty_world (fst (export_charts one_chart_notebook None empty_world)) []
       [(T "saleprice_distribution", T "assets/charts/saleprice_distribution.png")]
       (T "dashboard_mockup.png") None
  /\ (forall key,
        ~ In key (map (fun e => chart_key (snd e)) CHART_CELL_MAP ++ [T "dashboard_mockup"]) ->
        dict_get [(T "saleprice_distribution", T "assets/charts/saleprice_distribution.png")]
          key = None)
  /\ NoDup (map fst [(T "saleprice_distribution",
                      T "assets/charts/saleprice_distribution.png")])
  /\ console (fst (export_charts one_chart_notebook None empty_world)) = console empty_world.
Proof.
  apply (export_charts_writes_and_lists one_chart_notebook None empty_world).
  vm_compute. reflexivity.
Defined.

(** * The run without a profile report *)

(** The steps of a run that has its notebook. *)
Lemma main_steps (L : PyLib) (nb : notebook) (ames compact : option text)
  (mockup : option bytes) (seed : hash_seed) (now : text) (w : world) :
  main (run_inputs nb ames compact mockup) seed now w
  = match export_charts nb mockup w with
    | (w1, Ok chart_files) =>
        match
          match find_profile_path (run_inputs nb ames compact mockup) with
          | Some (name, html) => let* r := parse_profile_report name html in Ok (Some r)
          | None => Ok None
          end
        with
        | Ok profile =>
            match build_metrics nb chart_files profile seed now with
            | Ok metrics =>
                print_summary
                  (option_map fst (find_profile_path (run_inputs nb ames compact mockup)))
                  (fst (write_metrics metrics w1))
            | Raise e => (w1, Raise e)
            end
        | Raise e => (w1, Raise e)
        end
    | (w1, Raise e) => (w1, Raise e)
    end.
Proof.
  unfold main. cbn [notebook_file mockup_image run_inputs]. unfold io_bind at 1.
  destruct (export_charts nb mockup w) as [w1 [chart_files | e]]; [| reflexivity].
  rewrite io_bind_lift.
  destruct (match find_profile_path _ with Some _ => _ | None => _ end) as [profile | e];
    [| reflexivity].
  rewrite io_bind_lift.
  destruct (build_metrics nb chart_files profile seed now) as [metrics | e]; [| reflexivity].
  unfold io_bind. now rewrite write_metrics_effect.
Qed.

(** Whether the aggregator returns does not depend on the profile report,
    and without one the two profile entries of the record are null. *)
Lemma build_metrics_without_profile (L : PyLib) (nb : notebook)
  (chart_files : list (text * text)) (profile : option profile_report)
  (seed : hash_seed) (now : text) :
  match build_metrics nb chart_files profile seed now with
  | Ok _ =>
      exists metrics meta,
        build_metrics nb chart_files None seed now = Ok metrics
        /\ json_field "profile_overview" metrics = Some JNull
        /\ json_field "meta" metrics = Some meta
        /\ json_field "source_profile" meta = Some JNull
  | Raise e => build_metrics nb chart_files None seed now = Raise e
  end.
Proof.
  unfold build_metrics.
  repeat match goal with
         | |- context [bind ?c _] => destruct c; cbn [bind]; [| reflexivity]
         end.
  eexists _, _. split; [reflexivity |]. repeat split; reflexivity.
Qed.

(** X9. The profile report is optional.  A run that completes with a
    report in place completes without it too; and a run without a report
    that completes has written the record built without one, whose profile
    section and source are null, and its last printed line says that no
    report was found. *)
Theorem run_without_profile (L : PyLib) (nb : notebook) (mockup : option bytes)
  (seed : hash_seed) (now : text) (w : world) :
  (forall ames compact,
      snd (main (run_inputs nb ames compact mockup) seed now w) = Ok tt ->
      snd (main (run_inputs nb None None mockup) seed now w) = Ok tt)
  /\ (snd (main (run_inputs nb None None mockup) seed now w) = Ok tt ->
      exists chart_files metrics meta,
        build_metrics nb chart_files None seed now = Ok metrics
        /\ files (fst (main (run_inputs nb None None mockup) seed now w)) !! JSON_PATH
           = Some (utf8_encode (json_dumps metrics))
        /\ json_field "profile_overview" metrics = Some JNull
        /\ json_field "meta" metrics = Some meta
        /\ json_field "source_profile" meta = Some JNull
        /\ last (console (fst (main (run_inputs nb None None mockup) seed now w)))
           = Some (T "- Profile parsed: not found")).
Proof.
  split.
  - intros ames compact. rewrite !main_steps.
    destruct (export_charts nb mockup w) as [w1 [chart_files | e]]; [| discriminate].
    cbn [find_profile_path run_inputs profile_ames profile_compact].
    assert (forall profile : outcome (option profile_report),
              snd match profile with
                  | Ok profile =>
                      match build_metrics nb chart_files profile seed now with
                      | Ok metrics =>
                          print_summary
                            (option_map fst
                               match ames with
                               | Some html => Some (T "ames_house_prices_profile.html", html)
                               | None =>
                                   match compact with
                                   | Some html => Some (T "house_profile_compact.html", html)
                                   | None => None
                                   end
                               end)
                            (fst (write_metrics metrics w1))
                      | Raise e => (w1, Raise e)
                      end
                  | Raise e => (w1, Raise e)
                  end = Ok tt ->
              snd match build_metrics nb chart_files None seed now with
                  | Ok metrics => print_summary None (fst (write_metrics metrics w1))
                  | Raise e => (w1, Raise e)
                  end = Ok tt) as Hgen; [| apply Hgen].
    intros [profile | e]; [| discriminate].
    pose proof (build_metrics_without_profile L nb chart_files profile seed now) as H.
    destruct (build_metrics nb chart_files profile seed now) as [metrics | e];
      [| discriminate].
    destruct H as (m0 & _ & -> & _). intros _. now rewrite print_summary_effect.
  - rewrite main_steps.
    destruct (export_charts nb mockup w) as [w1 [chart_files | e]]; [| discriminate].
    cbn [find_profile_path run_inputs profile_ames profile_compact option_map].
    pose proof (build_metrics_without_profile L nb chart_files None seed now) as H.
    destruct (build_metrics nb chart_files None seed now) as [metrics | e] eqn:E;
      [| discriminate].
    destruct H as (m0 & meta & [= <-] & H1 & H2 & H3). intros _.
    exists chart_files, metrics, meta. rewrite print_summary_effect, write_metrics_effect.
    cbn [fst files console]. repeat split; auto.
    + rewrite lookup_insert_ne by (intros H; symmetry in H; exact (metrics_paths_differ H)).
      apply lookup_insert_eq.
    + unfold summary_lines.
      change [?a; ?b; ?c; ?d; ?e] with ([a; b; c; d] ++ [e]).
      rewrite app_assoc. apply last_snoc.
Qed.

(** * Which profile report is parsed *)

Lemma build_metrics_source_profile (L : PyLib) (nb : notebook)
  (chart_files : list (text * text)) (profile : option profile_report)
  (seed : hash_seed) (now : text)
  (metrics : json) :
  build_metrics nb chart_files profile seed now = Ok metrics ->
  exists meta,
    json_field "meta" metrics = Some meta
    /\ json_field "source_profile" meta
       = Some (opt_json (fun p => JStr (source_file p)) profile)
    /\ json_field "profile_overview" metrics = Some (opt_json report profile).
Proof.
  unfold build_metrics.
  repeat match goal with
         | |- context [bind ?c _] => destruct c; cbn [bind]; [| discriminate]
         end.
  intros [= <-]. eexists. repeat split; reflexivity.
Qed.

Lemma parse_profile_report_name (L : PyLib) (name html : text) (r : profile_report) :
  parse_profile_report name html = Ok r -> source_file r = name.
Proof.
  unfold parse_profile_report.
  repeat match goal with
         | |- context [bind ?c _] => destruct c; cbn [bind]; [| discriminate]
         end.
  now intros [= <-].
Qed.

(** X10. Of the two candidate reports the first that exists is the one
    parsed: with the first in place the run is the same whatever the
    second holds; and a run that completes has written a record whose
    source is the name of the report parsed, null without one, and has
    named it in its last printed line. *)
Theorem first_profile_candidate_wins (L : PyLib) (nb : notebook) (ames compact : option text)
  (mockup : option bytes) (seed : hash_seed) (now : text) (w : world) :
  (forall html other,
      main (run_inputs nb (Some html) compact mockup) seed now w
      = main (run_inputs nb (Some html) other mockup) seed now w)
  /\ (snd (main (run_inputs nb ames compact mockup) seed now w) = Ok tt ->
      exists metrics meta,
        files (fst (main (run_inputs nb ames compact mockup) seed now w)) !! JSON_PATH
        = Some (utf8_encode (json_dumps metrics))
        /\ json_field "meta" metrics = Some meta
        /\ json_field "source_profile" meta
           = Some (opt_json JStr (parsed_profile_name ames compact))
        /\ last (console (fst (main (run_inputs nb ames compact mockup) seed now w)))
           = Some (T "- Profile parsed: "
                   ++ default (T "not found") (parsed_profile_name ames compact))).
Proof.
  split; [reflexivity |].
  rewrite main_steps.
  destruct (export_charts nb mockup w) as [w1 [chart_files | e]]; [| discriminate].
  assert (option_map fst (find_profile_path (run_inputs nb ames compact mockup))
          = parsed_profile_name ames compact) as Hname.
  { now destruct ames, compact. }
  rewrite Hname.
  assert (forall profile,
            match find_profile_path (run_inputs nb ames compact mockup) with
            | Some (name, html) => let* r := parse_profile_report name html in Ok (Some r)
            | None => Ok None
            end = Ok profile ->
            option_map source_file profile = parsed_profile_name ames compact) as Hsrc.
  { intros profile. unfold find_profile_path, parsed_profile_name.
    cbn [run_inputs profile_ames profile_compact].
    destruct ames as [a |]; [| destruct compact as [c |]].
    - destruct (parse_profile_report _ a) as [r | e] eqn:E; cbn [bind]; [| discriminate].
      intros [= <-]. cbn. f_equal. exact (parse_profile_report_name _ _ _ _ E).
    - destruct (parse_profile_report _ c) as [r | e] eqn:E; cbn [bind]; [| discriminate].
      intros [= <-]. cbn. f_equal. exact (parse_profile_report_name _ _ _ _ E).
    - now intros [= <-]. }
  destruct (match find_profile_path _ with Some _ => _ | None => _ end) as [profile | e];
    [| discriminate].
  specialize (Hsrc profile eq_refl).
  destruct (build_metrics nb chart_files profile seed now) as [metrics | e] eqn:E;
    [| discriminate].
  intros _. apply build_metrics_source_profile in E as (meta & Hm & Hs & _).
  exists metrics, meta. rewrite print_summary_effect, write_metrics_effect.
  cbn [fst files console]. repeat split; auto.
  - rewrite lookup_insert_ne by (intros H; symmetry in H; exact (metrics_paths_differ H)).
    apply lookup_insert_eq.
  - rewrite Hs, <- Hsrc. now destruct profile.
  - unfold summary_lines.
    change [?a; ?b; ?c; ?d; ?e] with ([a; b; c; d] ++ [e]).
    rewrite app_assoc, last_snoc. now destruct (parsed_profile_name ames compact).
Qed.

(** * A report in which nothing is found *)

Lemma search_without_anchor (pattern : list regex) (txt : text) :
  anchor pattern <> [] -> contains (anchor pattern) txt = false ->
  re_search pattern txt = None.
Proof.
  destruct pattern as [| [w | | | | | | | | | |] rs]; cbn [anchor]; try congruence.
  intros _. apply search_without_literal.
Qed.

(** X11. A profile report in which none of the five expected fragments
    occurs is no error: the overview holds the name of the file, null for
    every statistic, an alert count of zero and empty lists. *)
Theorem profile_without_fragments_is_empty (L : PyLib) (name html : text) :
  Forall (fun pattern => contains (anchor pattern) html = false) PROFILE_PATTERNS ->
  parse_profile_report name html
  = Ok {| source_file := name; report := EMPTY_OVERVIEW name |}.
Proof.
  unfold PROFILE_PATTERNS. intros H.
  apply Forall_cons_1 in H as [H1 H]. apply Forall_cons_1 in H as [H2 H].
  apply Forall_cons_1 in H as [H3 H]. apply Forall_cons_1 in H as [H4 H].
  apply Forall_cons_1 in H as [H5 _].
  unfold parse_profile_report.
  rewrite (search_without_anchor meta_date_re html) by (discriminate || exact H1).
  rewrite (search_without_anchor (table_block_re "Dataset statistics") html)
    by (discriminate || exact H2).
  rewrite (search_without_anchor (table_block_re "Variable types") html)
    by (discriminate || exact H3).
  rewrite (search_without_anchor alert_count_re html) by (discriminate || exact H4).
  rewrite (search_without_anchor alert_table_re html) by (discriminate || exact H5).
  reflexivity.
Qed.

Lemma profile_without_fragments_is_empty_witness :
  @parse_profile_report small_lib (T "report.html") (T "<html><body>No data</body></html>")
  = Ok {| source_file := T "report.html"; report := EMPTY_OVERVIEW (T "report.html") |}.
Proof.
  apply profile_without_fragments_is_empty.
  repeat constructor.
Defined.

(** * Text and images taken from a cell *)

Lemma normalize_text_app (a b : text) :
  normalize_text (a ++ b) = normalize_text a ++ normalize_text b.
Proof. apply List.filter_app. Qed.

Lemma normalize_text_ascii (s : text) : ascii_only (normalize_text s).
Proof.
  unfold ascii_only, normalize_text. apply forallb_forall. intros c Hc.
  now apply filter_In in Hc.
Qed.

Lemma normalize_text_id (s : text) : ascii_only s -> normalize_text s = s.
Proof.
  unfold ascii_only, normalize_text. induction s as [| c s IH]; [reflexivity |].
  cbn [forallb List.filter]. intros H. apply andb_true_iff in H as [Hc Hs].
  now rewrite Hc, IH.
Qed.

Lemma first_payload_none (mime : string) (outs : list output) :
  forallb (fun o => negb (carries mime o)) outs = true ->
  first_payload (T mime) outs = None.
Proof.
  induction outs as [| o outs IH]; [reflexivity |]. cbn [forallb first_payload].
  intros H. apply andb_true_iff in H as [Ho Hs]. unfold carries in Ho.
  destruct (data o) as [d |]; [| auto].
  destruct (d !! T mime) as [p |] eqn:E; [| auto].
  rewrite bool_decide_eq_true_2 in Ho by eauto. discriminate.
Qed.

Lemma first_payload_first (mime : string) (before after : list output) (o : output)
  (d : gmap text payload) (p : payload) :
  forallb (fun o => negb (carries mime o)) before = true ->
  data o = Some d -> d !! T mime = Some p ->
  first_payload (T mime) (before ++ o :: after) = Some p.
Proof.
  intros Hb Hd Hp. induction before as [| b before IH]; cbn [app first_payload].
  - now rewrite Hd, Hp.
  - cbn [forallb] in Hb. apply andb_true_iff in Hb as [Ho Hs]. unfold carries in Ho.
    destruct (data b) as [db |]; [| auto].
    destruct (db !! T mime) as [q |] eqn:E; [| auto].
    rewrite bool_decide_eq_true_2 in Ho by eauto. discriminate.
Qed.

Lemma get_stream_text_app (a b : list output) :
  get_stream_text {| outputs := a ++ b |}
  = get_stream_text {| outputs := a |} ++ get_stream_text {| outputs := b |}.
Proof.
  unfold get_stream_text. cbn [outputs].
  now rewrite omap_app, concat_app, normalize_text_app.
Qed.

Lemma get_stream_text_none (outs : list output) :
  forallb (fun o => negb (is_stream o)) outs = true ->
  get_stream_text {| outputs := outs |} = [].
Proof.
  unfold get_stream_text. cbn [outputs]. induction outs as [| o outs IH]; [reflexivity |].
  cbn [forallb]. intros H. apply andb_true_iff in H as [Ho Hs].
  change (omap ?f (o :: outs)) with
    (match f o with Some y => y :: omap f outs | None => omap f outs end).
  unfold is_stream in Ho. apply negb_true_iff in Ho. cbv beta. rewrite Ho. now apply IH.
Qed.

(** X12. The text taken from a cell.  The stream text is the text of the
    stream outputs in their order, other outputs contributing nothing, and
    is empty when the cell has none; the plain text is that of the first
    output that carries one, whatever follows it, and is empty when no
    output does.  Either way only ASCII is left, and ASCII text is left as
    it is. *)
Theorem cell_text_extraction :
  (forall a b,
      get_stream_text {| outputs := a ++ b |}
      = get_stream_text {| outputs := a |} ++ get_stream_text {| outputs := b |})
  /\ (forall o,
        get_stream_text {| outputs := [o] |}
        = if is_stream o
          then normalize_text (as_text (default (PStr []) (stream_text o)))
          else [])
  /\ (forall outs,
        forallb (fun o => negb (is_stream o)) outs = true ->
        get_stream_text {| outputs := outs |} = [])
  /\ (forall before o after d p,
        forallb (fun o => negb (carries "text/plain" o)) before = true ->
        data o = Some d -> d !! T "text/plain" = Some p ->
        get_first_text_plain {| outputs := before ++ o :: after |}
        = normalize_text (as_text p))
  /\ (forall outs,
        forallb (fun o => negb (carries "text/plain" o)) outs = true ->
        get_first_text_plain {| outputs := outs |} = [])
  /\ (forall c, ascii_only (get_stream_text c) /\ ascii_only (get_first_text_plain c))
  /\ (forall s, ascii_only s -> normalize_text s = s).
Proof.
  split; [exact get_stream_text_app |].
  split.
  { intros o. unfold get_stream_text, is_stream. cbn [outputs].
    change (omap ?f [o]) with (match f o with Some y => [y] | None => [] end).
    cbv beta. destruct (bool_decide (output_type o = Some (T "stream"))); [| reflexivity].
    cbn [concat]. now rewrite app_nil_r. }
  split; [exact get_stream_text_none |].
  split.
  { intros before o after d p Hb Hd Hp. unfold get_first_text_plain. cbn [outputs].
    now rewrite (first_payload_first "text/plain" before after o d p Hb Hd Hp). }
  split.
  { intros outs H. unfold get_first_text_plain. cbn [outputs].
    now rewrite (first_payload_none "text/plain" outs H). }
  split.
  { intros c. split; [apply normalize_text_ascii |].
    unfold get_first_text_plain. destruct (first_payload _ _); [| reflexivity].
    apply normalize_text_ascii. }
  exact normalize_text_id.
Qed.

(** X13. The image taken from a cell is that of the first output that
    carries one: its payload is decoded with the line feeds removed, and
    what the decoding gives, bytes or an error, is the result whatever
    the later outputs carry; a cell without an image payload gives
    nothing, and no error. *)
Theorem first_image_payload_wins :
  (forall before o after d p,
      forallb (fun o => negb (carries "image/png" o)) before = true ->
      data o = Some d -> d !! T "image/png" = Some p ->
      extract_png_from_cell {| outputs := before ++ o :: after |}
      = let* image := b64decode (remove_char (chr 10) (as_text p)) in Ok (Some image))
  /\ (forall outs,
        forallb (fun o => negb (carries "image/png" o)) outs = true ->
        extract_png_from_cell {| outputs := outs |} = Ok None)
  /\ (forall c,
        extract_png_from_cell c = Ok None ->
        forallb (fun o => negb (carries "image/png" o)) (outputs c) = true).
Proof.
  split; [| split].
  - intros before o after d p Hb Hd Hp. unfold extract_png_from_cell. cbn [outputs].
    rewrite (first_payload_first "image/png" before after o d p Hb Hd Hp).
    now rewrite replace_char_empty.
  - intros outs H. unfold extract_png_from_cell. cbn [outputs].
    now rewrite (first_payload_none "image/png" outs H).
  - intros [outs]. unfold extract_png_from_cell. cbn [outputs].
    induction outs as [| o outs IH]; [reflexivity |]. cbn [first_payload forallb].
    unfold carries at 1. destruct (data o) as [d |]; [| exact IH].
    destruct (d !! T "image/png") as [p |] eqn:E.
    + destruct (b64decode _); discriminate.
    + intros H. rewrite bool_decide_eq_false_2 by (intros [? ?]; congruence).
      now apply IH.
Qed.

(** * Text cleaned of markup is single-spaced *)

Lemma split_ws_from_words (s : text) :
  forall cur, forallb not_space cur = true -> Forall is_word (split_ws_from cur s).
Proof.
  induction s as [| c s IH]; intros cur Hcur; cbn [split_ws_from].
  - destruct cur as [| x cur]; [constructor |]. constructor; [| constructor].
    split.
    + intros H. apply (f_equal (@length ascii)) in H. rewrite length_rev in H. discriminate.
    + rewrite forallb_forall in *. intros y Hy. apply Hcur. now apply in_rev.
  - destruct (is_space c) eqn:Hc.
    + destruct cur as [| x cur]; [now apply IH |]. constructor; [| now apply IH].
      split.
      * intros H. apply (f_equal (@length ascii)) in H. rewrite length_rev in H.
        discriminate.
      * rewrite forallb_forall in *. intros y Hy. apply Hcur. now apply in_rev.
    + apply IH. cbn [forallb]. unfold not_space at 1. now rewrite Hc.
Qed.

Lemma split_ws_words (s : text) : Forall is_word (split_ws s).
Proof. now apply split_ws_from_words. Qed.

Lemma word_first (w : text) :
  is_word w -> exists c rest, w = c :: rest /\ is_space c = false.
Proof.
  intros [Hne Hw]. destruct w as [| c rest]; [congruence |]. exists c, rest.
  cbn [forallb] in Hw. apply andb_true_iff in Hw as [Hc _].
  now apply negb_true_iff in Hc.
Qed.

(** Words joined by single spaces begin with the first character of the
    first word. *)
Lemma joined_words_first (words : list text) :
  Forall is_word words ->
  match str_join (T " ") words with
  | c :: _ => is_space c = false
  | [] => words = []
  end.
Proof.
  intros H. destruct H as [| w ws Hw Hws]; [reflexivity |].
  destruct (word_first w Hw) as (c & rest & -> & Hc).
  rewrite str_join_cons. exact Hc.
Qed.

Lemma joined_words_chars (words : list text) (c : ascii) :
  Forall is_word words -> In c (str_join (T " ") words) -> is_space c = true ->
  c = " "%char.
Proof.
  intros H. induction H as [| w ws Hw Hws IH]; [intros [] |].
  rewrite str_join_cons. intros Hin Hc. apply in_app_or in Hin as [Hin | Hin].
  - destruct Hw as [_ Hw]. rewrite forallb_forall in Hw. specialize (Hw c Hin).
    unfold not_space in Hw. now rewrite Hc in Hw.
  - unfold join_tail in Hin. destruct ws as [| w' ws']; [destruct Hin |].
    apply in_app_or in Hin as [[<- | []] | Hin]; [reflexivity |]. now apply IH.
Qed.

Lemma joined_words_last (words : list text) :
  Forall is_word words ->
  match rev (str_join (T " ") words) with
  | c :: _ => is_space c = false
  | [] => True
  end.
Proof.
  intros H. induction H as [| w ws Hw Hws IH]; [exact I |].
  rewrite str_join_cons. unfold join_tail. destruct ws as [| w' ws'].
  - rewrite app_nil_r. destruct Hw as [Hne Hw].
    destruct (rev w) as [| c r] eqn:E; [exact I |].
    rewrite forallb_forall in Hw.
    assert (In c w) as Hc by (apply in_rev; rewrite E; now left).
    apply Hw in Hc. now apply negb_true_iff in Hc.
  - rewrite !rev_app_distr.
    pose proof (joined_words_first (w' :: ws') Hws) as Hf.
    destruct (str_join (T " ") (w' :: ws')) as [| c r] eqn:E; [discriminate |].
    destruct (rev (c :: r)) as [| x xs] eqn:Er.
    + apply (f_equal (@length ascii)) in Er. rewrite length_rev in Er. discriminate.
    + exact IH.
Qed.

Lemma no_double_space_word (w rest : text) :
  forallb not_space w = true ->
  match rest with c :: _ => is_space c = false | [] => True end ->
  contains (T "  ") rest = false ->
  contains (T "  ") (w ++ T " " ++ rest) = false.
Proof.
  intros Hw Hr Hc. induction w as [| x w IH]; cbn [app].
  - change (T " " ++ rest) with (" "%char :: rest). cbn [contains]. rewrite Hc.
    destruct rest as [| c r]; [reflexivity |].
    cbn [T list_ascii_of_string starts_with].
    assert (char_eqb " " c = false) as ->.
    { apply char_eqb_neq. intros <-. discriminate. }
    now rewrite andb_false_r.
  - cbn [forallb] in Hw. apply andb_true_iff in Hw as [Hx Hw].
    cbn [contains]. rewrite (IH Hw). cbn [T list_ascii_of_string starts_with].
    assert (char_eqb " " x = false) as ->.
    { apply char_eqb_neq. intros <-. discriminate. }
    reflexivity.
Qed.

Lemma no_double_space_single (w : text) :
  forallb not_space w = true -> contains (T "  ") w = false.
Proof.
  intros Hw. induction w as [| x w IH]; [reflexivity |].
  cbn [forallb] in Hw. apply andb_true_iff in Hw as [Hx Hw].
  cbn [contains]. rewrite (IH Hw). cbn [T list_ascii_of_string starts_with].
  assert (char_eqb " " x = false) as ->.
  { apply char_eqb_neq. intros <-. discriminate. }
  reflexivity.
Qed.

Lemma joined_words_single_spaced (words : list text) :
  Forall is_word words -> contains (T "  ") (str_join (T " ") words) = false.
Proof.
  intros H. induction H as [| w ws Hw Hws IH]; [reflexivity |].
  rewrite str_join_cons. unfold join_tail. destruct ws as [| w' ws'].
  - rewrite app_nil_r. apply no_double_space_single, Hw.
  - apply no_double_space_word; [apply Hw | | exact IH].
    pose proof (joined_words_first (w' :: ws') Hws) as Hf.
    now destruct (str_join (T " ") (w' :: ws')).
Qed.

Lemma strip_tags_words (L : PyLib) (txt : text) :
  exists words, Forall is_word words /\ strip_tags txt = str_join (T " ") words.
Proof. unfold strip_tags. eexists. split; [apply split_ws_words | reflexivity]. Qed.

Lemma strip_tags_spaces (L : PyLib) (txt : text) (c : ascii) :
  In c (strip_tags txt) -> is_space c = true -> c = " "%char.
Proof.
  destruct (strip_tags_words L txt) as (words & Hw & ->). now apply joined_words_chars.
Qed.

Lemma strip_tags_stripped (L : PyLib) (txt : text) :
  strip (strip_tags txt) = strip_tags txt
  /\ contains (T "  ") (strip_tags txt) = false.
Proof.
  destruct (strip_tags_words L txt) as (words & Hw & ->). split.
  - apply strip_ends.
    + pose proof (joined_words_first words Hw) as H.
      now destruct (str_join (T " ") words).
    + apply joined_words_last, Hw.
  - now apply joined_words_single_spaced.
Qed.

(** X14. Text cleaned by [strip_tags] is single-spaced, whatever the
    markup and the entities: it is a list of words joined by single
    spaces, so it has no whitespace other than the space, none at either
    end and no two spaces in a row. *)
Theorem strip_tags_single_spaced (L : PyLib) (txt : text) :
  (exists words, Forall is_word words /\ strip_tags txt = str_join (T " ") words)
  /\ (forall c, In c (strip_tags txt) -> is_space c = true -> c = " "%char)
  /\ strip (strip_tags txt) = strip_tags txt
  /\ contains (T "  ") (strip_tags txt) = false.
Proof.
  unfold strip_tags.
  set (words := split_ws (replace [chr 160] (T " ") (html_unescape (re_delete tag_re txt)))).
  assert (Forall is_word words) as Hw by apply split_ws_words.
  split; [eauto |]. split; [| split].
  - intros c. now apply joined_words_chars.
  - apply strip_ends.
    + pose proof (joined_words_first words Hw) as H.
      now destruct (str_join (T " ") words).
    + apply joined_words_last, Hw.
  - now apply joined_words_single_spaced.
Qed.

(** * The serialized record is plain ASCII *)

Lemma plain_text_app (a b : text) : plain_text a -> plain_text b -> plain_text (a ++ b).
Proof. unfold plain_text. intros Ha Hb. now rewrite forallb_app, Ha, Hb. Qed.

Lemma plain_text_concat (parts : list text) :
  Forall plain_text parts -> plain_text (concat parts).
Proof.
  induction 1 as [| p ps Hp Hps IH]; [reflexivity |]. cbn [concat].
  now apply plain_text_app.
Qed.

Lemma plain_text_join (sep : text) (parts : list text) :
  plain_text sep -> Forall plain_text parts -> plain_text (str_join sep parts).
Proof.
  intros Hsep. induction 1 as [| p ps Hp Hps IH]; [reflexivity |].
  rewrite str_join_cons. apply plain_text_app; [exact Hp |].
  unfold join_tail. destruct ps; [reflexivity |]. now apply plain_text_app.
Qed.

Lemma json_escape_char_plain (c : ascii) : plain_text (json_escape_char c).
Proof. destruct c as [[] [] [] [] [] [] [] []]; vm_compute; reflexivity. Qed.

Lemma json_string_plain (s : text) : plain_text (json_string s).
Proof.
  unfold json_string, dq. apply plain_text_app; [reflexivity |].
  apply plain_text_app; [| reflexivity]. apply plain_text_concat.
  apply Forall_forall. intros p Hp. apply list_elem_of_In, in_map_iff in Hp as (c & <- & _).
  apply json_escape_char_plain.
Qed.

Lemma newline_indent_plain (level : nat) : plain_text (newline_indent level).
Proof.
  unfold newline_indent, plain_text. cbn [forallb]. apply andb_true_iff.
  split; [reflexivity |]. apply forallb_forall. intros c Hc.
  apply repeat_spec in Hc. now subst c.
Qed.

Lemma string_of_digits_plain (d : Decimal.uint) :
  plain_text (T (NilEmpty.string_of_uint d)).
Proof.
  unfold plain_text. induction d; cbn; try exact IHd; reflexivity.
Qed.

Lemma string_of_uint_plain (d : Decimal.uint) :
  plain_text (T (NilZero.string_of_uint d)).
Proof.
  destruct d; try reflexivity; apply (string_of_digits_plain (_ _)).
Qed.

Lemma int_repr_plain (z : Z) : plain_text (int_repr z).
Proof.
  unfold int_repr. destruct (Z.to_int z) as [d | d]; cbn [NilZero.string_of_int].
  - apply string_of_uint_plain.
  - change (T (String "-" ?s)) with ("-"%char :: T s).
    unfold plain_text. cbn [forallb]. apply andb_true_iff. split; [reflexivity |].
    apply string_of_uint_plain.
Qed.

Lemma json_float_plain (L : PyLib) (f : spec_float) :
  plain_text (float_repr f) -> plain_text (json_float f).
Proof. intros H. unfold json_float. destruct f as [| [] | |]; try exact H; reflexivity. Qed.

Lemma json_encode_plain (L : PyLib) :
  forall (value : json) (level : nat),
    Forall (fun f => plain_text (float_repr f)) (json_floats value) ->
    plain_text (json_encode level value).
Proof.
  fix IH 1. intros [| [] | z | f | s | items | entries] level Hf;
    cbn [json_encode]; try reflexivity.
  - apply int_repr_plain.
  - apply json_float_plain. cbn [json_floats] in Hf. now apply Forall_inv in Hf.
  - apply json_string_plain.
  - destruct items as [| v items]; [reflexivity |].
    apply plain_text_app; [reflexivity |].
    apply plain_text_app; [apply newline_indent_plain |].
    apply plain_text_app;
      [| apply plain_text_app; [apply newline_indent_plain | reflexivity]].
    apply plain_text_join;
      [apply plain_text_app; [reflexivity | apply newline_indent_plain] |].
    cbn [json_floats] in Hf. revert Hf. generalize (v :: items). clear v items.
    induction l as [| v items IHl]; intros Hf; [constructor |].
    cbn [flat_map map] in *. apply Forall_app in Hf as [Hv Hi].
    constructor; [now apply IH | now apply IHl].
  - destruct entries as [| kv entries]; [reflexivity |].
    apply plain_text_app; [reflexivity |].
    apply plain_text_app; [apply newline_indent_plain |].
    apply plain_text_app;
      [| apply plain_text_app; [apply newline_indent_plain | reflexivity]].
    apply plain_text_join;
      [apply plain_text_app; [reflexivity | apply newline_indent_plain] |].
    cbn [json_floats] in Hf. revert Hf. generalize (kv :: entries). clear kv entries.
    induction l as [| [k v] entries IHl]; intros Hf; [constructor |].
    cbn [flat_map map] in *. apply Forall_app in Hf as [Hv Hi].
    constructor; [| now apply IHl].
    apply plain_text_app; [apply json_string_plain |].
    apply plain_text_app; [reflexivity | now apply IH].
Qed.

Lemma utf8_encode_plain (s : text) :
  plain_text s -> utf8_encode s = map (fun c => byte_of_N (code c)) s.
Proof.
  unfold plain_text, utf8_encode. induction s as [| c s IH]; [reflexivity |].
  cbn [forallb flat_map map]. intros H. apply andb_true_iff in H as [Hc Hs].
  rewrite (IH Hs).
  assert (N.ltb (code c) 128 = true) as ->; [| reflexivity].
  unfold plain_char in Hc. apply N.ltb_lt.
  apply orb_true_iff in Hc as [Hc | Hc].
  - apply N.eqb_eq in Hc. lia.
  - apply andb_true_iff in Hc as [_ Hc]. apply N.leb_le in Hc. lia.
Qed.

Lemma plain_char_byte (c : ascii) :
  plain_char c = true -> (Byte.to_N (byte_of_N (code c)) < 128)%N.
Proof.
  destruct c as [[] [] [] [] [] [] [] []]; vm_compute; intros H;
    first [discriminate H | reflexivity].
Qed.

Lemma plain_text_bytes (s : text) :
  plain_text s ->
  ascii_bytes (utf8_encode s) /\ length (utf8_encode s) = length s.
Proof.
  intros H. rewrite (utf8_encode_plain s H). split; [| apply length_map].
  unfold ascii_bytes. apply Forall_forall. intros b Hb.
  apply list_elem_of_In, in_map_iff in Hb as (c & <- & Hc).
  apply plain_char_byte. unfold plain_text in H. rewrite forallb_forall in H. now apply H.
Qed.

(** X15. The two metrics files are plain ASCII whatever text the record
    holds: when the floats of the record print in ASCII, its serialization
    has only printable ASCII characters and line feeds, so that both files
    hold one byte below 128 for each character. *)
Theorem metrics_files_are_ascii (L : PyLib) (metrics : json) (w : world) :
  Forall (fun f => plain_text (float_repr f)) (json_floats metrics) ->
  plain_text (json_dumps metrics)
  /\ exists data script : bytes,
       files (fst (write_metrics metrics w)) !! JSON_PATH = Some data
       /\ files (fst (write_metrics metrics w)) !! JS_PATH = Some script
       /\ ascii_bytes data /\ ascii_bytes script
       /\ length data = length (json_dumps metrics)
       /\ length script
          = (length JS_PREFIX + length (json_dumps metrics) + length JS_SUFFIX)%nat.
Proof.
  intros Hf. assert (plain_text (json_dumps metrics)) as Hp by now apply json_encode_plain.
  split; [exact Hp |].
  assert (plain_text (JS_PREFIX ++ json_dumps metrics ++ JS_SUFFIX)) as Hs.
  { apply plain_text_app; [reflexivity |]. apply plain_text_app; [exact Hp | reflexivity]. }
  rewrite write_metrics_effect. cbn [fst files].
  exists (utf8_encode (json_dumps metrics)),
    (utf8_encode (JS_PREFIX ++ json_dumps metrics ++ JS_SUFFIX)).
  destruct (plain_text_bytes _ Hp) as [Ha Hl], (plain_text_bytes _ Hs) as [Ha' Hl'].
  repeat split; auto.
  - rewrite lookup_insert_ne by (intros H; symmetry in H; exact (metrics_paths_differ H)).
    apply lookup_insert_eq.
  - apply lookup_insert_eq.
  - rewrite Hl', !length_app. lia.
Qed.

Lemma metrics_files_are_ascii_witness :
  plain_text
    (@json_dumps small_lib
       (JDict [(T "feature", JStr [chr 233; chr 10]);
               (T "correlation", JFloat (S754_finite false 6755399441055744 (-52)))]))
  /\ exists data script : bytes,
       files (fst (@write_metrics small_lib
                     (JDict [(T "feature", JStr [chr 233; chr 10]);
                             (T "correlation", JFloat (S754_finite false 6755399441055744 (-52)))])
                     empty_world)) !! JSON_PATH = Some data
       /\ files (fst (@write_metrics small_lib
                        (JDict [(T "feature", JStr [chr 233; chr 10]);
                                (T "correlation", JFloat (S754_finite false 6755399441055744 (-52)))])
                        empty_world)) !! JS_PATH = Some script
       /\ ascii_bytes data /\ ascii_bytes script
       /\ length data
          = length (@json_dumps small_lib
                      (JDict [(T "feature", JStr [chr 233; chr 10]);
                              (T "correlation", JFloat (S754_finite false 6755399441055744 (-52)))]))
       /\ length script
          = (length JS_PREFIX
             + length (@json_dumps small_lib
                         (JDict [(T "feature", JStr [chr 233; chr 10]);
                                 (T "correlation", JFloat (S754_finite false 6755399441055744 (-52)))]))
             + length JS_SUFFIX)%nat.
Proof.
  apply (metrics_files_are_ascii small_lib). repeat constructor.
Defined.

(** * Which captured texts are numbers *)

Lemma int_char_digits (g : text) :
  forallb int_char g = true -> forallb is_digit (remove_char "," g) = true.
Proof.
  intros Hg. apply forallb_forall. intros c Hc. apply filter_In in Hc as [Hin Hc].
  rewrite forallb_forall in Hg. specialize (Hg c Hin). unfold int_char in Hg.
  apply orb_true_iff in Hg as [H | H]; [exact H |].
  unfold is_char in H. cbn in H. rewrite orb_false_r in H.
  apply char_eqb_eq in H. subst c. discriminate.
Qed.

Lemma digits_strip (d : text) : forallb is_digit d = true -> strip d = d.
Proof.
  intros H. apply strip_id. apply forallb_forall. intros c Hc. apply negb_true_iff.
  rewrite forallb_forall in H. now apply digit_facts, H.
Qed.

Lemma digits_have_digit (g : text) :
  forallb int_char g = true ->
  (existsb is_digit g = true <-> remove_char "," g <> []).
Proof.
  intros Hg. induction g as [| c g IH]; [cbn; split; [discriminate | congruence] |].
  cbn [forallb] in Hg. apply andb_true_iff in Hg as [Hc Hg]. specialize (IH Hg).
  cbn [existsb remove_char List.filter]. unfold remove_char in IH.
  unfold int_char in Hc. destruct (is_digit c) eqn:Hd.
  - assert (char_eqb "," c = false) as ->.
    { apply char_eqb_neq. intros <-. discriminate. }
    cbn. split; [discriminate | reflexivity].
  - cbn in Hc. unfold is_char in Hc. cbn in Hc. rewrite orb_false_r in Hc.
    apply char_eqb_eq in Hc. subst c. cbn. exact IH.
Qed.

(** X16. A captured count, a text of digits and commas, is a number
    exactly when it has a digit and, the commas aside, at most
    [MAX_STR_DIGITS] digits: then [parse_int] returns the number its digits
    write; a text of commas alone, and one of more digits than the limit,
    raise ValueError. *)
Theorem parse_int_of_captured_count (g : text) :
  forallb int_char g = true ->
  parse_int g =
    if existsb is_digit g && (length (remove_char "," g) <=? MAX_STR_DIGITS)%nat
    then Ok (digits_to_Z (remove_char "," g))
    else Raise ValueError.
Proof.
  intros Hg. rewrite parse_int_commas.
  pose proof (int_char_digits g Hg) as Hd. pose proof (digits_have_digit g Hg) as Hex.
  rewrite (digits_strip _ Hd).
  destruct (existsb is_digit g) eqn:E.
  - rewrite (pyint_digits_cases _ (proj1 Hex eq_refl) Hd). cbn [andb].
    destruct (Nat.leb_spec (length (remove_char "," g)) MAX_STR_DIGITS) as [Hl | Hl].
    + now rewrite (proj2 (Nat.ltb_ge _ _) Hl).
    + now rewrite (proj2 (Nat.ltb_lt _ _) Hl).
  - cbn [andb]. destruct (remove_char "," g) as [| c d] eqn:E'; [reflexivity |].
    assert (false = true) by (apply Hex; discriminate).
    discriminate.
Qed.

Lemma parse_int_of_captured_count_witness :
  forallb int_char (T "1,460") = true
  /\ parse_int (T "1,460") = Ok 1460
  /\ forallb int_char (repeat "1"%char 4300) = true
  /\ parse_int (repeat "1"%char 4300) = Ok (digits_to_Z (repeat "1"%char 4300))
  /\ forallb int_char (T "1," ++ repeat "1"%char 4300) = true
  /\ parse_int (T "1," ++ repeat "1"%char 4300) = Raise ValueError.
Proof.
  assert (forallb int_char (T "1,460") = true) as H1 by reflexivity.
  assert (forallb int_char (repeat "1"%char 4300) = true) as H2
    by (vm_compute; reflexivity).
  assert (forallb int_char (T "1," ++ repeat "1"%char 4300) = true) as H3
    by (vm_compute; reflexivity).
  split; [exact H1 |]. split.
  { rewrite (parse_int_of_captured_count _ H1). vm_compute. reflexivity. }
  split; [exact H2 |]. split.
  { rewrite (parse_int_of_captured_count _ H2). vm_compute. reflexivity. }
  split; [exact H3 |].
  rewrite (parse_int_of_captured_count _ H3). vm_compute. reflexivity.
Defined.

(** A digit part of a text without underscores is a prefix of it. *)
Lemma digitpart_tail_prefix (s : text) :
  forallb dec_char s = true ->
  forall ds r, digitpart_tail s = (ds, r) ->
    s = ds ++ r /\ forallb is_digit ds = true
    /\ match r with c :: _ => is_digit c = false | [] => True end.
Proof.
  induction s as [| c s IH]; intros Hs ds r; cbn [digitpart_tail].
  - intros [= <- <-]. auto.
  - cbn [forallb] in Hs. apply andb_true_iff in Hs as [Hc Hs].
    destruct (is_digit c) eqn:Hd.
    + destruct (digitpart_tail s) as [ds' r'] eqn:E. intros [= <- <-].
      destruct (IH Hs ds' r' eq_refl) as (-> & Hds & Hr). cbn. now rewrite Hd.
    + assert (char_eqb c "_" = false) as ->.
      { apply char_eqb_neq. intros ->. discriminate. }
      intros [= <- <-]. cbn. auto.
Qed.

Lemma digitpart_prefix (s ds r : text) :
  forallb dec_char s = true -> digitpart s = Some (ds, r) ->
  s = ds ++ r /\ ds <> [] /\ forallb is_digit ds = true
  /\ match r with c :: _ => is_digit c = false | [] => True end.
Proof.
  intros Hs. destruct s as [| c s]; [discriminate |]. cbn [digitpart].
  cbn [forallb] in Hs. apply andb_true_iff in Hs as [Hc Hs].
  destruct (is_digit c) eqn:Hd; [| discriminate].
  destruct (digitpart_tail s) as [ds' r'] eqn:E. intros [= <- <-].
  destruct (digitpart_tail_prefix s Hs ds' r' E) as (-> & Hds & Hr).
  cbn. rewrite Hd. repeat split; auto; discriminate.
Qed.

Lemma digitpart_none (s : text) :
  digitpart s = None -> match s with c :: _ => is_digit c = false | [] => True end.
Proof.
  destruct s as [| c s]; [easy |]. cbn. destruct (is_digit c); [| easy].
  now destruct (digitpart_tail s).
Qed.

Lemma dec_char_point (c : ascii) : dec_char c = true -> is_digit c = false -> c = "."%char.
Proof.
  unfold dec_char. intros H Hd. rewrite Hd in H. cbn in H. unfold is_char in H. cbn in H.
  rewrite orb_false_r in H. now apply char_eqb_eq in H.
Qed.

Lemma float_exponent_dec (r : text) (ex : Z) :
  forallb dec_char r = true -> float_exponent r = Some (ex, []) -> r = [] /\ ex = 0.
Proof.
  destruct r as [| c r]; [now intros _ [= <-] |]. cbn [forallb float_exponent].
  intros H. apply andb_true_iff in H as [Hc _].
  assert (ci_char "e" c = false) as ->; [| discriminate].
  destruct (is_digit c) eqn:Hd.
  - revert Hd. destruct c as [[] [] [] [] [] [] [] []]; vm_compute; congruence.
  - now rewrite (dec_char_point c Hc Hd).
Qed.

(** The parts of a text of digits and points that [float_number] reads
    whole. *)
Lemma float_number_dec_inv (t ip fp : text) :
  forallb dec_char t = true -> float_number t = Some (ip, fp, []) ->
  decimal_writing t ip fp.
Proof.
  intros Ht. unfold float_number, decimal_writing.
  destruct (digitpart t) as [[ip0 r0] |] eqn:E.
  - destruct (digitpart_prefix t ip0 r0 Ht E) as (-> & Hne & Hd & Hr).
    rewrite forallb_app in Ht. apply andb_true_iff in Ht as [_ Hr0].
    destruct r0 as [| c r1].
    + intros [= <- <-]. rewrite app_nil_r. repeat split; auto.
    + cbn [forallb] in Hr0. apply andb_true_iff in Hr0 as [Hc Hr1].
      rewrite (dec_char_point c Hc Hr) in *. change (char_eqb "." ".") with true. cbn iota.
      destruct (digitpart r1) as [[fp0 r2] |] eqn:E1.
      * intros [= <- <- ->].
        destruct (digitpart_prefix r1 fp0 [] Hr1 E1) as (-> & Hfne & Hfd & _).
        rewrite app_nil_r. repeat split; auto.
      * intros [= <- <- ->]. repeat split; auto.
  - destruct t as [| c r1]; [discriminate |].
    cbn [forallb] in Ht. apply andb_true_iff in Ht as [Hc Hr1].
    pose proof (digitpart_none _ E) as Hd. cbn in Hd.
    rewrite (dec_char_point c Hc Hd) in *. change (char_eqb "." ".") with true. cbn iota.
    destruct (digitpart r1) as [[fp0 r2] |] eqn:E1; [| discriminate].
    intros [= <- <- ->].
    destruct (digitpart_prefix r1 fp0 [] Hr1 E1) as (-> & Hfne & Hfd & _).
    rewrite app_nil_r. repeat split; auto.
Qed.

Lemma float_number_dec (t ip fp : text) :
  decimal_writing t ip fp -> float_number t = Some (ip, fp, []).
Proof.
  intros (Hi & Hf & Hne & [-> | [-> ->]]).
  - destruct fp as [| c fp]; [| apply float_number_plain; auto; discriminate].
    destruct Hne as [Hne | Hne]; [| congruence].
    unfold float_number. rewrite digitpart_stop; [| exact Hne | exact Hi | now split].
    reflexivity.
  - destruct Hne as [Hne | Hne]; [| congruence]. now apply float_number_integer.
Qed.

Lemma decimal_writing_dec (t ip fp : text) :
  decimal_writing t ip fp -> forallb dec_char t = true.
Proof.
  intros (Hi & Hf & _ & [-> | [-> ->]]).
  - rewrite forallb_app. cbn [forallb]. now rewrite (digit_is_dec ip Hi), (digit_is_dec fp Hf).
  - now apply digit_is_dec.
Qed.

Lemma num_char_dec (g : text) :
  forallb num_char g = true -> forallb dec_char (remove_char "," g) = true.
Proof.
  intros Hg. apply forallb_forall. intros c Hc. apply filter_In in Hc as [Hin Hc].
  rewrite forallb_forall in Hg. specialize (Hg c Hin). revert Hg Hc.
  unfold num_char, dec_char, is_char. cbn. destruct (is_digit c); [reflexivity |].
  cbn. rewrite !orb_false_r. rewrite (Bool.eqb_true_iff) || idtac.
  destruct (char_eqb c ",") eqn:E; [| now cbn].
  apply char_eqb_eq in E. subst c. discriminate.
Qed.

Lemma pyfloat_dec (t : text) (f : spec_float) :
  forallb dec_char t = true ->
  (pyfloat t = Ok f <->
   exists ip fp,
     decimal_writing t ip fp
     /\ f = decimal_to_float false (digits_to_Z (ip ++ fp)) (0 - Z.of_nat (length fp))).
Proof.
  intros Ht. split.
  - unfold pyfloat.
    destruct (signed_number_strip false t Ht) as (Hs & _ & _). cbn [sign_text app] in Hs.
    rewrite Hs. destruct t as [| c t].
    + intros H. vm_compute in H. discriminate H.
    + pose proof Ht as Hc. cbn [forallb] in Hc. apply andb_true_iff in Hc as [Hc Ht'].
      pose proof (take_sign_signed false (c :: t) Hc) as Hts. cbn [sign_text app] in Hts.
      rewrite Hts. destruct (plain_number_no_word c t Hc) as [-> ->].
      destruct (float_number (c :: t)) as [[[ip fp] r] |] eqn:En; [| discriminate].
      destruct (float_exponent r) as [[ex [| ? ?]] |] eqn:Ee; try discriminate.
      assert (forallb dec_char r = true) as Hr.
      { clear - Ht En. unfold float_number in En.
        destruct (digitpart (c :: t)) as [[ip0 r0] |] eqn:E.
        - destruct (digitpart_prefix _ _ _ Ht E) as (Heq & _ & _ & _).
          rewrite Heq, forallb_app in Ht. apply andb_true_iff in Ht as [_ Hr0].
          destruct r0 as [| x r1]; [now injection En as _ _ <- |].
          cbn [forallb] in Hr0. apply andb_true_iff in Hr0 as [Hx Hr1].
          destruct (char_eqb x "."); [| injection En as _ _ <-; cbn; now rewrite Hx].
          destruct (digitpart r1) as [[fp0 r2] |] eqn:E1; [| now injection En as _ _ <-].
          injection En as _ _ <-.
          destruct (digitpart_prefix _ _ _ Hr1 E1) as (Heq1 & _ & _ & _).
          rewrite Heq1, forallb_app in Hr1. now apply andb_true_iff in Hr1 as [_ ?].
        - cbn [forallb] in Ht. apply andb_true_iff in Ht as [_ Ht'].
          destruct (char_eqb c "."); [| discriminate].
          destruct (digitpart t) as [[fp0 r2] |] eqn:E1; [| discriminate].
          injection En as _ _ <-.
          destruct (digitpart_prefix _ _ _ Ht' E1) as (Heq1 & _ & _ & _).
          rewrite Heq1, forallb_app in Ht'. now apply andb_true_iff in Ht' as [_ ?]. }
      destruct (float_exponent_dec r ex Hr Ee) as [-> ->].
      intros [= <-]. exists ip, fp. split; [| reflexivity].
      now apply float_number_dec_inv.
  - intros (ip & fp & Hw & ->).
    apply (pyfloat_signed false t ip fp Ht). now apply float_number_dec.
Qed.

(** X17. A captured number, a text of digits, commas and points, converts
    exactly when, the commas aside, it is a decimal writing: digits with at
    most one point and at least one digit.  [parse_float] then returns the
    float nearest to the number written, and raises ValueError on every
    other captured text. *)
Theorem parse_float_of_captured_number (g : text) :
  forallb num_char g = true ->
  (forall f,
      parse_float g = Ok f <->
      exists ip fp,
        decimal_writing (remove_char "," g) ip fp
        /\ f = decimal_to_float false (digits_to_Z (ip ++ fp)) (0 - Z.of_nat (length fp)))
  /\ ((forall ip fp, ~ decimal_writing (remove_char "," g) ip fp) ->
      parse_float g = Raise ValueError).
Proof.
  intros Hg. pose proof (num_char_dec g Hg) as Hd.
  assert (forall f,
            parse_float g = Ok f <->
            exists ip fp,
              decimal_writing (remove_char "," g) ip fp
              /\ f = decimal_to_float false (digits_to_Z (ip ++ fp))
                       (0 - Z.of_nat (length fp))) as H.
  { intros f. rewrite parse_float_commas.
    destruct (signed_number_strip false _ Hd) as (_ & Hs & _). cbn [sign_text app] in Hs.
    rewrite Hs. now apply pyfloat_dec. }
  split; [exact H |].
  intros Hno. destruct (parse_float g) as [f | e] eqn:E.
  - destruct (proj1 (H f) eq_refl) as (ip & fp & Hw & _). now destruct (Hno ip fp).
  - now rewrite (parse_float_raises g e E).
Qed.

Lemma parse_float_of_captured_number_witness :
  (forall f,
      parse_float (T "1,234.5") = Ok f <->
      exists ip fp,
        decimal_writing (remove_char "," (T "1,234.5")) ip fp
        /\ f = decimal_to_float false (digits_to_Z (ip ++ fp)) (0 - Z.of_nat (length fp)))
  /\ ((forall ip fp, ~ decimal_writing (remove_char "," (T "1,234.5")) ip fp) ->
      parse_float (T "1,234.5") = Raise ValueError).
Proof. apply parse_float_of_captured_number. reflexivity. Defined.

(** * Alerts are routed by their category *)

Section Routing.
Context {R : Type} (parse : alert -> outcome (option R)) (category : string)
  (origin : R -> text * text).
Hypothesis parse_routes :
  forall a r,
    parse a = Ok (Some r) ->
    text_eqb (alert_type a) (T category) = true
    /\ origin r = (alert_feature a, alert_message a).

Lemma collect_alerts_routes (alert_rows : list alert) :
  forall rows0 rows : list R,
    for_each
      (fun rows a =>
         let* r := parse a in
         Ok (match r with Some row => rows ++ [row] | None => rows end))
      alert_rows rows0 = Ok rows ->
    exists new kept,
      rows = rows0 ++ new
      /\ sublist kept (of_category category alert_rows)
      /\ map origin new = map (fun a => (alert_feature a, alert_message a)) kept.
Proof.
  induction alert_rows as [| a alert_rows IH]; intros rows0 rows; cbn [for_each].
  - intros [= <-]. exists [], []. rewrite app_nil_r. repeat split. constructor.
  - destruct (parse a) as [[r |] | e] eqn:E; cbn [bind]; [| | discriminate].
    + intros H. destruct (IH _ _ H) as (new & kept & -> & Hsub & Hmap).
      destruct (parse_routes a r E) as [Ht Ho].
      exists (r :: new), (a :: kept). rewrite <- app_assoc. split; [reflexivity |].
      unfold of_category in *. cbn [List.filter]. rewrite Ht. split.
      * now constructor.
      * cbn [map]. now rewrite Ho, Hmap.
    + intros H. destruct (IH _ _ H) as (new & kept & -> & Hsub & Hmap).
      exists new, kept. split; [reflexivity |]. split; [| exact Hmap].
      unfold of_category in *. cbn [List.filter].
      destruct (text_eqb (alert_type a) (T category)); [now constructor | exact Hsub].
Qed.

End Routing.

Lemma parse_missing_alert_routes (a : alert) (r : missing_alert) :
  parse_missing_alert a = Ok (Some r) ->
  text_eqb (alert_type a) (T "Missing") = true
  /\ (ma_feature r, ma_message r) = (alert_feature a, alert_message a).
Proof.
  unfold parse_missing_alert.
  destruct (text_eqb (alert_type a) (T "Missing")); cbn [negb]; [| discriminate].
  destruct (re_search _ _) as [cs |]; [| discriminate].
  destruct (parse_int _); cbn [bind]; [| discriminate].
  destruct (parse_float _); cbn [bind]; [| discriminate].
  now intros [= <-].
Qed.

Lemma parse_zero_alert_routes (a : alert) (r : zero_alert) :
  parse_zero_alert a = Ok (Some r) ->
  text_eqb (alert_type a) (T "Zeros") = true
  /\ (za_feature r, za_message r) = (alert_feature a, alert_message a).
Proof.
  unfold parse_zero_alert.
  destruct (text_eqb (alert_type a) (T "Zeros")); cbn [negb]; [| discriminate].
  destruct (re_search _ _) as [cs |]; [| discriminate].
  destruct (parse_int _); cbn [bind]; [| discriminate].
  destruct (parse_float _); cbn [bind]; [| discriminate].
  now intros [= <-].
Qed.

Lemma parse_imbalance_alert_routes (a : alert) (r : imbalance_alert) :
  parse_imbalance_alert a = Ok (Some r) ->
  text_eqb (alert_type a) (T "Imbalance") = true
  /\ (ia_feature r, ia_message r) = (alert_feature a, alert_message a).
Proof.
  unfold parse_imbalance_alert.
  destruct (text_eqb (alert_type a) (T "Imbalance")); cbn [negb]; [| discriminate].
  destruct (re_search _ _) as [cs |]; [| discriminate].
  destruct (parse_float _); cbn [bind]; [| discriminate].
  now intros [= <-].
Qed.

(** X18. Alerts are routed by their category label alone.  The rows
    collected for the missing-value list carry the feature and the message
    of alerts labelled Missing, in their order and at most once each; the
    same holds for the zero list and the label Zeros, and for the
    imbalance list and the label Imbalance.  An alert of any other label
    enters none of the three. *)
Theorem alerts_routed_by_category (alert_rows : list alert) :
  (forall rows,
      collect_alerts parse_missing_alert alert_rows = Ok rows ->
      exists kept,
        sublist kept (of_category "Missing" alert_rows)
        /\ map (fun r => (ma_feature r, ma_message r)) rows
           = map (fun a => (alert_feature a, alert_message a)) kept)
  /\ (forall rows,
        collect_alerts parse_zero_alert alert_rows = Ok rows ->
        exists kept,
          sublist kept (of_category "Zeros" alert_rows)
          /\ map (fun r => (za_feature r, za_message r)) rows
             = map (fun a => (alert_feature a, alert_message a)) kept)
  /\ (forall rows,
        collect_alerts parse_imbalance_alert alert_rows = Ok rows ->
        exists kept,
          sublist kept (of_category "Imbalance" alert_rows)
          /\ map (fun r => (ia_feature r, ia_message r)) rows
             = map (fun a => (alert_feature a, alert_message a)) kept).
Proof.
  unfold collect_alerts. split; [| split]; intros rows H.
  - destruct (collect_alerts_routes parse_missing_alert "Missing"
                (fun r => (ma_feature r, ma_message r)) parse_missing_alert_routes
                alert_rows [] rows H) as (new & kept & -> & Hs & Hm); eauto.
  - destruct (collect_alerts_routes parse_zero_alert "Zeros"
                (fun r => (za_feature r, za_message r)) parse_zero_alert_routes
                alert_rows [] rows H) as (new & kept & -> & Hs & Hm); eauto.
  - destruct (collect_alerts_routes parse_imbalance_alert "Imbalance"
                (fun r => (ia_feature r, ia_message r)) parse_imbalance_alert_routes
                alert_rows [] rows H) as (new & kept & -> & Hs & Hm); eauto.
Qed.

(** * The count of alerts by category *)

Lemma counter_add_get (d : list (text * Z)) (key : text) :
  dict_get (counter_add d key) key = Some (default 0 (dict_get d key) + 1).
Proof.
  induction d as [| [k n] d IH]; cbn [counter_add dict_get].
  - now rewrite text_eqb_refl.
  - destruct (text_eqb k key) eqn:E; cbn [dict_get]; rewrite E; [reflexivity | exact IH].
Qed.

Lemma counter_add_get_ne (d : list (text * Z)) (key key' : text) :
  key <> key' -> dict_get (counter_add d key) key' = dict_get d key'.
Proof.
  intros Hne. induction d as [| [k n] d IH]; cbn [counter_add dict_get].
  - now rewrite text_eqb_neq.
  - destruct (text_eqb k key) eqn:E; cbn [dict_get].
    + apply text_eqb_eq in E. subst k. now rewrite text_eqb_neq.
    + now rewrite IH.
Qed.

Lemma counter_add_total (d : list (text * Z)) (key : text) :
  total (counter_add d key) = total d + 1.
Proof.
  unfold total. induction d as [| [k n] d IH]; cbn [counter_add map snd fold_right].
  - lia.
  - destruct (text_eqb k key); cbn [map snd fold_right]; lia.
Qed.

Lemma counter_add_keys (d : list (text * Z)) (key : text) :
  (In key (map fst d) -> map fst (counter_add d key) = map fst d)
  /\ (~ In key (map fst d) -> map fst (counter_add d key) = map fst d ++ [key]).
Proof.
  induction d as [| [k n] d [IH1 IH2]]; cbn [counter_add map fst app].
  - split; [intros [] | reflexivity].
  - destruct (text_eqb k key) eqn:E; cbn [map fst].
    + apply text_eqb_eq in E. subst k. split; [reflexivity |].
      intros H. exfalso. apply H. now left.
    + assert (k <> key) as Hne by (intros ->; now rewrite text_eqb_refl in E).
      split.
      * intros [? | Hin]; [congruence |]. now rewrite IH1.
      * intros H. rewrite IH2; [reflexivity |]. intros Hin. apply H. now right.
Qed.

Lemma counter_add_nodup (d : list (text * Z)) (key : text) :
  NoDup (map fst d) -> NoDup (map fst (counter_add d key)).
Proof.
  intros Hd. destruct (counter_add_keys d key) as [H1 H2].
  destruct (decide (key ∈ map fst d)) as [Hin | Hin]; rewrite list_elem_of_In in Hin.
  - now rewrite H1.
  - rewrite H2 by exact Hin. apply NoDup_app. repeat split; auto.
    + intros x Hx [-> | []]%list_elem_of_In. now apply list_elem_of_In in Hx.
    + apply NoDup_singleton.
Qed.

Lemma counter_fold (labels : list text) :
  forall (d : list (text * Z)) (label : text),
    dict_get (fold_left counter_add labels d) label
    = (if occurrences label labels =? 0 then dict_get d label
       else Some (default 0 (dict_get d label) + occurrences label labels))
    /\ total (fold_left counter_add labels d) = total d + Z.of_nat (length labels)
    /\ (NoDup (map fst d) -> NoDup (map fst (fold_left counter_add labels d))).
Proof.
  induction labels as [| x labels IH]; intros d label; cbn [fold_left].
  - cbn. split; [reflexivity |]. split; [lia | auto].
  - destruct (IH (counter_add d x) label) as (Hg & Ht & Hn). rewrite Hg, Ht.
    rewrite counter_add_total.
    split; [| split; [cbn [length]; lia | intros H; apply Hn; now apply counter_add_nodup]].
    assert (0 <= occurrences label labels) as Hpos by (unfold occurrences; lia).
    assert (occurrences label (x :: labels)
            = if text_eqb label x then occurrences label labels + 1
              else occurrences label labels) as ->.
    { unfold occurrences. cbn [List.filter]. destruct (text_eqb label x); cbn [length]; lia. }
    destruct (text_eqb label x) eqn:E.
    + apply text_eqb_eq in E. subst x. rewrite counter_add_get.
      destruct (Z.eqb_spec (occurrences label labels + 1) 0) as [H0 | H0]; [lia |].
      destruct (Z.eqb_spec (occurrences label labels) 0) as [H1 | H1].
      * rewrite H1. reflexivity.
      * change (default 0 (Some ?a)) with a. f_equal. lia.
    + rewrite counter_add_get_ne; [reflexivity |].
      intros ->. now rewrite text_eqb_refl in E.
Qed.

(** The counter counts every label once. *)
Lemma counter_counts (labels : list text) :
  (forall label,
      dict_get (fold_left counter_add labels []) label
      = if occurrences label labels =? 0 then None else Some (occurrences label labels))
  /\ NoDup (map fst (fold_left counter_add labels []))
  /\ total (fold_left counter_add labels []) = Z.of_nat (length labels).
Proof.
  split; [| split].
  - intros label. destruct (counter_fold labels [] label) as (-> & _). cbn [dict_get default].
    now destruct (occurrences label labels =? 0).
  - destruct (counter_fold labels [] []) as (_ & _ & H). apply H. constructor.
  - destruct (counter_fold labels [] []) as (_ & -> & _). reflexivity.
Qed.

Lemma alert_count_re_groups (txt : text) (cs : list text) :
  re_search alert_count_re txt = Some cs ->
  exists count, cs = [count] /\ count <> [] /\ forallb is_digit count = true.
Proof.
  intros H. apply re_search_inv in H as (sk & s' & j & rest & _ & H).
  unfold alert_count_re in H. cbn [match_seq] in H.
  apply rmatch_lit_inv in H as (s1 & -> & H).
  apply rmatch_group_plus_inv in H as (count & s2 & -> & Hne & Hd & H).
  apply rmatch_lit_inv in H as (s3 & -> & H).
  apply accept_inv in H. injection H as -> _. exists count. auto.
Qed.

Lemma parse_number_returns (value : text) : exists r, parse_number value = Ok r.
Proof.
  unfold parse_number. destruct (replace (T ",") [] (strip value)) as [| c v]; [eauto |].
  destruct (contains (T ".") (c :: v)).
  - destruct (pyfloat (c :: v)) as [f | e] eqn:E; cbn [bind catch_value_error]; [eauto |].
    rewrite (pyfloat_raises _ _ E). eauto.
  - destruct (pyint (c :: v)) as [z | e] eqn:E; cbn [bind catch_value_error]; [eauto |].
    rewrite (pyint_raises _ _ E). eauto.
Qed.

(** X19. What a parsed profile report holds, and how parsing one fails.
    The overview carries the name of the file; its count of alerts by
    category counts every listed alert once: a label is listed with the
    number of alerts that carry it, no label twice, and the counts add up
    to the number of alerts listed.  The only failure is the ValueError
    of a size or of an alert number that is no number, or of a count of
    alerts of more digits than [int] reads. *)
Theorem profile_overview_counts_alerts (L : PyLib) (name html : text) :
  match parse_profile_report name html with
  | Ok r =>
      source_file r = name
      /\ exists (alerts : list alert) (counts : list (text * Z)),
           json_field "alerts" (report r) = Some (JList (map alert_json alerts))
           /\ json_field "alert_type_counts" (report r)
              = Some (JDict (map (fun kv => (fst kv, JInt (snd kv))) counts))
           /\ (forall label,
                 dict_get counts label
                 = if occurrences label (map alert_type alerts) =? 0 then None
                   else Some (occurrences label (map alert_type alerts)))
           /\ NoDup (map fst counts)
           /\ total counts = Z.of_nat (length alerts)
  | Raise e => e = ValueError
  end.
Proof.
  unfold parse_profile_report.
  set (stats_raw := match re_search (table_block_re "Dataset statistics") html with
                    | Some cs => parse_table_rows_from_block (group 1 cs)
                    | None => ∅
                    end).
  set (var_types_raw := match re_search (table_block_re "Variable types") html with
                        | Some cs => parse_table_rows_from_block (group 1 cs)
                        | None => ∅
                        end).
  set (alert_rows := match re_search alert_table_re html with
                     | Some cs => parse_alert_rows (group 1 cs)
                     | None => []
                     end).
  destruct (match re_search alert_count_re html with
            | Some cs => pyint (group 1 cs)
            | None => Ok 0
            end) as [n | e] eqn:En; cbn [bind].
  2: { destruct (re_search alert_count_re html) as [cs |];
         [exact (pyint_raises _ _ En) | discriminate En]. }
  pose proof (top_alerts_spec parse_missing_alert ma_missing_pct parse_missing_alert_spec
                alert_rows) as H1.
  fold (top_missing_alerts alert_rows) in H1.
  destruct (top_missing_alerts alert_rows) as [top1 | e]; cbn [bind]; [clear H1 | exact H1].
  pose proof (top_alerts_spec parse_zero_alert za_zero_pct parse_zero_alert_spec
                alert_rows) as H2.
  fold (top_zero_alerts alert_rows) in H2.
  destruct (top_zero_alerts alert_rows) as [top2 | e]; cbn [bind]; [clear H2 | exact H2].
  pose proof (top_alerts_spec parse_imbalance_alert ia_dominant_pct
                parse_imbalance_alert_spec alert_rows) as H3.
  fold (top_imbalance_alerts alert_rows) in H3.
  destruct (top_imbalance_alerts alert_rows) as [top3 | e]; cbn [bind];
    [clear H3 | exact H3].
  destruct (parse_number_returns (get_or_empty stats_raw "number_of_variables")) as [a1 ->].
  destruct (parse_number_returns (get_or_empty stats_raw "number_of_observations"))
    as [a2 ->].
  destruct (parse_number_returns (get_or_empty stats_raw "missing_cells")) as [a3 ->].
  destruct (parse_number_returns
              (replace (T "%") [] (get_or_empty stats_raw "missing_cells_pct"))) as [a4 ->].
  cbn [bind].
  destruct (parse_size_to_bytes (get_or_empty stats_raw "total_size_in_memory"))
    as [b1 | e] eqn:E1; cbn [bind]; [| exact (parse_size_to_bytes_raises _ _ E1)].
  destruct (parse_size_to_bytes (get_or_empty stats_raw "average_record_size_in_memory"))
    as [b2 | e] eqn:E2; cbn [bind]; [| exact (parse_size_to_bytes_raises _ _ E2)].
  destruct (parse_number_returns (get_or_empty var_types_raw "numeric")) as [a5 ->].
  destruct (parse_number_returns (get_or_empty var_types_raw "categorical")) as [a6 ->].
  destruct (parse_number_returns (get_or_empty var_types_raw "boolean")) as [a7 ->].
  cbn [bind source_file report]. split; [reflexivity |].
  exists alert_rows, (fold_left counter_add (map alert_type alert_rows) []).
  destruct (counter_counts (map alert_type alert_rows)) as (Hc & Hn & Ht).
  split; [reflexivity |]. split; [reflexivity |]. split; [exact Hc |].
  split; [exact Hn |]. now rewrite Ht, length_map.
Qed.

(** * The keys of a table of the profile report *)

Lemma replace_from_chars (old new : text) (s : text) :
  forall (skip : nat) (c : ascii),
    In c (replace_from old new skip s) -> In c s \/ In c new.
Proof.
  induction s as [| x s IH]; intros skip c; cbn [replace_from]; [intros [] |].
  destruct skip as [| k].
  - destruct (starts_with old (x :: s)).
    + intros H. apply in_app_or in H as [H | H]; [now right |].
      destruct (IH _ _ H); [left; now right | now right].
    + intros [<- | H]; [left; now left |].
      destruct (IH _ _ H); [left; now right | now right].
  - intros H. destruct (IH _ _ H); [left; now right | now right].
Qed.

Lemma replace_char_gone (a : ascii) (new s : text) :
  ~ In a new -> ~ In a (replace [a] new s).
Proof.
  intros Hnew. unfold replace. induction s as [| x s IH]; [intros [] |].
  cbn [replace_from starts_with length Nat.sub].
  destruct (char_eqb a x) eqn:E.
  - cbn [andb]. destruct s; cbn [starts_with];
      intros H; apply in_app_or in H as [H | H]; auto.
  - cbn [andb]. intros [<- | H]; [| auto]. now rewrite char_eqb_refl in E.
Qed.

Lemma lower_char_key (c : ascii) :
  is_upper_az (lower_char c) = false
  /\ (is_space (lower_char c) = true -> is_space c = true /\ lower_char c = c).
Proof.
  destruct c as [[] [] [] [] [] [] [] []]; vm_compute; split; auto; discriminate.
Qed.

Lemma table_key_chars (L : PyLib) (g : text) :
  forallb key_char
    (replace (T "(%)") (T "pct") (replace (T " ") (T "_") (lower (strip_tags g)))) = true.
Proof.
  apply forallb_forall. intros c Hc.
  apply replace_from_chars in Hc as [Hc | Hc].
  2:{ cbn in Hc. destruct Hc as [<- | [<- | [<- | []]]]; reflexivity. }
  assert (c <> " "%char) as Hsp.
  { intros ->. revert Hc. apply (replace_char_gone " " (T "_")).
    cbn. intros [H | []]. discriminate. }
  apply replace_from_chars in Hc as [Hc | Hc].
  2:{ cbn in Hc. destruct Hc as [<- | []]. reflexivity. }
  unfold lower in Hc. apply in_map_iff in Hc as (x & <- & Hx).
  destruct (lower_char_key x) as [Hup Hs]. unfold key_char. rewrite Hup.
  destruct (is_space (lower_char x)) eqn:E; [| reflexivity].
  destruct (Hs eq_refl) as [Hx' Heq]. rewrite Heq in *.
  destruct (strip_tags_spaces L g x Hx Hx'). congruence.
Qed.

Lemma table_rows_invariant (L : PyLib) (P : text -> text -> Prop) (matches : list (list text)) :
  (forall cs,
      P (replace (T "(%)") (T "pct")
           (replace (T " ") (T "_") (lower (strip_tags (group 1 cs)))))
        (strip_tags (group 2 cs))) ->
  forall rows : gmap text text,
    map_Forall P rows ->
    map_Forall P
      (fold_left
         (fun rows cs =>
            let key :=
              replace (T "(%)") (T "pct")
                (replace (T " ") (T "_") (lower (strip_tags (group 1 cs)))) in
            <[key := strip_tags (group 2 cs)]> rows)
         matches rows).
Proof.
  intros HP. induction matches as [| cs matches IH]; intros rows Hrows; cbn [fold_left].
  - exact Hrows.
  - apply IH. apply map_Forall_insert_2; [apply HP | exact Hrows].
Qed.

(** X20. The rows of a table of the profile report are normalised for
    lookup: a key has no whitespace and no capital letter of the range
    A-Z, and a value is single-spaced text without whitespace at either
    end. *)
Theorem table_rows_normalised (L : PyLib) (block key value : text) :
  parse_table_rows_from_block block !! key = Some value ->
  forallb key_char key = true
  /\ strip value = value
  /\ contains (T "  ") value = false.
Proof.
  unfold parse_table_rows_from_block.
  apply (table_rows_invariant L
           (fun k v => forallb key_char k = true /\ strip v = v
                       /\ contains (T "  ") v = false)).
  - intros cs. split; [apply table_key_chars | apply strip_tags_stripped].
  - apply map_Forall_empty.
Qed.

Lemma table_rows_normalised_witness :
  forallb key_char (T "missing_cells_pct") = true
  /\ strip (T "1.5%") = T "1.5%"
  /\ contains (T "  ") (T "1.5%") = false.
Proof.
  apply (table_rows_normalised small_lib (T "<tr><th>Missing  cells (%)<td> 1.5% ")).
  vm_compute. reflexivity.
Defined.

(** * A scalar field reads the number after its label *)

Lemma rmatch_lit_app (w : text) (k : cont) (rest : text) (i : nat) (cs : list text) :
  rmatch (RLit w) k (w ++ rest) i cs = k rest (i + length w)%nat cs.
Proof. cbn [rmatch]. now rewrite starts_with_app, skipn_length_app. Qed.

(** A greedy run takes all of the run when the match goes on from there. *)
Lemma rep_greedy_longest (p : ascii -> bool) (k : text -> nat -> option mres)
  (rest : text) (r : mres) :
  match rest with c :: _ => p c = false | [] => True end ->
  forall (g : text) (i : nat),
    forallb p g = true ->
    k rest (i + length g)%nat = Some r ->
    rep_greedy p k (g ++ rest) i = Some r.
Proof.
  intros Hrest. induction g as [| c g IH]; intros i Hg Hk.
  - cbn [app length] in *. rewrite Nat.add_0_r in Hk.
    destruct rest as [| c rest]; [exact Hk |]. cbn [rep_greedy]. now rewrite Hrest.
  - cbn [forallb] in Hg. apply andb_true_iff in Hg as [Hc Hg].
    cbn [app rep_greedy]. rewrite Hc. rewrite (IH (S i) Hg); [reflexivity |].
    now replace (S i + length g)%nat with (i + length (c :: g))%nat by (cbn; lia).
Qed.

Lemma rmatch_star_longest (p : ascii -> bool) (k : cont) (g rest : text) (i : nat)
  (cs : list text) (r : mres) :
  match rest with c :: _ => p c = false | [] => True end ->
  forallb p g = true ->
  k rest (i + length g)%nat cs = Some r ->
  rmatch (RStar p) k (g ++ rest) i cs = Some r.
Proof. intros Hrest Hg Hk. cbn [rmatch]. now apply rep_greedy_longest. Qed.

Lemma rmatch_group_plus_longest (p : ascii -> bool) (k : cont) (g rest : text) (i : nat)
  (cs : list text) (r : mres) :
  match rest with c :: _ => p c = false | [] => True end ->
  g <> [] -> forallb p g = true ->
  k rest (i + length g)%nat (cs ++ [g]) = Some r ->
  rmatch (RGroup [RPlus p]) k (g ++ rest) i cs = Some r.
Proof.
  intros Hrest Hne Hg Hk. rewrite rmatch_group_eq. cbn [match_seq rmatch].
  destruct g as [| c g]; [congruence |]. cbn [forallb] in Hg.
  apply andb_true_iff in Hg as [Hc Hg]. cbn [app]. rewrite Hc.
  apply rep_greedy_longest; [exact Hrest | exact Hg |].
  replace (S i + length g)%nat with (i + length (c :: g))%nat by (cbn; lia).
  change (c :: g ++ rest) with ((c :: g) ++ rest). now rewrite firstn_consumed.
Qed.

(** The search passes over a prefix in which the pattern's literal does
    not start. *)
Lemma search_from_skip (w : text) (rs : list regex) (tail : text) (m : mres) :
  forall (before : text) (i : nat),
    first_occurrence w before tail ->
    match_seq (RLit w :: rs) accept (w ++ tail) (i + length before)%nat [] = Some m ->
    search_from (RLit w :: rs) (before ++ w ++ tail) i = Some ((i + length before)%nat, m).
Proof.
  induction before as [| c before IH]; intros i Hfirst Hm.
  - cbn [app length] in *. rewrite Nat.add_0_r in *.
    destruct (w ++ tail) as [| x s] eqn:E; cbn [search_from]; now rewrite Hm.
  - cbn [app search_from].
    assert (match_seq (RLit w :: rs) accept (c :: before ++ w ++ tail) i [] = None) as ->.
    { cbn [match_seq rmatch].
      pose proof (Hfirst [] (c :: before) eq_refl ltac:(discriminate)) as H0.
      cbn [app] in H0. now rewrite H0. }
    rewrite (IH (S i)).
    + f_equal. f_equal. cbn [length]. lia.
    + intros sk s' -> Hne. exact (Hfirst (c :: sk) s' eq_refl Hne).
    + now replace (S i + length before)%nat with (i + length (c :: before))%nat
        by (cbn; lia).
Qed.

Lemma re_search_labelled (label : string) (cls : ascii -> bool)
  (before ws1 ws2 g rest : text) :
  (forall c, cls c = true -> is_space c = false) ->
  first_occurrence (T label) before (ws1 ++ T ":" ++ ws2 ++ g ++ rest) ->
  forallb is_space ws1 = true -> forallb is_space ws2 = true ->
  g <> [] -> forallb cls g = true ->
  match rest with c :: _ => cls c = false | [] => True end ->
  re_search (labelled label cls) (before ++ T label ++ ws1 ++ T ":" ++ ws2 ++ g ++ rest)
  = Some [g].
Proof.
  intros Hcls Hfirst Hw1 Hw2 Hne Hg Hrest. unfold re_search, labelled.
  rewrite (search_from_skip (T label) _ _ ([g], rest) before 0 Hfirst); [reflexivity |].
  cbn [match_seq]. rewrite rmatch_lit_app.
  apply rmatch_star_longest; [reflexivity | exact Hw1 |].
  rewrite rmatch_lit_app.
  apply rmatch_star_longest; [| exact Hw2 |].
  - destruct g as [| c g]; [congruence |]. cbn [app]. apply Hcls.
    cbn [forallb] in Hg. now apply andb_true_iff in Hg as [? _].
  - now apply rmatch_group_plus_longest.
Qed.

Lemma re_search_labelled_tight (label : string) (cls : ascii -> bool)
  (before ws g rest : text) :
  (forall c, cls c = true -> is_space c = false) ->
  first_occurrence (T (label ++ ":")) before (ws ++ g ++ rest) ->
  forallb is_space ws = true ->
  g <> [] -> forallb cls g = true ->
  match rest with c :: _ => cls c = false | [] => True end ->
  re_search (labelled_tight label cls) (before ++ T (label ++ ":") ++ ws ++ g ++ rest)
  = Some [g].
Proof.
  intros Hcls Hfirst Hw Hne Hg Hrest. unfold re_search, labelled_tight.
  rewrite (search_from_skip (T (label ++ ":")) _ _ ([g], rest) before 0 Hfirst);
    [reflexivity |].
  cbn [match_seq]. rewrite rmatch_lit_app.
  apply rmatch_star_longest; [| exact Hw |].
  - destruct g as [| c g]; [congruence |]. cbn [app]. apply Hcls.
    cbn [forallb] in Hg. now apply andb_true_iff in Hg as [? _].
  - now apply rmatch_group_plus_longest.
Qed.

(** X21. A scalar field reads the number after the first occurrence of
    its label: in a text where the label is followed by blanks, a colon,
    blanks and a run of the field's characters, the field is what the
    conversion makes of that whole run, the longest there is, whatever
    precedes the label and whatever follows the run.  The same holds for
    the fields whose label carries its colon. *)
Theorem scalar_field_reads_labelled_number {A : Type} (label : string)
  (cls : ascii -> bool) (conv : text -> outcome A) :
  (forall c, cls c = true -> is_space c = false) ->
  (forall before ws1 ws2 g rest : text,
      first_occurrence (T label) before (ws1 ++ T ":" ++ ws2 ++ g ++ rest) ->
      forallb is_space ws1 = true -> forallb is_space ws2 = true ->
      g <> [] -> forallb cls g = true ->
      match rest with c :: _ => cls c = false | [] => True end ->
      scalar_field (labelled label cls) conv
        (before ++ T label ++ ws1 ++ T ":" ++ ws2 ++ g ++ rest)
      = (let* v := conv g in Ok (Some v)))
  /\ (forall before ws g rest : text,
        first_occurrence (T (label ++ ":")) before (ws ++ g ++ rest) ->
        forallb is_space ws = true ->
        g <> [] -> forallb cls g = true ->
        match rest with c :: _ => cls c = false | [] => True end ->
        scalar_field (labelled_tight label cls) conv
          (before ++ T (label ++ ":") ++ ws ++ g ++ rest)
        = (let* v := conv g in Ok (Some v))).
Proof.
  intros Hcls. split.
  - intros before ws1 ws2 g rest Hfirst Hw1 Hw2 Hne Hg Hrest. unfold scalar_field.
    now rewrite (re_search_labelled label cls before ws1 ws2 g rest).
  - intros before ws g rest Hfirst Hw Hne Hg Hrest. unfold scalar_field.
    now rewrite (re_search_labelled_tight label cls before ws g rest).
Qed.

Lemma scalar_field_reads_labelled_number_witness :
  scalar_field (labelled "Mean" num_char) parse_float (T "Target Mean : 180,921.20 USD")
  = (let* v := parse_float (T "180,921.20") in Ok (Some v)).
Proof.
  destruct (scalar_field_reads_labelled_number "Mean" num_char parse_float
              num_char_not_space) as [H _].
  apply (H (T "Target ") (T " ") (T " ") (T "180,921.20") (T " USD"));
    try reflexivity; try discriminate.
  intros skipped s' Heq Hne.
  do 7 (destruct skipped as [| ? skipped];
        [cbn in Heq; subst s'; reflexivity | injection Heq as <- Heq]).
  destruct skipped; [cbn in Heq; congruence | discriminate Heq].
Defined.
